(** * License resolution engine of the SBOM generator (sbom_generator.py)

    A shallow embedding of the license-resolution code: the license-name
    canonicalizer ([LicenseMapper]), the Maven Central client and its
    parent-POM traversal ([MavenCentralClient]), the package-name heuristics
    ([PackageHeuristics]), the Syft output parser ([SyftOutputParser]), the
    deduplicator ([PackageDeduplicator]) and the enricher ([LicenseEnricher]).

    Conventions.
    - A Python [str] is a [string]; a character is a code point below 256,
      and the character classes below ([isspace], [lower_char], [is_word],
      line boundaries) are Python's on that range.
    - [print] diagnostics and [time.sleep] are not modelled: they change
      neither a returned value nor an object.
    - The network is a parameter: [fetch_pom] (memoised by [lru_cache], so a
      function of the coordinate triple within a run) and the GitHub client
      [get_license_from_repo_url]. *)

From Stdlib Require Import String Ascii List ZArith Bool Lia.
From stdpp Require Import base gmap strings list.
Import ListNotations.
Local Open Scope string_scope.

(** ** Python string primitives *)

Module Str.

Definition code (c : ascii) : N := N_of_ascii c.

Definition in_range (lo hi : N) (c : ascii) : bool :=
  ((lo <=? code c) && (code c <=? hi))%N.

(** [str.isspace] on one character (also the class [\s] of [re]):
    09-0D, 1C-1F, 20, 85, A0. *)
Definition isspace (c : ascii) : bool :=
  in_range 9 13 c || in_range 28 32 c || (code c =? 133)%N || (code c =? 160)%N.

(** [str.lower] on one character: A-Z, and C0-DE except D7. *)
Definition lower_char (c : ascii) : ascii :=
  if in_range 65 90 c || (in_range 192 222 c && negb (code c =? 215)%N)
  then ascii_of_N (code c + 32)
  else c.

(** The class [\w] of [re]: [str.isalnum] or the underscore. *)
Definition is_word (c : ascii) : bool :=
  in_range 48 57 c || in_range 65 90 c || (code c =? 95)%N || in_range 97 122 c
  || (code c =? 170)%N || in_range 178 179 c || (code c =? 181)%N
  || in_range 185 186 c || in_range 188 190 c
  || in_range 192 214 c || in_range 216 246 c || in_range 248 255 c.

Fixpoint lower (s : string) : string :=
  match s with
  | EmptyString => EmptyString
  | String c s' => String (lower_char c) (lower s')
  end.

Definition is_empty (s : string) : bool :=
  match s with EmptyString => true | String _ _ => false end.

(** Truth value of a [str]: non-empty. *)
Definition truthy (s : string) : bool := negb (is_empty s).

Fixpoint lstrip_by (p : ascii -> bool) (s : string) : string :=
  match s with
  | EmptyString => EmptyString
  | String c s' => if p c then lstrip_by p s' else s
  end.

Fixpoint rstrip_by (p : ascii -> bool) (s : string) : string :=
  match s with
  | EmptyString => EmptyString
  | String c s' =>
      let r := rstrip_by p s' in
      if is_empty r && p c then EmptyString else String c r
  end.

Definition strip_by (p : ascii -> bool) (s : string) : string :=
  rstrip_by p (lstrip_by p s).

(** [s.strip()] *)
Definition strip (s : string) : string := strip_by isspace s.

Definition dquote : ascii := "034"%char.

(** [s.strip(q)] where [q] is the double-quote character *)
Definition strip_quotes (s : string) : string := strip_by (Ascii.eqb dquote) s.

(** [s.startswith(p)] *)
Definition startswith (s p : string) : bool := String.prefix p s.

(** [needle in hay] *)
Fixpoint contains (needle hay : string) : bool :=
  String.prefix needle hay ||
  match hay with
  | EmptyString => false
  | String _ hay' => contains needle hay'
  end.

(** [s.split(sep, 1)] for a one-character separator: [None] when [sep] does
    not occur (Python returns the one-element list [[s]]), otherwise the
    text before and after the first occurrence. *)
Fixpoint split1 (sep : ascii) (s : string) : option (string * string) :=
  match s with
  | EmptyString => None
  | String c s' =>
      if Ascii.eqb c sep then Some (EmptyString, s')
      else match split1 sep s' with
           | Some (a, b) => Some (String c a, b)
           | None => None
           end
  end.

(** A dict with [str] keys, in declaration order. *)
Fixpoint dict_get {V : Type} (k : string) (d : list (string * V)) : option V :=
  match d with
  | [] => None
  | (k', v) :: d' => if String.eqb k k' then Some v else dict_get k d'
  end.

End Str.

(** ** class LicenseMapper *)

Module LicenseMapper.
Import Str.

Definition apache_2_0_url := "https://www.apache.org/licenses/LICENSE-2.0.txt".

Definition _LICENSE_URLS : list (string * string) :=
  [ ("apache-2.0", "https://www.apache.org/licenses/LICENSE-2.0.txt");
    ("apache license, version 2.0", "https://www.apache.org/licenses/LICENSE-2.0.txt");
    ("the apache software license, version 2.0", "https://www.apache.org/licenses/LICENSE-2.0.txt");
    ("the apache software license", "https://www.apache.org/licenses/LICENSE-2.0.txt");
    ("apache license", "https://www.apache.org/licenses/LICENSE-2.0.txt");
    ("mit", "https://opensource.org/licenses/MIT");
    ("mit license", "https://opensource.org/licenses/MIT");
    ("bsd-3-clause", "https://opensource.org/licenses/BSD-3-Clause");
    ("bsd license", "https://opensource.org/licenses/BSD-3-Clause");
    ("bsd licence", "https://opensource.org/licenses/BSD-3-Clause");
    ("gpl-2.0", "https://www.gnu.org/licenses/old-licenses/gpl-2.0.html");
    ("gpl-3.0", "https://www.gnu.org/licenses/gpl-3.0.html");
    ("gnu general public license v2", "https://www.gnu.org/licenses/old-licenses/gpl-2.0.txt");
    ("lgpl-3.0", "https://www.gnu.org/licenses/lgpl-3.0.html");
    ("lgplv3", "https://www.gnu.org/licenses/lgpl-3.0.html");
    ("gnu lesser general public license v3.0 or later", "https://www.gnu.org/licenses/lgpl-3.0.html");
    ("eclipse public license - v 2.0", "https://www.eclipse.org/legal/epl-2.0/");
    ("eclipse public license, version 1.0", "https://www.eclipse.org/legal/epl-v10.html");
    ("mpl-2.0", "https://www.mozilla.org/en-US/MPL/2.0/");
    ("mozilla public license version 1.1", "https://www.mozilla.org/en-US/MPL/1.1/");
    ("cddl", "https://opensource.org/licenses/CDDL-1.0");
    ("unicode-3.0", "https://www.unicode.org/license.txt");
    ("bouncy castle licence", "https://www.bouncycastle.org/licence.html");
    ("common public license", "https://opensource.org/licenses/CPL-1.0");
    ("cup parser generator copyright notice, license, and disclaimer",
       "http://www2.cs.tum.edu/projects/cup/licence.php");
    ("alfresco component license agreement", "https://www.alfresco.com/legal/agreements") ].

(** [cls._LICENSE_URLS[k]] for a key written in the source; every such key
    is in the table, so the subscript never raises. *)
Definition url_of (k : string) : option string := dict_get k _LICENSE_URLS.

(** [_apply_heuristics]; the [context] argument only selects a diagnostic. *)
Definition _apply_heuristics (license_name context : string) : option string :=
  if contains "apache" license_name && contains "2.0" license_name then
    url_of "apache-2.0"
  else if startswith license_name "mit" then
    url_of "mit"
  else if contains "bsd" license_name then
    url_of "bsd-3-clause"
  else if contains "eclipse" license_name then
    (if contains "2.0" license_name
     then url_of "eclipse public license - v 2.0"
     else url_of "eclipse public license, version 1.0")
  else if contains "lgpl" license_name || contains "lesser" license_name then
    url_of "lgpl-3.0"
  else if contains "gpl" license_name then
    (if contains "3" license_name then url_of "gpl-3.0" else url_of "gpl-2.0")
  else if contains "mozilla" license_name || contains "mpl" license_name then
    (if contains "2.0" license_name
     then url_of "mpl-2.0"
     else url_of "mozilla public license version 1.1")
  else if contains "alfresco" license_name then
    url_of "alfresco component license agreement"
  else None.

(** [license_name.lower().strip()], then the surrounding double quotes stripped *)
Definition normalize (license_name : string) : string :=
  strip_quotes (strip (lower license_name)).

Definition get_url (license_name context : string) : option string :=
  let normalized_name := normalize license_name in
  match dict_get normalized_name _LICENSE_URLS with
  | Some url => Some url
  | None => _apply_heuristics normalized_name context
  end.

End LicenseMapper.

Definition get_canonical_license_url (license_name context : string) : option string :=
  LicenseMapper.get_url license_name context.


(** ** Data model *)

Module License.

Record t := mk { name : string; url : option string }.

(** Truth value of an [Optional[str]]. *)
Definition url_truthy (u : option string) : bool :=
  match u with Some s => Str.truthy s | None => false end.

(** [License(name=..., url=...)]: the dataclass constructor followed by
    [__post_init__], which fills a missing URL from the canonicalizer. *)
Definition make (name : string) (url : option string) : t :=
  if url_truthy url then mk name url
  else mk name (get_canonical_license_url name EmptyString).

End License.

Module Package.

Record t := mk {
  name : string;
  version : string;
  purl : string;
  licenses : list License.t;
  license_source : string
}.

Definition has_licenses (p : t) : bool := (0 <? length (licenses p))%nat.

Definition unique_key (p : t) : string * string := (name p, version p).

Definition set_licenses (p : t) (ls : list License.t) : t :=
  mk (name p) (version p) (purl p) ls (license_source p).

Definition set_license_source (p : t) (src : string) : t :=
  mk (name p) (version p) (purl p) (licenses p) src.

End Package.

(** Truth value of a list: non-empty. *)
Definition nonempty {A : Type} (l : list A) : bool :=
  match l with [] => false | _ :: _ => true end.

(** ** xml.etree.ElementTree: the part of the API the client uses *)

Module ET.

(** An element: its tag (a namespaced tag is written with the namespace
    URI in braces before the local name, as the parser produces it), its
    text ([None] and the empty text are the same to [findtext]) and its
    child elements in document order. *)
#[warnings="-register-all"]
Inductive Element := Elem (tag : string) (text : string) (children : list Element).

Definition tag (e : Element) : string := let 'Elem t _ _ := e in t.
Definition text (e : Element) : string := let 'Elem _ x _ := e in x.
Definition children (e : Element) : list Element := let 'Elem _ _ c := e in c.

(** The proper descendants of [e] in document order. *)
Fixpoint descendants (e : Element) : list Element :=
  let 'Elem _ _ cs := e in
  flat_map (fun c => c :: descendants c) cs.

Definition has_tag (t : string) (e : Element) : bool := String.eqb (tag e) t.

(** [e.findall('t')] and [e.find('t')]: children with tag [t]. *)
Definition findall_child (t : string) (e : Element) : list Element :=
  List.filter (has_tag t) (children e).

Definition find_child (t : string) (e : Element) : option Element :=
  head (findall_child t e).

(** [e.findall('.//t')] *)
Definition findall_desc (t : string) (e : Element) : list Element :=
  List.filter (has_tag t) (descendants e).

(** [e.findall('.//t1/t2')] *)
Definition findall_desc_child (t1 t2 : string) (e : Element) : list Element :=
  flat_map (findall_child t2) (findall_desc t1 e).

(** [findtext(path, default='')] from the elements the path selects. *)
Definition text_of_first (found : list Element) : string :=
  match found with
  | e :: _ => text e
  | [] => EmptyString
  end.

Definition findtext_child (t : string) (e : Element) : string :=
  text_of_first (findall_child t e).

Definition findtext_desc_child (t1 t2 : string) (e : Element) : string :=
  text_of_first (findall_desc_child t1 t2 e).

(** Truth value of an element: it has children. *)
Definition truthy (e : Element) : bool := nonempty (children e).

(** [a or b] on two results of [find]. *)
Definition or_else (a b : option Element) : option Element :=
  match a with
  | Some e => if truthy e then Some e else b
  | None => b
  end.

End ET.

(** [a or b] on two [str]. *)
Definition str_or (a b : string) : string := if Str.truthy a then a else b.

(** ** class MavenCentralClient *)

Module MavenCentralClient.
Import ET.

(** The prefix [m:] under [POM_NAMESPACES]. *)
Definition m (local : string) : string :=
  "{http://maven.apache.org/POM/4.0.0}" ++ local.

Section Client.

(** [fetch_pom]: the memoised GET and XML parse; [None] for a failed fetch. *)
Variable fetch_pom : string -> string -> string -> option Element.

(** [GitHubClient.get_license_from_repo_url] *)
Variable get_license_from_repo_url : string -> list License.t.

Definition license_of_element (lic_elem : Element) : list License.t :=
  let name := Str.strip (str_or (findtext_child (m "name") lic_elem)
                                (findtext_child "name" lic_elem)) in
  let url := Str.strip (str_or (findtext_child (m "url") lic_elem)
                               (findtext_child "url" lic_elem)) in
  if Str.truthy name then
    let license_url :=
      if Str.truthy url then Some url
      else get_canonical_license_url name "Maven POM" in
    [License.make name license_url]
  else [].

Definition extract_licenses_from_pom (pom : Element) : list License.t :=
  let license_elements :=
    (findall_desc_child (m "licenses") (m "license") pom
     ++ findall_desc "license" pom)%list in
  let licenses := flat_map license_of_element license_elements in
  if nonempty licenses then licenses
  else
    let scm_url := str_or (findtext_desc_child (m "scm") (m "url") pom)
                          (findtext_desc_child "scm" "url" pom) in
    if Str.truthy scm_url then get_license_from_repo_url scm_url
    else [].

(** The parent coordinates read off a POM, as the second half of
    [lookup_license_recursively] computes them: [None] where the function
    returns the empty list instead of recursing. *)
Definition parent_coordinates (group_id : string) (pom : Element)
  : option (string * string * string) :=
  match or_else (find_child (m "parent") pom) (find_child "parent" pom) with
  | None => None
  | Some parent =>
      let parent_group :=
        Str.strip (str_or (findtext_child (m "groupId") parent)
                          (str_or (findtext_child "groupId" parent) group_id)) in
      let parent_artifact :=
        Str.strip (str_or (findtext_child (m "artifactId") parent)
                          (findtext_child "artifactId" parent)) in
      let parent_version :=
        Str.strip (str_or (findtext_child (m "version") parent)
                          (findtext_child "version" parent)) in
      if negb (Str.truthy parent_artifact && Str.truthy parent_version) then None
      else Some (parent_group, parent_artifact, parent_version)
  end.

(** [lookup_license_recursively]. [max_depth] is a Python [int], so the
    recursion is not structural; [stack] bounds the number of nested calls
    and [None] is the result of running out of it. *)
Fixpoint lookup_license_recursively (stack : nat)
    (group_id artifact_id version : string) (max_depth : Z)
  : option (list License.t) :=
  match stack with
  | O => None
  | S stack' =>
      if (max_depth =? 0)%Z then Some []
      else
        match fetch_pom group_id artifact_id version with
        | None => Some []
        | Some pom =>
            let licenses := extract_licenses_from_pom pom in
            if nonempty licenses then Some licenses
            else
              match parent_coordinates group_id pom with
              | None => Some []
              | Some (parent_group, parent_artifact, parent_version) =>
                  lookup_license_recursively stack'
                    parent_group parent_artifact parent_version (max_depth - 1)
              end
        end
  end.

Definition default_max_depth : Z := 4.

(** [reaches n t pom]: [pom] is the descriptor [n] parent links above the
    coordinates [t], and no descriptor below it on the chain has license
    data. *)
Inductive reaches : nat -> string * string * string -> Element -> Prop :=
| reaches_here group_id artifact_id version pom :
    fetch_pom group_id artifact_id version = Some pom ->
    reaches 0 (group_id, artifact_id, version) pom
| reaches_parent n group_id artifact_id version pom parent pom' :
    fetch_pom group_id artifact_id version = Some pom ->
    extract_licenses_from_pom pom = [] ->
    parent_coordinates group_id pom = Some parent ->
    reaches n parent pom' ->
    reaches (S n) (group_id, artifact_id, version) pom'.

End Client.

End MavenCentralClient.

(** ** class PackageHeuristics *)

Module PackageHeuristics.

Record rule := mk_rule {
  rule_name : string;
  license : License.t;
  conditions : list (Package.t -> bool)
}.

Definition name_in (names : list string) (n : string) : bool :=
  existsb (String.eqb n) names.

Definition HEURISTIC_RULES : list rule :=
  [ mk_rule "apache_packages"
      (License.make "Apache-2.0" (get_canonical_license_url "apache-2.0" EmptyString))
      [ (fun pkg => Str.contains "org.apache" (Package.purl pkg));
        (fun pkg => Str.startswith (Package.name pkg) "tomcat"
                    || Str.startswith (Package.name pkg) "tika-"
                    || Str.startswith (Package.name pkg) "commons-");
        (fun pkg => name_in ["catalina"; "jasper"; "catalina-ha"; "catalina-tribes";
                             "catalina-ssi"; "catalina-storeconfig"] (Package.name pkg)) ];
    mk_rule "jakarta_packages"
      (License.make "EPL-2.0"
         (get_canonical_license_url "eclipse public license - v 2.0" EmptyString))
      [ (fun pkg => Str.startswith (Package.name pkg) "jakarta") ];
    mk_rule "st4_packages"
      (License.make "BSD-3-Clause" (get_canonical_license_url "bsd-3-clause" EmptyString))
      [ (fun pkg => Str.startswith (Package.name pkg) "st4"
                    || String.eqb (Package.name pkg) "ST4") ];
    mk_rule "acegi_packages"
      (License.make "Apache-2.0" (get_canonical_license_url "apache-2.0" EmptyString))
      [ (fun pkg => Str.startswith (Package.name pkg) "acegi") ] ].

Fixpoint apply_rules (rules : list rule) (package : Package.t) : list License.t :=
  match rules with
  | [] => []
  | r :: rules' =>
      if existsb (fun condition => condition package) (conditions r)
      then [license r]
      else apply_rules rules' package
  end.

Definition apply_heuristics (package : Package.t) : list License.t :=
  apply_rules HEURISTIC_RULES package.

End PackageHeuristics.

(** ** The regular expressions of the parser

    A pattern is modelled by its matcher: [m s] is the length of the match
    that starts at the first character of [s], if there is one, found in the
    order the backtracking engine of [re] tries the alternatives. *)

Module Re.
Import Str.

Fixpoint drop (n : nat) (s : string) : string :=
  match n, s with
  | O, _ => s
  | S n', String _ s' => drop n' s'
  | S _, EmptyString => EmptyString
  end.

Definition matcher := string -> option nat.

Definition push (c : ascii) (parts : list string) : list string :=
  match parts with
  | p :: ps => String c p :: ps
  | [] => [String c EmptyString]
  end.

(** [re.split(pattern, s)] for a pattern that matches no empty string. The
    head of the result is the piece being read; [skip] characters of the
    match in progress are still to be dropped. *)
Fixpoint split_from (m : matcher) (skip : nat) (s : string) : list string :=
  match s with
  | EmptyString => [EmptyString]
  | String c s' =>
      match skip with
      | S k => split_from m k s'
      | O =>
          match m s with
          | Some (S k) => EmptyString :: split_from m k s'
          | _ => push c (split_from m 0 s')
          end
      end
  end.

Definition split (m : matcher) (s : string) : list string := split_from m 0 s.

(** [re.sub(pattern, '', s)] for a pattern that matches no empty string. *)
Fixpoint remove_from (m : matcher) (skip : nat) (s : string) : string :=
  match s with
  | EmptyString => EmptyString
  | String c s' =>
      match skip with
      | S k => remove_from m k s'
      | O =>
          match m s with
          | Some (S k) => remove_from m k s'
          | _ => String c (remove_from m 0 s')
          end
      end
  end.

Definition remove (m : matcher) (s : string) : string := remove_from m 0 s.

(** [[Vv]ersion\b] at the start of [s]. *)
Definition at_version (s : string) : bool :=
  match s with
  | String c s' =>
      (Ascii.eqb c "V" || Ascii.eqb c "v") && String.prefix "ersion" s' &&
      match drop 6 s' with
      | String d _ => negb (is_word d)
      | EmptyString => true
      end
  | EmptyString => false
  end.

(** [\s*(?![Vv]ersion\b)]: the greedy star takes the longest run of
    whitespace first and gives characters back while the lookahead fails. *)
Fixpoint spaces_not_version (s : string) : option nat :=
  let here := if at_version s then None else Some O in
  match s with
  | String c s' =>
      if isspace c then
        match spaces_not_version s' with
        | Some k => Some (S k)
        | None => here
        end
      else here
  | EmptyString => here
  end.

(** [,\s*(?![Vv]ersion\b)] *)
Definition comma_sep : matcher := fun s =>
  match s with
  | String c s' =>
      if Ascii.eqb c "," then option_map S (spaces_not_version s') else None
  | EmptyString => None
  end.

(** The length of the longest prefix of non-whitespace characters. *)
Fixpoint nonspace_run (s : string) : nat :=
  match s with
  | String c s' => if isspace c then O else S (nonspace_run s')
  | EmptyString => O
  end.

(** A literal at the start of [s]: what follows it. *)
Fixpoint after_literal (lit s : string) : option string :=
  match lit with
  | EmptyString => Some s
  | String a lit' =>
      match s with
      | String b s' => if Ascii.eqb a b then after_literal lit' s' else None
      | EmptyString => None
      end
  end.

(** [://\S+] *)
Definition scheme_sep_rest (s : string) : option nat :=
  match after_literal "://" s with
  | Some r =>
      match nonspace_run r with
      | O => None
      | S n => Some (3 + S n)%nat
      end
  | None => None
  end.

(** [https?://\S+]: the optional [s] is tried first. *)
Definition url_token : matcher := fun s =>
  match after_literal "http" s with
  | Some r =>
      let with_s :=
        match after_literal "s" r with
        | Some r' => option_map (fun n => 5 + n)%nat (scheme_sep_rest r')
        | None => None
        end in
      match with_s with
      | Some n => Some n
      | None => option_map (fun n => 4 + n)%nat (scheme_sep_rest r)
      end
  | None => None
  end.

Definition LF : ascii := "010"%char.
Definition CR : ascii := "013"%char.

(** [.] matches every character but the line feed. *)
Definition dot (c : ascii) : bool := negb (Ascii.eqb c LF).

(** The last group, [.*] up to [$]: the end of the string, or a line feed
    that ends it. *)
Fixpoint rest_of_line (s : string) : option string :=
  match s with
  | EmptyString => Some EmptyString
  | String c s' =>
      if dot c then option_map (String c) (rest_of_line s')
      else if is_empty s' then Some EmptyString else None
  end.

(** Space, dash, optional space (greedy), then the last group. *)
Definition dash_text (s : string) : option string :=
  match s with
  | String c1 (String c2 r) =>
      if Ascii.eqb c1 " " && Ascii.eqb c2 "-" then
        let with_space :=
          match r with
          | String c3 r' => if Ascii.eqb c3 " " then rest_of_line r' else None
          | EmptyString => None
          end in
        match with_space with
        | Some t => Some t
        | None => rest_of_line r
        end
      else None
  | _ => None
  end.

(** The third group, [.*?], and what follows it: the lazy star tries the
    shortest group first. *)
Fixpoint purl_text (s : string) : option (string * string) :=
  match dash_text s with
  | Some t => Some (EmptyString, t)
  | None =>
      match s with
      | String c s' =>
          if dot c then
            match purl_text s' with
            | Some (p, t) => Some (String c p, t)
            | None => None
            end
          else None
      | EmptyString => None
      end
  end.

(** [:X] for a continuation [X]. *)
Definition colon_then {A : Type} (k : string -> option A) (s : string) : option A :=
  match s with
  | String c s' => if Ascii.eqb c ":" then k s' else None
  | EmptyString => None
  end.

(** [(.+?)X]: at least one character, then the shortest group after which
    the continuation [X] matches. *)
Fixpoint lazy_plus {A : Type} (k : string -> option A) (s : string)
  : option (string * A) :=
  match s with
  | String c s' =>
      if dot c then
        match k s' with
        | Some a => Some (String c EmptyString, a)
        | None =>
            match lazy_plus k s' with
            | Some (g, a) => Some (String c g, a)
            | None => None
            end
        end
      else None
  | EmptyString => None
  end.

(** [PACKAGE_PATTERN.match(line)]: the four groups of the pattern, which is
    [.+?] colon [.+?] colon [.*?] space dash optional-space [.*], anchored at
    both ends. *)
Definition package_pattern (line : string)
  : option (string * string * string * string) :=
  match lazy_plus (colon_then (lazy_plus (colon_then purl_text))) line with
  | Some (g1, (g2, (g3, g4))) => Some (g1, g2, g3, g4)
  | None => None
  end.

(** [str.splitlines] boundaries below 256: 0A-0D, 1C-1E, 85. *)
Definition is_linebreak (c : ascii) : bool :=
  in_range 10 13 c || in_range 28 30 c || (code c =? 133)%N.

Definition push_line (c : ascii) (lines : list string) : list string :=
  match lines with
  | l :: ls => String c l :: ls
  | [] => [String c EmptyString]
  end.

(** [s.splitlines()]; [after_cr] says that the previous character was a
    carriage return, which a line feed completes. *)
Fixpoint splitlines_from (after_cr : bool) (s : string) : list string :=
  match s with
  | EmptyString => []
  | String c s' =>
      if after_cr && Ascii.eqb c LF then splitlines_from false s'
      else if is_linebreak c then EmptyString :: splitlines_from (Ascii.eqb c CR) s'
      else push_line c (splitlines_from false s')
  end.

Definition splitlines (s : string) : list string := splitlines_from false s.

End Re.

(** ** class SyftOutputParser *)

Module SyftOutputParser.
Import Str.

(** [s.split(';', 1)[0]] *)
Definition before_semicolon (s : string) : string :=
  match split1 ";" s with
  | Some (a, _) => a
  | None => s
  end.

(** The body of the loop of [_parse_license_text]: the cleaned name of one
    part. *)
Definition clean_name (part : string) : string :=
  let part := strip part in
  strip (before_semicolon (Re.remove Re.url_token part)).

Definition license_of_part (part : string) : list License.t :=
  let clean_name := clean_name part in
  if truthy clean_name then [License.make clean_name None] else [].

Definition _parse_license_text (license_text : string) : list License.t :=
  if negb (truthy license_text) || String.eqb license_text "-" then []
  else
    let parts := Re.split Re.comma_sep license_text in
    flat_map license_of_part parts.

Definition alfresco_license_text : string :=
  "GNU Lesser General Public License v3.0 or later".

(** The body of the loop of [parse] for one line of the output: [None]
    where the loop continues without a package. *)
Definition parse_line (line : string) : option Package.t :=
  let line := strip line in
  if negb (truthy line) then None
  else
    match Re.package_pattern line with
    | None => None
    | Some (g1, g2, g3, g4) =>
        let name := strip g1 in
        let version := strip g2 in
        let purl := strip g3 in
        let license_text := strip g4 in
        let license_text :=
          if startswith name "alfresco-"
             && (negb (truthy license_text) || String.eqb license_text "-")
          then alfresco_license_text
          else license_text in
        let licenses := _parse_license_text license_text in
        Some (Package.mk name version purl licenses "Original")
    end.

Definition parse (syft_output : string) : list Package.t :=
  omap parse_line (Re.splitlines syft_output).

End SyftOutputParser.

(** ** class PackageDeduplicator *)

Module PackageDeduplicator.

Definition key := (string * string)%type.

Definition key_eqb (a b : key) : bool :=
  String.eqb (fst a) (fst b) && String.eqb (snd a) (snd b).

(** [merged_packages]: a dict from keys to packages, in insertion order. *)
Definition dict := list (key * Package.t).

Fixpoint get (k : key) (d : dict) : option Package.t :=
  match d with
  | [] => None
  | (k', p) :: d' => if key_eqb k k' then Some p else get k d'
  end.

(** Assignment to the value of a key that is present keeps its position. *)
Fixpoint set (k : key) (p : Package.t) (d : dict) : dict :=
  match d with
  | [] => [(k, p)]
  | (k', p') :: d' => if key_eqb k k' then (k', p) :: d' else (k', p') :: set k p d'
  end.

Definition values (d : dict) : list Package.t := map snd d.

(** The inner loop: the licenses of the merged package and the set of their
    names, after one more license of the incoming package. *)
Definition merge_license (st : list License.t * gset string) (license_obj : License.t)
  : list License.t * gset string :=
  let '(licenses, existing_license_names) := st in
  if bool_decide (License.name license_obj ∈ existing_license_names) then st
  else ((licenses ++ [license_obj])%list,
        existing_license_names ∪ {[ License.name license_obj ]}).

(** The body of the outer loop. *)
Definition merge_package (merged_packages : dict) (package : Package.t) : dict :=
  let key := Package.unique_key package in
  let merged_packages :=
    match get key merged_packages with
    | Some _ => merged_packages
    | None =>
        set key (Package.mk (Package.name package) (Package.version package)
                   (Package.purl package) [] (Package.license_source package))
          merged_packages
    end in
  match get key merged_packages with
  | None => merged_packages
  | Some entry =>
      let existing_license_names : gset string :=
        list_to_set (map License.name (Package.licenses entry)) in
      let '(licenses, _) :=
        fold_left merge_license (Package.licenses package)
          (Package.licenses entry, existing_license_names) in
      set key (Package.set_licenses entry licenses) merged_packages
  end.

Definition deduplicate (packages : list Package.t) : list Package.t :=
  values (fold_left merge_package packages []).

End PackageDeduplicator.

(** ** class LicenseEnricher *)

Module LicenseEnricher.
Import Str.

Inductive exn := ValueError.

(** Unpacking the result of [s.split(sep, 1)] into two names raises
    [ValueError] when the separator does not occur. *)
Definition split_unpack (sep : ascii) (s : string) : exn + (string * string) :=
  match split1 sep s with
  | Some ab => inr ab
  | None => inl ValueError
  end.

(** The [try] block of [_extract_maven_coordinates]. *)
Definition coordinates_of_path (purl : string) : exn + (string * string * string) :=
  let purl_path := Re.drop (String.length "pkg:maven/") purl in
  match split_unpack "@" purl_path with
  | inl e => inl e
  | inr (coordinates, version) =>
      match split_unpack "/" coordinates with
      | inl e => inl e
      | inr (group_id, artifact_id) => inr (group_id, artifact_id, version)
      end
  end.

Definition _extract_maven_coordinates (purl : string)
  : option (string * string * string) :=
  if negb (startswith purl "pkg:maven/") then None
  else
    match coordinates_of_path purl with
    | inr coordinates => Some coordinates
    | inl ValueError => None
    end.

(** The two lookups a package can be sent to, for the record of calls. *)
Inductive call :=
| MavenCentral (group_id artifact_id version : string)
| Heuristics (package : Package.t).

(** The heap of [Package] objects: a package is mutated in place, and a
    list of packages is a list of references. *)
Abbreviation loc := nat.
Abbreviation heap := (gmap nat Package.t).

Definition enriched_source : string := "Maven/GitHub/Heuristic".

Section Enricher.

Variable fetch_pom : string -> string -> string -> option ET.Element.
Variable get_license_from_repo_url : string -> list License.t.

(** [MavenCentralClient.lookup_license_recursively] on the unpacked
    coordinates: the call with the default [max_depth], for which five
    nested calls are enough. *)
Definition lookup_license_default (group_id artifact_id version : string)
  : list License.t :=
  match MavenCentralClient.lookup_license_recursively
          fetch_pom get_license_from_repo_url 5
          group_id artifact_id version MavenCentralClient.default_max_depth with
  | Some licenses => licenses
  | None => []
  end.

(** [_lookup_package_licenses], returning also the lookups it called, in
    the order of the calls. *)
Definition _lookup_package_licenses (package : Package.t)
  : list call * list License.t :=
  match _extract_maven_coordinates (Package.purl package) with
  | Some (group_id, artifact_id, version) =>
      let licenses := lookup_license_default group_id artifact_id version in
      if nonempty licenses then ([MavenCentral group_id artifact_id version], licenses)
      else ([MavenCentral group_id artifact_id version; Heuristics package],
            PackageHeuristics.apply_heuristics package)
  | None => ([Heuristics package], PackageHeuristics.apply_heuristics package)
  end.

(** The body of the loop of [enrich_packages] on the object at [l]. *)
Definition enrich_one (h : heap) (l : loc) : heap :=
  match h !! l with
  | None => h
  | Some package =>
      let licenses := snd (_lookup_package_licenses package) in
      if nonempty licenses then
        <[ l := Package.set_license_source
                  (Package.set_licenses package licenses) enriched_source ]> h
      else h
  end.

Definition lacks_licenses (h : heap) (l : loc) : bool :=
  match h !! l with
  | Some pkg => negb (Package.has_licenses pkg)
  | None => false
  end.

(** [enrich_packages]: the heap after the call and the returned list. *)
Definition enrich_packages (h : heap) (packages : list loc) : heap * list loc :=
  let packages_without_licenses := List.filter (lacks_licenses h) packages in
  if negb (nonempty packages_without_licenses) then (h, packages)
  else (fold_left enrich_one packages_without_licenses h, packages).

End Enricher.

End LicenseEnricher.

(** * Specification notions and example data *)

(** No entry of the exact table whose key mentions both words maps to
    anything but the Apache-2.0 URL. *)
Definition apache_entry_ok (kv : string * string) : bool :=
  implb (Str.contains "apache" (fst kv) && Str.contains "2.0" (fst kv))
        (String.eqb (snd kv) LicenseMapper.apache_2_0_url).

(** Example registries. *)
Module Examples.
Import ET.

Definition project (children : list Element) : Element :=
  Elem (MavenCentralClient.m "project") EmptyString children.

Definition leaf (tag text : string) : Element :=
  Elem (MavenCentralClient.m tag) text [].

(** A descriptor with no license data and a parent reference. *)
Definition pom_with_parent (artifact_id : string) : Element :=
  project
    [ Elem (MavenCentralClient.m "parent") EmptyString
        [ leaf "groupId" "org.example"; leaf "artifactId" artifact_id;
          leaf "version" "1" ] ].

(** A descriptor that declares one license. *)
Definition pom_with_license : Element :=
  project
    [ Elem (MavenCentralClient.m "licenses") EmptyString
        [ Elem (MavenCentralClient.m "license") EmptyString
            [ leaf "name" "MIT License";
              leaf "url" "https://opensource.org/licenses/MIT" ] ] ].

(** The chain a1 -> a2 -> a3 -> a4 -> a5 of [org.example], version 1; only
    a5 has license data. *)
Definition chain_registry (group_id artifact_id version : string) : option Element :=
  if String.eqb group_id "org.example" && String.eqb version "1" then
    if String.eqb artifact_id "a1" then Some (pom_with_parent "a2")
    else if String.eqb artifact_id "a2" then Some (pom_with_parent "a3")
    else if String.eqb artifact_id "a3" then Some (pom_with_parent "a4")
    else if String.eqb artifact_id "a4" then Some (pom_with_parent "a5")
    else if String.eqb artifact_id "a5" then Some pom_with_license
    else None
  else None.

(** A registry in which every descriptor names [org.example:loop:1] as its
    parent, that one included. *)
Definition cyclic_registry (group_id artifact_id version : string) : option Element :=
  Some (pom_with_parent "loop").

Definition no_github (repo_url : string) : list License.t := [].

(** A manifest in the shape of the default template. *)
Definition manifest : string :=
  "alfresco-core:23.1.0:pkg:maven/org.alfresco/alfresco-core@23.1.0 - "
  ++ String Re.LF
       ("guava:33.0:pkg:maven/com.google.guava/guava@33.0 - Apache-2.0"
        ++ String Re.LF "alfresco-data-model : 1.0 : - -").

End Examples.

(** Strings of whitespace only. *)
Fixpoint all_space (w : string) : bool :=
  match w with
  | EmptyString => true
  | String c w' => Str.isspace c && all_space w'
  end.

(** A literal without whitespace. *)
Fixpoint no_space (lit : string) : bool :=
  match lit with
  | EmptyString => true
  | String c lit' => negb (Str.isspace c) && no_space lit'
  end.

(** The cleaning of one fragment as the specification words it: URL tokens
    removed, cut at the first semicolon, trimmed. *)
Definition clean_fragment (fragment : string) : string :=
  Str.strip (SyftOutputParser.before_semicolon (Re.remove Re.url_token fragment)).

(** The entry the parser gives a vendor package without license text. *)
Definition alfresco_license : License.t :=
  License.mk SyftOutputParser.alfresco_license_text
    (Some "https://www.gnu.org/licenses/lgpl-3.0.html").

(** [c in s] for a character. *)
Fixpoint has_char (c : ascii) (s : string) : bool :=
  match s with
  | EmptyString => false
  | String d s' => Ascii.eqb d c || has_char c s'
  end.

(** What [enrich_packages] makes of a package that enters without
    licenses, given the two lookups. *)
Definition enriched (fetch_pom : string -> string -> string -> option ET.Element)
    (get_license_from_repo_url : string -> list License.t) (pkg : Package.t)
  : Package.t :=
  let licenses :=
    snd (LicenseEnricher._lookup_package_licenses
           fetch_pom get_license_from_repo_url pkg) in
  if nonempty licenses then
    Package.mk (Package.name pkg) (Package.version pkg) (Package.purl pkg)
      licenses LicenseEnricher.enriched_source
  else pkg.

(** The heap [hk] after the objects at [done] of the heap [h] have gone
    through the loop body of [enrich_packages]. *)
Definition enriched_at (fetch_pom : string -> string -> string -> option ET.Element)
    (get_license_from_repo_url : string -> list License.t)
    (h : LicenseEnricher.heap) (done : list LicenseEnricher.loc)
    (hk : LicenseEnricher.heap) : Prop :=
  forall l : LicenseEnricher.loc,
    (In l done -> hk !! l = enriched fetch_pom get_license_from_repo_url <$> h !! l)
    /\ (~ In l done -> hk !! l = h !! l).

(** Example packages and an example heap. *)
Module EnrichExamples.

Definition licensed : Package.t :=
  Package.mk "guava" "33.0" "pkg:maven/com.google.guava/guava@33.0"
    [License.mk "Apache-2.0" (Some "https://www.apache.org/licenses/LICENSE-2.0.txt")]
    "Original".

Definition resolvable : Package.t :=
  Package.mk "a3" "1" "pkg:maven/org.example/a3@1" [] "Original".

Definition unsplit : Package.t :=
  Package.mk "demo" "1" "pkg:maven/org.example@1" [] "Original".

Definition heap0 : gmap nat Package.t :=
  <[ 0%nat := licensed ]> (<[ 1%nat := resolvable ]> (<[ 2%nat := unsplit ]> ∅)).

End EnrichExamples.

(** The elements of [l] that are the first with their key, in the order of
    [l]. *)
Fixpoint first_seen {A K : Type} `{EqDecision K} (key : A -> K) (l : list A) : list A :=
  match l with
  | [] => []
  | x :: rest =>
      x :: List.filter (fun y => negb (bool_decide (key y = key x))) (first_seen key rest)
  end.

(** The deduplication in the words of the specification. *)
Module DedupSpec.

(** The first-seen member of every group, in first-seen order. *)
Definition first_members (packages : list Package.t) : list Package.t :=
  first_seen Package.unique_key packages.

(** The members of the group of [first]. *)
Definition group_of (packages : list Package.t) (first : Package.t) : list Package.t :=
  List.filter
    (fun q => bool_decide (Package.unique_key q = Package.unique_key first)) packages.

(** The union of the licenses of a group: first-seen order, one entry per
    license name. *)
Definition union_by_name (group : list Package.t) : list License.t :=
  first_seen License.name (flat_map Package.licenses group).

Definition merged_package (packages : list Package.t) (first : Package.t) : Package.t :=
  Package.mk (Package.name first) (Package.version first) (Package.purl first)
    (union_by_name (group_of packages first)) (Package.license_source first).

Definition deduplicate (packages : list Package.t) : list Package.t :=
  map (merged_package packages) (first_members packages).

End DedupSpec.

(** The dict of the deduplicator seen from the specification. *)
Module DedupInvariant.

(** The dict whose entries are [g f] under the key of [f], for [f] in [fm]. *)
Definition entries (g : Package.t -> Package.t) (fm : list Package.t)
  : PackageDeduplicator.dict :=
  map (fun f => (Package.unique_key f, g f)) fm.

(** The dict after the packages [done]. *)
Definition merged_after (done : list Package.t) : PackageDeduplicator.dict :=
  entries (DedupSpec.merged_package done) (DedupSpec.first_members done).

End DedupInvariant.

(** The exact table answers each of its keys with the URL written beside
    it: no key is written twice. *)
Definition table_entry_found (kv : string * string) : bool :=
  match Str.dict_get (fst kv) LicenseMapper._LICENSE_URLS with
  | Some v => String.eqb v (snd kv)
  | None => false
  end.

(** The three URLs of the GPL entries of the table. *)
Definition gpl_urls : list string :=
  [ "https://www.gnu.org/licenses/old-licenses/gpl-2.0.html";
    "https://www.gnu.org/licenses/gpl-3.0.html";
    "https://www.gnu.org/licenses/old-licenses/gpl-2.0.txt" ].

(** No key of the table that mentions the LGPL maps to a GPL URL. *)
Definition lgpl_entry_ok (kv : string * string) : bool :=
  implb (Str.contains "lgpl" (fst kv) || Str.contains "lesser" (fst kv))
        (negb (existsb (String.eqb (snd kv)) gpl_urls)).

(** ** class HTMLReportGenerator: the counts of the summary *)

Module HTMLReportGenerator.

(** The integer entries of the dict [_calculate_statistics] returns. The
    entry [license_coverage] is a float formatted to one decimal and is not
    modelled. *)
Definition total_packages (packages : list Package.t) : nat := length packages.

Definition packages_with_licenses (packages : list Package.t) : nat :=
  length (List.filter Package.has_licenses packages).

Definition packages_without_licenses (packages : list Package.t) : nat :=
  total_packages packages - packages_with_licenses packages.

(** The set the two loops fill with license names. *)
Definition license_names (packages : list Package.t) : gset string :=
  fold_left
    (fun unique_licenses package =>
       fold_left (fun s license_obj => s ∪ {[ License.name license_obj ]})
         (Package.licenses package) unique_licenses)
    packages ∅.

Definition unique_licenses (packages : list Package.t) : nat :=
  size (license_names packages).

End HTMLReportGenerator.

(** What follows the third group of the line pattern: a space and a dash,
    at most one space, the last group, at most one final line feed. *)
Definition pattern_tail (s t : string) : Prop :=
  exists sp nl, s = " -" ++ sp ++ t ++ nl
    /\ (sp = EmptyString \/ sp = " ")
    /\ (nl = EmptyString \/ nl = String Re.LF EmptyString).

(** A name or a version as the output template writes it: not empty, no
    whitespace at either end, no colon and no line feed. *)
Definition template_field (s : string) : Prop :=
  s <> EmptyString /\ Str.strip s = s
  /\ has_char ":" s = false /\ has_char Re.LF s = false.

(** The license text [parse] hands to [_parse_license_text]. *)
Definition effective_license_text (name license_text : string) : string :=
  if Str.startswith name "alfresco-"
     && (negb (Str.truthy license_text) || String.eqb license_text "-")
  then SyftOutputParser.alfresco_license_text
  else license_text.

(** ** main: the path of the package data *)

Module Main.

(** The objects [parse] creates: one per package, at consecutive
    addresses from [next] on. *)
Fixpoint store_from (next : nat) (packages : list Package.t) : gmap nat Package.t :=
  match packages with
  | [] => ∅
  | package :: packages' => <[ next := package ]> (store_from (S next) packages')
  end.

(** The packages a list of references stands for. *)
Definition deref (h : gmap nat Package.t) (refs : list nat) : list Package.t :=
  omap (fun l => h !! l) refs.

Section Pipeline.

Variable fetch_pom : string -> string -> string -> option ET.Element.
Variable get_license_from_repo_url : string -> list License.t.

(** Steps 2 to 4 of [main] on the output of Syft: the packages handed to
    the report generator, or [None] where [main] exits with status 1
    before (blank output, or no package parsed). *)
Definition report_packages (syft_output : string) : option (list Package.t) :=
  if negb (Str.truthy (Str.strip syft_output)) then None
  else
    let packages := SyftOutputParser.parse syft_output in
    if negb (nonempty packages) then None
    else
      let h := store_from 0 packages in
      let refs := seq 0 (length packages) in
      let '(h', packages) :=
        LicenseEnricher.enrich_packages fetch_pom get_license_from_repo_url h refs in
      Some (PackageDeduplicator.deduplicate (deref h' packages)).

End Pipeline.

End Main.

(** What [enrich_packages] makes of a freshly parsed package. *)
Definition enrich_value (fetch_pom : string -> string -> string -> option ET.Element)
    (get_license_from_repo_url : string -> list License.t) (p : Package.t)
  : Package.t :=
  if Package.has_licenses p then p
  else enriched fetch_pom get_license_from_repo_url p.

(** A manifest with a package listed twice, once without license text. *)
Module MainExamples.

Definition manifest : string :=
  "a3:1:pkg:maven/org.example/a3@1 - "
  ++ String Re.LF
       ("guava:33.0:pkg:maven/com.google.guava/guava@33.0 - Apache-2.0"
        ++ String Re.LF "a3:1:pkg:maven/org.example/a3@1 - BSD-3-Clause").

Definition report : list Package.t :=
  [ Package.mk "a3" "1" "pkg:maven/org.example/a3@1"
      [ License.mk "MIT License" (Some "https://opensource.org/licenses/MIT");
        License.mk "BSD-3-Clause" (Some "https://opensource.org/licenses/BSD-3-Clause") ]
      LicenseEnricher.enriched_source;
    Package.mk "guava" "33.0" "pkg:maven/com.google.guava/guava@33.0"
      [ License.mk "Apache-2.0" (Some LicenseMapper.apache_2_0_url) ] "Original" ].

End MainExamples.

(** ** class GitHubClient *)

Module GitHubClient.

Definition GITHUB_API_BASE : string := "https://api.github.com".

(** [$]: the end of the string, or the line feed that ends it. *)
Definition at_end (s : string) : bool :=
  Str.is_empty s || String.eqb s (String Re.LF EmptyString).

(** The pattern [\.git$]. *)
Definition git_suffix : Re.matcher :=
  fun s => if Str.startswith s ".git" && at_end (Re.drop 4 s) then Some 4%nat else None.

(** A literal separator as a pattern: [s.split(sep)] cuts where
    [re.split] cuts for it. *)
Definition literal (sep : string) : Re.matcher :=
  fun s => if Str.startswith s sep then Some (String.length sep) else None.

(** The repository path of the [try] block: [None] where indexing the
    split raises [IndexError]. *)
Definition repo_path (repo_url : string) : option string :=
  nth_error (Re.split (literal "github.com/") (Re.remove git_suffix repo_url)) 1.

Definition api_url (repo_path : string) : string :=
  GITHUB_API_BASE ++ "/repos/" ++ repo_path ++ "/license".

Section Client.

(** The rest of the [try] block, from the request on: the list the
    function returns for the address it asks, the empty list of the
    [except] clause included. *)
Variable license_at : string -> list License.t.

Definition get_license_from_repo_url (repo_url : string) : list License.t :=
  if negb (Str.contains "github.com" repo_url) then []
  else
    match repo_path repo_url with
    | Some repo_path => license_at (api_url repo_path)
    | None => []
    end.

End Client.

End GitHubClient.

(** A license entry with a usable name: not empty, no whitespace at
    either end. *)
Definition named (lic : License.t) : Prop :=
  License.name lic <> EmptyString
  /\ Str.strip (License.name lic) = License.name lic.

(** The license elements [extract_licenses_from_pom] goes through, and the
    name and the URL its loop reads off one of them. *)
Definition license_elements (pom : ET.Element) : list ET.Element :=
  (ET.findall_desc_child (MavenCentralClient.m "licenses")
     (MavenCentralClient.m "license") pom
   ++ ET.findall_desc "license" pom)%list.

Definition declared_name (lic_elem : ET.Element) : string :=
  Str.strip (str_or (ET.findtext_child (MavenCentralClient.m "name") lic_elem)
                    (ET.findtext_child "name" lic_elem)).

Definition declared_url (lic_elem : ET.Element) : string :=
  Str.strip (str_or (ET.findtext_child (MavenCentralClient.m "url") lic_elem)
                    (ET.findtext_child "url" lic_elem)).

(** The entry a license element with a name stands for: its own URL when
    it has one, otherwise the canonical URL of its name. *)
Definition declared_license (lic_elem : ET.Element) : License.t :=
  License.mk (declared_name lic_elem)
    (if Str.truthy (declared_url lic_elem) then Some (declared_url lic_elem)
     else get_canonical_license_url (declared_name lic_elem) EmptyString).

(** The source label [enrich_packages] leaves on a freshly parsed package. *)
Definition label_after_enrichment
    (fetch_pom : string -> string -> string -> option ET.Element)
    (get_license_from_repo_url : string -> list License.t) (p : Package.t) : string :=
  if negb (Package.has_licenses p)
     && nonempty (snd (LicenseEnricher._lookup_package_licenses
                         fetch_pom get_license_from_repo_url p))
  then LicenseEnricher.enriched_source
  else "Original".

(** * Properties *)

(** ** The canonicalizer *)

Lemma dict_get_In {V : Type} (k : string) (d : list (string * V)) (v : V) :
  Str.dict_get k d = Some v -> In (k, v) d.
Proof.
  induction d as [|[k' v'] d IH]; simpl; [discriminate|].
  destruct (String.eqb k k') eqn:E.
  - apply String.eqb_eq in E. intros [= ->]. left. now subst.
  - intros H. right. now apply IH.
Qed.

Lemma apache_entries_ok :
  forallb apache_entry_ok LicenseMapper._LICENSE_URLS = true.
Proof. vm_compute. reflexivity. Qed.

Lemma apply_heuristics_apache (n context : string) :
  Str.contains "apache" n = true ->
  Str.contains "2.0" n = true ->
  LicenseMapper._apply_heuristics n context = Some LicenseMapper.apache_2_0_url.
Proof.
  intros Ha Hv. unfold LicenseMapper._apply_heuristics.
  rewrite Ha, Hv. reflexivity.
Qed.

(** C5. Whenever the normalized name (lower-cased, trimmed, surrounding
    quotes stripped) contains both [apache] and [2.0], [get_url] returns the
    Apache-2.0 URL: an exact-table hit can only give that URL, and otherwise
    the Apache rule, the first heuristic, decides. *)
Theorem get_url_apache_2_0 (license_name context : string) :
  Str.contains "apache" (LicenseMapper.normalize license_name) = true ->
  Str.contains "2.0" (LicenseMapper.normalize license_name) = true ->
  LicenseMapper.get_url license_name context = Some LicenseMapper.apache_2_0_url
  /\ LicenseMapper._apply_heuristics (LicenseMapper.normalize license_name) context
     = Some LicenseMapper.apache_2_0_url.
Proof.
  intros Ha Hv. split; [|now apply apply_heuristics_apache].
  unfold LicenseMapper.get_url.
  destruct (Str.dict_get _ _) as [u|] eqn:E; [|now apply apply_heuristics_apache].
  apply dict_get_In in E.
  pose proof apache_entries_ok as Hall.
  rewrite forallb_forall in Hall. specialize (Hall _ E).
  unfold apache_entry_ok in Hall. simpl in Hall.
  rewrite Ha, Hv in Hall. simpl in Hall.
  apply String.eqb_eq in Hall. now subst.
Qed.

(** A name that is not a key of the exact table, with the words in the
    other order and in capitals. *)
Lemma get_url_apache_2_0_witness :
  Str.dict_get (LicenseMapper.normalize "  Version 2.0 of the APACHE License ")
    LicenseMapper._LICENSE_URLS = None
  /\ LicenseMapper.get_url "  Version 2.0 of the APACHE License " "Maven POM"
     = Some LicenseMapper.apache_2_0_url.
Proof.
  split; [vm_compute; reflexivity|].
  apply (get_url_apache_2_0 "  Version 2.0 of the APACHE License " "Maven POM");
    vm_compute; reflexivity.
Defined.

(** ** The parent-POM traversal *)

Section Traversal.

Variable fetch_pom : string -> string -> string -> option ET.Element.
Variable get_license_from_repo_url : string -> list License.t.

Abbreviation lookup :=
  (MavenCentralClient.lookup_license_recursively fetch_pom get_license_from_repo_url).
Abbreviation extract :=
  (MavenCentralClient.extract_licenses_from_pom get_license_from_repo_url).
Abbreviation reaches :=
  (MavenCentralClient.reaches fetch_pom get_license_from_repo_url).

Lemma nonempty_nil_iff {A : Type} (l : list A) : nonempty l = false <-> l = [].
Proof. destruct l; simpl; split; congruence. Qed.

(** Enough nested calls for a non-negative budget. *)
Lemma lookup_returns
    (stack : nat) (group_id artifact_id version : string) (max_depth : Z) :
  (0 <= max_depth)%Z ->
  (Z.to_nat max_depth < stack)%nat ->
  exists licenses,
    lookup stack group_id artifact_id version max_depth = Some licenses.
Proof.
  revert group_id artifact_id version max_depth.
  induction stack as [|stack IH]; intros g a v d Hd Hs; [lia|].
  simpl.
  destruct (Z.eqb_spec d 0) as [->|Hne]; [eauto|].
  destruct (fetch_pom g a v) as [pom|]; [|eauto].
  destruct (nonempty (extract pom)); [eauto|].
  destruct (MavenCentralClient.parent_coordinates g pom) as [[[pg pa] pv]|]; [|eauto].
  apply IH; lia.
Qed.

(** A result does not depend on the calls left unused. *)
Lemma lookup_more_stack
    (stack stack' : nat) (group_id artifact_id version : string) (max_depth : Z)
    (licenses : list License.t) :
  lookup stack group_id artifact_id version max_depth = Some licenses ->
  (stack <= stack')%nat ->
  lookup stack' group_id artifact_id version max_depth = Some licenses.
Proof.
  revert stack' group_id artifact_id version max_depth.
  induction stack as [|stack IH]; intros stack' g a v d; [discriminate|].
  intros H Hle. destruct stack' as [|stack']; [lia|]. simpl in *.
  destruct (d =? 0)%Z; [exact H|].
  destruct (fetch_pom g a v) as [pom|]; [|exact H].
  destruct (nonempty (extract pom)); [exact H|].
  destruct (MavenCentralClient.parent_coordinates g pom) as [[[pg pa] pv]|]; [|exact H].
  apply (IH stack' pg pa pv (d - 1)%Z H). lia.
Qed.

(** C7. With a non-negative [max_depth], [max_depth + 1] nested calls are
    always enough for a result, whatever the registry answers (a failed
    fetch is not needed to stop), and the result is the same however many
    more calls are available: the counter decreases by one at each call and
    the call that finds it at 0 returns. *)
Theorem lookup_license_recursively_terminates
    (group_id artifact_id version : string) (max_depth : Z) :
  (0 <= max_depth)%Z ->
  exists licenses,
    forall stack : nat,
      (Z.to_nat max_depth < stack)%nat ->
      MavenCentralClient.lookup_license_recursively
        fetch_pom get_license_from_repo_url
        stack group_id artifact_id version max_depth = Some licenses.
Proof.
  intros Hd.
  destruct (lookup_returns (S (Z.to_nat max_depth))
              group_id artifact_id version max_depth Hd) as [licenses Hl]; [lia|].
  exists licenses. intros stack Hs.
  apply (lookup_more_stack (S (Z.to_nat max_depth))); [exact Hl|lia].
Qed.

Lemma lookup_depth_0 (stack : nat) (group_id artifact_id version : string) :
  lookup (S stack) group_id artifact_id version 0 = Some [].
Proof. reflexivity. Qed.

Lemma lookup_along_chain (n : nat) (t : string * string * string) (pom : ET.Element) :
  reaches n t pom ->
  nonempty (extract pom) = true ->
  forall (stack : nat) (max_depth : Z),
    (0 <= max_depth)%Z ->
    (Nat.min n (Z.to_nat max_depth) < stack)%nat ->
    lookup stack t.1.1 t.1.2 t.2 max_depth
    = Some (if (max_depth <=? Z.of_nat n)%Z then [] else extract pom).
Proof.
  intros Hr Hne. induction Hr as [g a v pom Hf | n g a v pom t' pom' Hf He Hp Hr IH];
    intros stack d Hd Hs; (destruct stack as [|stack]; [lia|]); simpl.
  - destruct (Z.eqb_spec d 0) as [->|Hd0]; [reflexivity|].
    rewrite Hf, Hne.
    destruct (Z.leb_spec d (Z.of_nat 0)); [lia|reflexivity].
  - destruct (Z.eqb_spec d 0) as [->|Hd0]; [reflexivity|].
    rewrite Hf, He. simpl. rewrite Hp. destruct t' as [[pg pa] pv].
    specialize (IH Hne stack (d - 1)%Z). simpl in IH.
    rewrite IH by lia.
    destruct (Z.leb_spec (d - 1) (Z.of_nat n)), (Z.leb_spec d (Z.of_nat (S n)));
      try reflexivity; lia.
Qed.

(** A non-empty result is always the data of a descriptor on the chain,
    fewer than [max_depth] links up, below which no descriptor has data. *)
Lemma lookup_nonempty_inv (stack : nat) (group_id artifact_id version : string)
    (max_depth : Z) (licenses : list License.t) :
  (0 <= max_depth)%Z ->
  lookup stack group_id artifact_id version max_depth = Some licenses ->
  nonempty licenses = true ->
  exists n pom,
    reaches n (group_id, artifact_id, version) pom
    /\ (Z.of_nat n < max_depth)%Z /\ licenses = extract pom.
Proof.
  revert group_id artifact_id version max_depth.
  induction stack as [|stack IH]; intros g a v d Hd; simpl; [discriminate|].
  destruct (Z.eqb_spec d 0) as [->|Hd0]; [intros [= <-]; discriminate|].
  destruct (fetch_pom g a v) as [pom|] eqn:Hf; [|intros [= <-]; discriminate].
  destruct (nonempty (extract pom)) eqn:Hne.
  - intros [= <-] _. exists 0%nat, pom. split; [now constructor|]. split; [lia|reflexivity].
  - apply nonempty_nil_iff in Hne.
    destruct (MavenCentralClient.parent_coordinates g pom) as [[[pg pa] pv]|] eqn:Hp;
      [|intros [= <-]; discriminate].
    intros Hl Hn. destruct (IH pg pa pv (d - 1)%Z) as (n & pom' & Hr & Hlt & ->);
      [lia|exact Hl|exact Hn|].
    exists (S n), pom'. split; [|split; [lia|reflexivity]].
    econstructor; eauto.
Qed.

(** C1. (a) With [max_depth = 0] the result is empty for every triple and
    every registry. (b) If the descriptor [n] links up the parent chain is
    the shallowest one with license data, the result is that data when
    [n < max_depth], and empty when the budget ends before it. (c) Over a
    chain of five descriptors with data only in the fifth, the default
    budget of 4 gives the empty list; (d) over a chain of three with data in
    the third, it gives that data. *)
Theorem lookup_license_recursively_shallowest :
  (forall stack group_id artifact_id version,
      lookup (S stack) group_id artifact_id version 0 = Some [])
  /\ (forall n group_id artifact_id version pom stack max_depth,
         reaches n (group_id, artifact_id, version) pom ->
         nonempty (extract pom) = true ->
         (0 <= max_depth)%Z ->
         (Nat.min n (Z.to_nat max_depth) < stack)%nat ->
         lookup stack group_id artifact_id version max_depth
         = Some (if (max_depth <=? Z.of_nat n)%Z then [] else extract pom))
  /\ (forall group_id artifact_id version pom,
         reaches 4 (group_id, artifact_id, version) pom ->
         nonempty (extract pom) = true ->
         lookup 5 group_id artifact_id version MavenCentralClient.default_max_depth
         = Some [])
  /\ (forall group_id artifact_id version pom,
         reaches 2 (group_id, artifact_id, version) pom ->
         nonempty (extract pom) = true ->
         lookup 5 group_id artifact_id version MavenCentralClient.default_max_depth
         = Some (extract pom)).
Proof.
  split; [intros; apply lookup_depth_0|].
  split; [intros n g a v pom stack d Hr Hne Hd Hs;
          apply (lookup_along_chain n (g, a, v) pom Hr Hne stack d Hd Hs)|].
  split; intros g a v pom Hr Hne.
  - apply (lookup_along_chain 4 (g, a, v) pom Hr Hne 5 4%Z); simpl; lia.
  - apply (lookup_along_chain 2 (g, a, v) pom Hr Hne 5 4%Z); simpl; lia.
Qed.

End Traversal.

(** On the cyclic registry the default budget ends the traversal. *)
Lemma lookup_license_recursively_terminates_witness :
  exists licenses,
    forall stack : nat,
      (Z.to_nat 4 < stack)%nat ->
      MavenCentralClient.lookup_license_recursively
        Examples.cyclic_registry Examples.no_github stack "org.example" "loop" "1" 4
      = Some licenses.
Proof.
  apply (lookup_license_recursively_terminates
           Examples.cyclic_registry Examples.no_github "org.example" "loop" "1" 4).
  lia.
Defined.

(** The precondition of C7 is needed: with a negative [max_depth] the
    traversal of the cyclic registry never returns. *)
Lemma lookup_negative_depth_cyclic (stack : nat) (max_depth : Z) :
  (max_depth < 0)%Z ->
  MavenCentralClient.lookup_license_recursively
    Examples.cyclic_registry Examples.no_github stack "org.example" "loop" "1" max_depth
  = None.
Proof.
  revert max_depth. induction stack as [|stack IH]; intros d Hd; [reflexivity|].
  cbn [MavenCentralClient.lookup_license_recursively].
  destruct (Z.eqb_spec d 0) as [->|_]; [lia|].
  change (MavenCentralClient.lookup_license_recursively
            Examples.cyclic_registry Examples.no_github stack
            "org.example" "loop" "1" (d - 1) = None).
  apply IH. lia.
Qed.

Lemma chain_reaches_5 :
  MavenCentralClient.reaches Examples.chain_registry Examples.no_github
    4 ("org.example", "a1", "1") Examples.pom_with_license.
Proof. repeat (econstructor; try reflexivity). Qed.

Lemma chain_reaches_3 :
  MavenCentralClient.reaches Examples.chain_registry Examples.no_github
    2 ("org.example", "a3", "1") Examples.pom_with_license.
Proof. repeat (econstructor; try reflexivity). Qed.

(** The five-link chain from a1 and the three-link chain from a3. *)
Lemma lookup_license_recursively_shallowest_witness :
  MavenCentralClient.lookup_license_recursively
    Examples.chain_registry Examples.no_github 5 "org.example" "a1" "1" 4 = Some []
  /\ MavenCentralClient.lookup_license_recursively
       Examples.chain_registry Examples.no_github 5 "org.example" "a3" "1" 4
     = Some [License.mk "MIT License" (Some "https://opensource.org/licenses/MIT")].
Proof.
  destruct (lookup_license_recursively_shallowest
              Examples.chain_registry Examples.no_github) as (_ & _ & H5 & H3).
  split.
  - apply (H5 "org.example" "a1" "1" Examples.pom_with_license);
      [repeat (econstructor; try reflexivity) | reflexivity].
  - apply (H3 "org.example" "a3" "1" Examples.pom_with_license);
      [repeat (econstructor; try reflexivity) | reflexivity].
Defined.

(** ** The license-text parser *)

Section Whitespace.

Lemma app_cons (c : ascii) (s t : string) : String c s ++ t = String c (s ++ t).
Proof. reflexivity. Qed.

Lemma app_nil (t : string) : EmptyString ++ t = t.
Proof. reflexivity. Qed.

Lemma space_not_char (c d : ascii) :
  Str.isspace c = true -> Str.isspace d = false -> Ascii.eqb d c = false.
Proof.
  intros Hc Hd. destruct (Ascii.eqb_spec d c) as [->|]; [congruence|reflexivity].
Qed.

Lemma lstrip_all_space (w : string) :
  all_space w = true -> Str.lstrip_by Str.isspace w = EmptyString.
Proof.
  induction w as [|c w IH]; simpl; [reflexivity|].
  intros [Hc Hw]%andb_prop. rewrite Hc. auto.
Qed.

Lemma rstrip_all_space (w : string) :
  all_space w = true -> Str.rstrip_by Str.isspace w = EmptyString.
Proof.
  induction w as [|c w IH]; simpl; [reflexivity|].
  intros [Hc Hw]%andb_prop. rewrite (IH Hw), Hc. reflexivity.
Qed.

Lemma lstrip_split (s : string) :
  exists w, all_space w = true /\ s = w ++ Str.lstrip_by Str.isspace s.
Proof.
  induction s as [|c s (w & Hw & IH)]; simpl.
  - exists EmptyString. split; reflexivity.
  - destruct (Str.isspace c) eqn:Hc.
    + exists (String c w). simpl. rewrite Hc, Hw. split; [reflexivity|].
      rewrite app_cons. f_equal. exact IH.
    + exists EmptyString. split; reflexivity.
Qed.

Lemma rstrip_split (s : string) :
  exists w, all_space w = true /\ s = Str.rstrip_by Str.isspace s ++ w.
Proof.
  induction s as [|c s (w & Hw & IH)]; simpl.
  - exists EmptyString. split; reflexivity.
  - destruct (Str.rstrip_by Str.isspace s) as [|d r] eqn:Hr; simpl.
    + rewrite app_nil in IH. subst w. destruct (Str.isspace c) eqn:Hc.
      * exists (String c s). simpl. rewrite Hc, Hw. split; reflexivity.
      * exists s. split; [assumption|reflexivity].
    + exists w. split; [assumption|]. rewrite app_cons. f_equal. exact IH.
Qed.

Lemma lstrip_app_space (w q : string) :
  all_space w = true ->
  Str.lstrip_by Str.isspace (w ++ q) = Str.lstrip_by Str.isspace q.
Proof.
  induction w as [|c w IH]; [reflexivity|]. rewrite app_cons. simpl.
  intros [Hc Hw]%andb_prop. rewrite Hc. auto.
Qed.

Lemma rstrip_app_space (y w : string) :
  all_space w = true ->
  Str.rstrip_by Str.isspace (y ++ w) = Str.rstrip_by Str.isspace y.
Proof.
  intros Hw. induction y as [|c y IH].
  - rewrite app_nil. now apply rstrip_all_space.
  - rewrite app_cons. simpl. rewrite IH. reflexivity.
Qed.

Lemma lstrip_app_space_r (x w : string) :
  all_space w = true ->
  exists w', all_space w' = true
             /\ Str.lstrip_by Str.isspace (x ++ w) = Str.lstrip_by Str.isspace x ++ w'.
Proof.
  intros Hw. induction x as [|c x IH].
  - exists EmptyString. split; [reflexivity|]. rewrite app_nil. now apply lstrip_all_space.
  - rewrite app_cons. simpl. destruct (Str.isspace c); [exact IH|].
    exists w. split; [assumption|reflexivity].
Qed.

Lemma strip_app_space_l (w x : string) :
  all_space w = true -> Str.strip (w ++ x) = Str.strip x.
Proof.
  intros Hw. unfold Str.strip, Str.strip_by. now rewrite lstrip_app_space.
Qed.

Lemma strip_app_space_r (x w : string) :
  all_space w = true -> Str.strip (x ++ w) = Str.strip x.
Proof.
  intros Hw. unfold Str.strip, Str.strip_by.
  destruct (lstrip_app_space_r x w Hw) as (w' & Hw' & ->).
  now apply rstrip_app_space.
Qed.

(** [s] is its trimmed text between two runs of whitespace. *)
Lemma strip_split (s : string) :
  exists w1 w2, all_space w1 = true /\ all_space w2 = true
                /\ s = w1 ++ (Str.strip s ++ w2).
Proof.
  destruct (lstrip_split s) as (w1 & H1 & E1).
  destruct (rstrip_split (Str.lstrip_by Str.isspace s)) as (w2 & H2 & E2).
  exists w1, w2. split; [assumption|]. split; [assumption|].
  unfold Str.strip, Str.strip_by. rewrite <- E2. exact E1.
Qed.

End Whitespace.

Section UrlRemoval.

Lemma url_token_space_head (c : ascii) (s : string) :
  Str.isspace c = true -> Re.url_token (String c s) = None.
Proof.
  intros Hc. unfold Re.url_token. cbn [Re.after_literal].
  rewrite (space_not_char c "h" Hc); reflexivity.
Qed.

Lemma url_token_all_space (w : string) :
  all_space w = true -> Re.url_token w = None.
Proof.
  destruct w as [|c w]; [reflexivity|]. simpl.
  intros [Hc _]%andb_prop. now apply url_token_space_head.
Qed.

Lemma remove_space_prefix (w q : string) :
  all_space w = true ->
  Re.remove Re.url_token (w ++ q) = w ++ Re.remove Re.url_token q.
Proof.
  unfold Re.remove. induction w as [|c w IH]; [reflexivity|].
  simpl all_space. intros [Hc Hw]%andb_prop.
  rewrite !app_cons. cbn [Re.remove_from].
  rewrite (url_token_space_head c _ Hc), (IH Hw). reflexivity.
Qed.

Lemma after_literal_app_space (lit s w : string) :
  no_space lit = true -> all_space w = true ->
  Re.after_literal lit (s ++ w) = option_map (fun r => r ++ w) (Re.after_literal lit s).
Proof.
  revert s. induction lit as [|a lit IH]; intros s Hl Hw; [reflexivity|].
  simpl in Hl. apply andb_prop in Hl as [Ha Hl]. apply negb_true_iff in Ha.
  destruct s as [|b s].
  - rewrite app_nil. destruct w as [|b w]; [reflexivity|].
    simpl in Hw. apply andb_prop in Hw as [Hb _].
    simpl. rewrite (space_not_char b a Hb Ha). reflexivity.
  - rewrite app_cons. simpl. destruct (Ascii.eqb a b); [|reflexivity].
    apply IH; [assumption|assumption].
Qed.

Lemma nonspace_run_app_space (s w : string) :
  all_space w = true -> Re.nonspace_run (s ++ w) = Re.nonspace_run s.
Proof.
  intros Hw. induction s as [|c s IH].
  - rewrite app_nil. destruct w as [|b w]; [reflexivity|].
    simpl in *. apply andb_prop in Hw as [-> _]. reflexivity.
  - rewrite app_cons. simpl. rewrite IH. reflexivity.
Qed.

Lemma scheme_sep_rest_app_space (s w : string) :
  all_space w = true -> Re.scheme_sep_rest (s ++ w) = Re.scheme_sep_rest s.
Proof.
  intros Hw. unfold Re.scheme_sep_rest.
  rewrite (after_literal_app_space "://" s w eq_refl Hw).
  destruct (Re.after_literal "://" s) as [r|]; simpl; [|reflexivity].
  now rewrite nonspace_run_app_space.
Qed.

Lemma url_token_app_space (s w : string) :
  all_space w = true -> Re.url_token (s ++ w) = Re.url_token s.
Proof.
  intros Hw. unfold Re.url_token.
  rewrite (after_literal_app_space "http" s w eq_refl Hw).
  destruct (Re.after_literal "http" s) as [r|]; cbn [option_map]; [|reflexivity].
  rewrite (after_literal_app_space "s" r w eq_refl Hw).
  rewrite (scheme_sep_rest_app_space r w Hw).
  destruct (Re.after_literal "s" r) as [r'|]; cbn [option_map]; [|reflexivity].
  now rewrite (scheme_sep_rest_app_space r' w Hw).
Qed.

Lemma after_literal_length (lit s r : string) :
  Re.after_literal lit s = Some r ->
  String.length s = (String.length lit + String.length r)%nat.
Proof.
  revert s. induction lit as [|a lit IH]; intros s; simpl.
  - now intros [= ->].
  - destruct s as [|b s]; [discriminate|].
    destruct (Ascii.eqb a b); [|discriminate].
    intros H. simpl. f_equal. now apply IH.
Qed.

Lemma nonspace_run_le (s : string) : (Re.nonspace_run s <= String.length s)%nat.
Proof.
  induction s as [|c s IH]; simpl; [lia|]. destruct (Str.isspace c); simpl; lia.
Qed.

Lemma scheme_sep_rest_le (s : string) (n : nat) :
  Re.scheme_sep_rest s = Some n -> (n <= String.length s)%nat.
Proof.
  unfold Re.scheme_sep_rest.
  destruct (Re.after_literal "://" s) as [r|] eqn:E; [|discriminate].
  apply after_literal_length in E. simpl in E.
  pose proof (nonspace_run_le r).
  destruct (Re.nonspace_run r); [discriminate|]. intros [= <-]. lia.
Qed.

(** A match never runs past the end of the string. *)
Lemma url_token_le (s : string) (n : nat) :
  Re.url_token s = Some n -> (n <= String.length s)%nat.
Proof.
  unfold Re.url_token.
  destruct (Re.after_literal "http" s) as [r|] eqn:E; [|discriminate].
  apply after_literal_length in E. simpl in E.
  destruct (Re.after_literal "s" r) as [r'|] eqn:E'.
  - apply after_literal_length in E'. simpl in E'.
    destruct (Re.scheme_sep_rest r') as [k|] eqn:Ek; simpl.
    + apply scheme_sep_rest_le in Ek. intros [= <-]. lia.
    + destruct (Re.scheme_sep_rest r) as [k|] eqn:Ek'; simpl; [|discriminate].
      apply scheme_sep_rest_le in Ek'. intros [= <-]. lia.
  - destruct (Re.scheme_sep_rest r) as [k|] eqn:Ek'; simpl; [|discriminate].
    apply scheme_sep_rest_le in Ek'. intros [= <-]. lia.
Qed.

Lemma remove_all_space (w : string) :
  all_space w = true -> Re.remove_from Re.url_token 0 w = w.
Proof.
  induction w as [|c w IH]; [reflexivity|]. simpl all_space.
  intros [Hc Hw]%andb_prop. cbn [Re.remove_from].
  now rewrite (url_token_space_head c _ Hc), (IH Hw).
Qed.

Lemma remove_from_app_space (s w : string) (skip : nat) :
  all_space w = true ->
  (skip <= String.length s)%nat ->
  Re.remove_from Re.url_token skip (s ++ w) = Re.remove_from Re.url_token skip s ++ w.
Proof.
  intros Hw. revert skip. induction s as [|c s IH]; intros skip Hs.
  - simpl in Hs. assert (skip = 0%nat) as -> by lia.
    rewrite app_nil. cbn [Re.remove_from]. rewrite app_nil.
    now apply remove_all_space.
  - rewrite app_cons. simpl in Hs. destruct skip as [|k]; cbn [Re.remove_from].
    + rewrite <- app_cons, (url_token_app_space (String c s) w Hw).
      destruct (Re.url_token (String c s)) as [[|k]|] eqn:E.
      * rewrite app_cons. f_equal. apply IH. lia.
      * apply url_token_le in E. simpl in E. apply IH. lia.
      * rewrite app_cons. f_equal. apply IH. lia.
    + apply IH. lia.
Qed.

Lemma remove_app_space (s w : string) :
  all_space w = true ->
  Re.remove Re.url_token (s ++ w) = Re.remove Re.url_token s ++ w.
Proof. intros Hw. apply remove_from_app_space; [assumption|lia]. Qed.

Lemma char_not_space (c d : ascii) :
  Str.isspace c = true -> Str.isspace d = false -> Ascii.eqb c d = false.
Proof.
  intros Hc Hd. destruct (Ascii.eqb_spec c d) as [->|]; [congruence|reflexivity].
Qed.

Lemma split1_space_prefix (w r : string) :
  all_space w = true ->
  Str.split1 ";" (w ++ r)
  = option_map (fun ab => (w ++ fst ab, snd ab)) (Str.split1 ";" r).
Proof.
  induction w as [|c w IH]; intros Hw.
  - rewrite app_nil. destruct (Str.split1 ";" r) as [[a b]|]; reflexivity.
  - simpl in Hw. apply andb_prop in Hw as [Hc Hw].
    rewrite app_cons. cbn [Str.split1].
    rewrite (char_not_space c ";" Hc eq_refl), (IH Hw).
    destruct (Str.split1 ";" r) as [[a b]|]; reflexivity.
Qed.

Lemma before_semicolon_space_prefix (w r : string) :
  all_space w = true ->
  SyftOutputParser.before_semicolon (w ++ r)
  = w ++ SyftOutputParser.before_semicolon r.
Proof.
  intros Hw. unfold SyftOutputParser.before_semicolon.
  rewrite (split1_space_prefix w r Hw).
  destruct (Str.split1 ";" r) as [[a b]|]; reflexivity.
Qed.

Lemma split1_all_space (w : string) :
  all_space w = true -> Str.split1 ";" w = None.
Proof.
  induction w as [|c w IH]; [reflexivity|]. simpl all_space.
  intros [Hc Hw]%andb_prop. cbn [Str.split1].
  now rewrite (char_not_space c ";" Hc eq_refl), (IH Hw).
Qed.

Lemma split1_app_space (x w : string) :
  all_space w = true ->
  Str.split1 ";" (x ++ w)
  = option_map (fun ab => (fst ab, snd ab ++ w)) (Str.split1 ";" x).
Proof.
  intros Hw. induction x as [|c x IH].
  - rewrite app_nil. now apply split1_all_space.
  - rewrite app_cons. cbn [Str.split1]. destruct (Ascii.eqb c ";"); [reflexivity|].
    rewrite IH. destruct (Str.split1 ";" x) as [[a b]|]; reflexivity.
Qed.

(** Whitespace after a fragment does not change its cleaned name. *)
Lemma clean_fragment_app_space (x w : string) :
  all_space w = true -> clean_fragment (x ++ w) = clean_fragment x.
Proof.
  intros Hw. unfold clean_fragment, SyftOutputParser.before_semicolon.
  rewrite (remove_app_space x w Hw), (split1_app_space _ w Hw).
  destruct (Str.split1 ";" (Re.remove Re.url_token x)) as [[a b]|]; simpl.
  - reflexivity.
  - now apply strip_app_space_r.
Qed.

(** Whitespace before a fragment does not change its cleaned name. *)
Lemma clean_fragment_space_app (w x : string) :
  all_space w = true -> clean_fragment (w ++ x) = clean_fragment x.
Proof.
  intros Hw. unfold clean_fragment.
  rewrite (remove_space_prefix w x Hw), (before_semicolon_space_prefix w _ Hw).
  now apply strip_app_space_l.
Qed.

(** The trim with which the loop of [_parse_license_text] starts changes
    nothing: the cleaned name is the one the three later steps give on the
    fragment as it was split. *)
Lemma clean_name_fragment (part : string) :
  SyftOutputParser.clean_name part = clean_fragment part.
Proof.
  destruct (strip_split part) as (w1 & w2 & H1 & H2 & E).
  rewrite E at 2.
  rewrite (clean_fragment_space_app w1 _ H1), (clean_fragment_app_space _ w2 H2).
  reflexivity.
Qed.

End UrlRemoval.

Lemma parse_license_text_parts (parts : list string) :
  flat_map SyftOutputParser.license_of_part parts
  = map (fun n => License.make n None)
        (List.filter Str.truthy (map clean_fragment parts)).
Proof.
  induction parts as [|part parts IH]; [reflexivity|].
  simpl. unfold SyftOutputParser.license_of_part at 1.
  rewrite clean_name_fragment, IH.
  destruct (Str.truthy (clean_fragment part)); reflexivity.
Qed.

(** C8. The empty text and the placeholder dash give no license. For any
    other text, the entries are, in order, the non-empty cleaned names of
    the fragments the comma split produces, where cleaning a fragment is
    removing its URL tokens, cutting at the first semicolon and trimming.
    The text [MIT; http://example.com/license] gives the one entry [MIT]. *)
Theorem parse_license_text_fragments :
  SyftOutputParser._parse_license_text EmptyString = []
  /\ SyftOutputParser._parse_license_text "-" = []
  /\ (forall text : string,
         text <> EmptyString -> text <> "-" ->
         SyftOutputParser._parse_license_text text
         = map (fun n => License.make n None)
               (List.filter Str.truthy
                  (map clean_fragment (Re.split Re.comma_sep text))))
  /\ SyftOutputParser._parse_license_text "MIT; http://example.com/license"
     = [License.mk "MIT" (Some "https://opensource.org/licenses/MIT")].
Proof.
  split; [reflexivity|]. split; [reflexivity|]. split; [|vm_compute; reflexivity].
  intros text Hne Hdash. unfold SyftOutputParser._parse_license_text.
  destruct text as [|c text]; [congruence|]. cbn [Str.truthy Str.is_empty negb orb].
  destruct (String.eqb_spec (String c text) "-") as [E|_]; [congruence|].
  apply parse_license_text_parts.
Qed.

(** Two fragments, each with a URL and a semicolon tail to drop. *)
Lemma parse_license_text_fragments_witness :
  SyftOutputParser._parse_license_text
    "MIT https://opensource.org/licenses/MIT ; see file, BSD-3-Clause; http://x.org, ;"
  = [License.mk "MIT" (Some "https://opensource.org/licenses/MIT");
     License.mk "BSD-3-Clause" (Some "https://opensource.org/licenses/BSD-3-Clause")].
Proof.
  destruct parse_license_text_fragments as (_ & _ & H & _).
  rewrite H; [vm_compute; reflexivity | discriminate | discriminate].
Defined.

(** A comma directly followed by the word is not a separator... *)
Lemma comma_sep_at_version (s : string) :
  Re.at_version s = true -> Re.comma_sep (String "," s) = None.
Proof.
  intros H. unfold Re.comma_sep. cbn [Ascii.eqb Bool.eqb].
  destruct s as [|c s]; [discriminate|]. cbn [Re.spaces_not_version]. rewrite H.
  destruct (Str.isspace c) eqn:Hc; [|reflexivity].
  exfalso. unfold Re.at_version in H.
  destruct (Ascii.eqb_spec c "V") as [->|_]; [discriminate|].
  destruct (Ascii.eqb_spec c "v") as [->|_]; [discriminate|].
  discriminate.
Qed.

(** ... but a comma followed by whitespace always is, whatever comes after
    the whitespace: when the lookahead fails after the whole run, the
    engine gives one whitespace character back and the lookahead, now
    facing that character, succeeds. *)
Lemma comma_sep_before_space (c : ascii) (s : string) :
  Str.isspace c = true -> exists n, Re.comma_sep (String "," (String c s)) = Some (S n).
Proof.
  intros Hc. unfold Re.comma_sep. cbn [Ascii.eqb Bool.eqb].
  cbn [Re.spaces_not_version]. rewrite Hc.
  assert (Hv : Re.at_version (String c s) = false).
  { unfold Re.at_version.
    destruct (Ascii.eqb_spec c "V") as [->|_]; [discriminate|].
    destruct (Ascii.eqb_spec c "v") as [->|_]; [discriminate|].
    reflexivity. }
  rewrite Hv. destruct (Re.spaces_not_version s); simpl; eauto.
Qed.

(** C6 (what the code does). On the text of the specification's example the
    comma before [Version] is a split point: the parser returns three
    entries. Without the space after that comma it returns two. *)
Theorem parse_license_text_splits_versioned_phrase :
  map License.name
    (SyftOutputParser._parse_license_text
       "Eclipse Public License, Version 2.0, Apache-2.0")
  = ["Eclipse Public License"; "Version 2.0"; "Apache-2.0"]
  /\ map License.name
       (SyftOutputParser._parse_license_text
          "Eclipse Public License,Version 2.0, Apache-2.0")
     = ["Eclipse Public License,Version 2.0"; "Apache-2.0"].
Proof. split; vm_compute; reflexivity. Qed.

(** ** The manifest parser *)

Lemma package_pattern_nonempty (line : string) (groups : string * string * string * string) :
  Re.package_pattern line = Some groups -> Str.truthy line = true.
Proof. destruct line; [discriminate|reflexivity]. Qed.

(** C9. For every line of the manifest that matches the pattern, whose
    name starts with [alfresco-] and whose license text is empty or the
    dash, [parse] returns the package of that line with the fixed LGPL
    entry as its license list: the list is never empty. *)
Theorem parse_alfresco_fallback (syft_output line g1 g2 g3 g4 : string) :
  In line (Re.splitlines syft_output) ->
  Re.package_pattern (Str.strip line) = Some (g1, g2, g3, g4) ->
  Str.startswith (Str.strip g1) "alfresco-" = true ->
  Str.strip g4 = EmptyString \/ Str.strip g4 = "-" ->
  let package :=
    Package.mk (Str.strip g1) (Str.strip g2) (Str.strip g3)
      [alfresco_license] "Original" in
  SyftOutputParser.parse_line line = Some package
  /\ In package (SyftOutputParser.parse syft_output)
  /\ Package.has_licenses package = true.
Proof.
  intros Hin Hm Hp Ht package.
  assert (Hline : SyftOutputParser.parse_line line = Some package).
  { unfold SyftOutputParser.parse_line.
    rewrite (package_pattern_nonempty _ _ Hm), Hm, Hp. cbn [negb].
    assert (Hl : SyftOutputParser._parse_license_text
                   SyftOutputParser.alfresco_license_text = [alfresco_license])
      by (vm_compute; reflexivity).
    destruct Ht as [-> | ->]; cbn [Str.truthy Str.is_empty negb orb andb];
      [|change (String.eqb "-" "-") with true; cbn [orb]]; now rewrite Hl. }
  split; [exact Hline|]. split; [|reflexivity].
  unfold SyftOutputParser.parse. apply list_elem_of_In, list_elem_of_omap.
  exists line. split; [now apply list_elem_of_In|exact Hline].
Qed.

(** A manifest of three lines: a vendor package without license text, a
    package with one, and a vendor package with the dash. *)
Lemma parse_alfresco_fallback_witness :
  SyftOutputParser.parse Examples.manifest
  = [ Package.mk "alfresco-core" "23.1.0"
        "pkg:maven/org.alfresco/alfresco-core@23.1.0" [alfresco_license] "Original";
      Package.mk "guava" "33.0" "pkg:maven/com.google.guava/guava@33.0"
        [License.mk "Apache-2.0" (Some "https://www.apache.org/licenses/LICENSE-2.0.txt")]
        "Original";
      Package.mk "alfresco-data-model" "1.0" EmptyString [alfresco_license] "Original" ]
  /\ In (Package.mk "alfresco-data-model" "1.0" EmptyString [alfresco_license] "Original")
        (SyftOutputParser.parse Examples.manifest).
Proof.
  split; [vm_compute; reflexivity|].
  apply (parse_alfresco_fallback Examples.manifest "alfresco-data-model : 1.0 : - -"
           "alfresco-data-model " " 1.0 " EmptyString "-");
    [vm_compute; auto | vm_compute; reflexivity | vm_compute; reflexivity
    | right; reflexivity].
Defined.

(** ** The enricher *)

Lemma split1_Some (sep : ascii) (s a b : string) :
  Str.split1 sep s = Some (a, b) <->
  s = a ++ String sep b /\ has_char sep a = false.
Proof.
  revert a. induction s as [|c s IH]; intros a; cbn [Str.split1].
  - split; [discriminate|]. intros [E _]. destruct a; discriminate.
  - destruct (Ascii.eqb_spec c sep) as [->|Hne].
    + split.
      * intros [= <- <-]. split; reflexivity.
      * intros [E Ha]. destruct a as [|d a].
        -- rewrite app_nil in E. now injection E as ->.
        -- rewrite app_cons in E. injection E as <- _. simpl in Ha.
           rewrite Ascii.eqb_refl in Ha. discriminate.
    + destruct (Str.split1 sep s) as [[a' b']|] eqn:E.
      * split.
        -- intros [= <- <-]. destruct (proj1 (IH a') eq_refl) as [-> Ha].
           split; [reflexivity|]. simpl. rewrite Ha.
           now destruct (Ascii.eqb_spec c sep).
        -- intros [Es Ha]. destruct a as [|d a].
           ++ rewrite app_nil in Es. injection Es as -> _. congruence.
           ++ rewrite app_cons in Es. injection Es as <- Es. simpl in Ha.
              apply orb_false_elim in Ha as [_ Ha].
              pose proof (proj2 (IH a) (conj Es Ha)) as Hab.
              injection Hab as -> ->. reflexivity.
      * split; [discriminate|]. intros [Es Ha]. destruct a as [|d a].
        -- rewrite app_nil in Es. injection Es as -> _. congruence.
        -- rewrite app_cons in Es. injection Es as <- Es. simpl in Ha.
           apply orb_false_elim in Ha as [_ Ha].
           pose proof (proj2 (IH a) (conj Es Ha)). discriminate.
Qed.

Lemma split1_None (sep : ascii) (s : string) :
  Str.split1 sep s = None <-> has_char sep s = false.
Proof.
  induction s as [|c s IH]; cbn [Str.split1 has_char]; [tauto|].
  destruct (Ascii.eqb c sep); simpl; [split; discriminate|].
  destruct (Str.split1 sep s) as [[a b]|]; [|tauto].
  split; [discriminate|]. intros H. apply IH in H. discriminate.
Qed.

Lemma startswith_drop (s lit : string) :
  Str.startswith s lit = true <-> s = lit ++ Re.drop (String.length lit) s.
Proof.
  unfold Str.startswith. revert s. induction lit as [|a lit IH]; intros s.
  - simpl. rewrite app_nil. destruct s; tauto.
  - destruct s as [|b s]; simpl.
    + split; [discriminate|]. rewrite app_cons. discriminate.
    + rewrite app_cons. destruct (Ascii.ascii_dec a b) as [->|Hne].
      * rewrite IH. split; [intros <-; reflexivity|]. now intros [= H].
      * split; [discriminate|]. intros [= ? _]. congruence.
Qed.

Lemma drop_app_length (lit s : string) : Re.drop (String.length lit) (lit ++ s) = s.
Proof. induction lit as [|a lit IH]; [now destruct s|]. rewrite app_cons. exact IH. Qed.

(** The purls from which coordinates are read: the tag, a group without
    [/] or [@], a slash, an artifact without [@], an [@] and the version. *)
Lemma extract_maven_coordinates_Some (purl g a v : string) :
  LicenseEnricher._extract_maven_coordinates purl = Some (g, a, v) <->
  purl = "pkg:maven/" ++ (g ++ String "/" a) ++ String "@" v
  /\ has_char "/" g = false /\ has_char "@" (g ++ String "/" a) = false.
Proof.
  unfold LicenseEnricher._extract_maven_coordinates, LicenseEnricher.coordinates_of_path,
    LicenseEnricher.split_unpack.
  split.
  - destruct (Str.startswith purl "pkg:maven/") eqn:Hp; [|discriminate].
    apply startswith_drop in Hp. cbn [negb].
    destruct (Str.split1 "@" _) as [[coordinates version]|] eqn:E1; [|discriminate].
    destruct (Str.split1 "/" coordinates) as [[group_id artifact_id]|] eqn:E2;
      [|discriminate].
    intros [= <- <- <-].
    apply split1_Some in E1 as [E1 H1]. apply split1_Some in E2 as [-> H2].
    rewrite E1 in Hp. auto.
  - intros (-> & H2 & H1).
    assert (Hp : Str.startswith ("pkg:maven/" ++ (g ++ String "/" a) ++ String "@" v)
                   "pkg:maven/" = true)
      by (apply startswith_drop; now rewrite drop_app_length).
    rewrite Hp. cbn [negb]. rewrite drop_app_length.
    rewrite (proj2 (split1_Some "@" _ (g ++ String "/" a) v) (conj eq_refl H1)).
    rewrite (proj2 (split1_Some "/" _ g a) (conj eq_refl H2)). reflexivity.
Qed.

(** A purl without [@], or without [/] before the first [@], gives no
    coordinates; the [ValueError] of the unpacking does not escape. *)
Lemma extract_maven_coordinates_unsplit (purl : string) :
  (exists e, LicenseEnricher.coordinates_of_path purl = inl e) ->
  LicenseEnricher._extract_maven_coordinates purl = None.
Proof.
  intros [e He]. unfold LicenseEnricher._extract_maven_coordinates. rewrite He.
  destruct (negb _), e; reflexivity.
Qed.

Lemma coordinates_of_path_error (purl : string) :
  (exists e, LicenseEnricher.coordinates_of_path purl = inl e) <->
  has_char "@" (Re.drop 10 purl) = false
  \/ exists coordinates version,
       Str.split1 "@" (Re.drop 10 purl) = Some (coordinates, version)
       /\ has_char "/" coordinates = false.
Proof.
  unfold LicenseEnricher.coordinates_of_path, LicenseEnricher.split_unpack.
  change (String.length "pkg:maven/") with 10%nat.
  destruct (Str.split1 "@" (Re.drop 10 purl)) as [[coordinates version]|] eqn:E1.
  - destruct (Str.split1 "/" coordinates) as [[group_id artifact_id]|] eqn:E2.
    + split; [intros [e He]; discriminate|].
      intros [H | (c & v & [= <- <-] & H)].
      * apply split1_None in H. congruence.
      * apply split1_None in H. congruence.
    + split; [|eauto]. intros _. right. exists coordinates, version.
      split; [reflexivity|]. now apply split1_None.
  - split; [|eauto]. intros _. left. now apply split1_None.
Qed.

Lemma has_char_app (c : ascii) (s t : string) :
  has_char c (s ++ t) = has_char c s || has_char c t.
Proof.
  induction s as [|d s IH]; [reflexivity|]. rewrite app_cons. simpl.
  now rewrite IH, orb_assoc.
Qed.

Lemma has_char_here (c : ascii) (s : string) : has_char c (String c s) = true.
Proof. simpl. now rewrite Ascii.eqb_refl. Qed.

(** A purl without [@], or without [/] after the tag, has no coordinates. *)
Lemma extract_maven_coordinates_missing (purl : string) :
  has_char "@" purl = false \/ has_char "/" (Re.drop 10 purl) = false ->
  LicenseEnricher._extract_maven_coordinates purl = None.
Proof.
  intros H.
  destruct (LicenseEnricher._extract_maven_coordinates purl) as [[[g a] v]|] eqn:E;
    [|reflexivity].
  apply extract_maven_coordinates_Some in E as (-> & _ & _). exfalso.
  destruct H as [H|H].
  - rewrite !has_char_app, has_char_here, !orb_true_r in H. discriminate.
  - rewrite (drop_app_length "pkg:maven/") in H.
    rewrite !has_char_app, has_char_here, !orb_true_r in H. discriminate.
Qed.

Section Enrichment.

Variable fetch_pom : string -> string -> string -> option ET.Element.
Variable get_license_from_repo_url : string -> list License.t.

Abbreviation lookup_package :=
  (LicenseEnricher._lookup_package_licenses fetch_pom get_license_from_repo_url).
Abbreviation lookup_default :=
  (LicenseEnricher.lookup_license_default fetch_pom get_license_from_repo_url).
Abbreviation enrich_one :=
  (LicenseEnricher.enrich_one fetch_pom get_license_from_repo_url).
Abbreviation enrich_packages :=
  (LicenseEnricher.enrich_packages fetch_pom get_license_from_repo_url).
Abbreviation enriched_pkg := (enriched fetch_pom get_license_from_repo_url).
Abbreviation enriched_at := (enriched_at fetch_pom get_license_from_repo_url).

(** The default-depth call never runs out of its five nested calls. *)
Lemma lookup_license_default_total (group_id artifact_id version : string) :
  MavenCentralClient.lookup_license_recursively fetch_pom get_license_from_repo_url
    5 group_id artifact_id version MavenCentralClient.default_max_depth
  = Some (lookup_default group_id artifact_id version).
Proof.
  unfold LicenseEnricher.lookup_license_default.
  destruct (lookup_returns fetch_pom get_license_from_repo_url
              5 group_id artifact_id version MavenCentralClient.default_max_depth)
    as [licenses ->]; unfold MavenCentralClient.default_max_depth;
    [lia | simpl; lia | reflexivity].
Qed.

(** C4. The calls [_lookup_package_licenses] makes, in order: Maven Central
    is called only on coordinates read off a purl with the Maven tag that
    splits at [@] and [/]; a purl that fails to split (the unpacking raises
    [ValueError], as it does when the [@] or the [/] is missing) raises
    nothing and sends the package to the heuristics alone; the heuristics
    are called exactly when there are no coordinates or Maven Central
    returned nothing, and no call follows them. *)
Theorem lookup_package_licenses_calls (package : Package.t) :
  let purl := Package.purl package in
  let calls := fst (lookup_package package) in
  let licenses := snd (lookup_package package) in
  (forall g a v,
      In (LicenseEnricher.MavenCentral g a v) calls ->
      purl = "pkg:maven/" ++ (g ++ String "/" a) ++ String "@" v
      /\ has_char "/" g = false /\ has_char "@" (g ++ String "/" a) = false)
  /\ ((exists e, LicenseEnricher.coordinates_of_path purl = inl e)
      \/ has_char "@" purl = false \/ has_char "/" (Re.drop 10 purl) = false ->
      LicenseEnricher._extract_maven_coordinates purl = None
      /\ calls = [LicenseEnricher.Heuristics package])
  /\ (forall q, In (LicenseEnricher.Heuristics q) calls <->
        q = package
        /\ (LicenseEnricher._extract_maven_coordinates purl = None
            \/ exists g a v,
                 LicenseEnricher._extract_maven_coordinates purl = Some (g, a, v)
                 /\ lookup_default g a v = []))
  /\ (forall q before after,
        calls = (before ++ LicenseEnricher.Heuristics q :: after)%list -> after = [])
  /\ (licenses = PackageHeuristics.apply_heuristics package
      \/ exists g a v,
           LicenseEnricher._extract_maven_coordinates purl = Some (g, a, v)
           /\ licenses = lookup_default g a v /\ nonempty licenses = true).
Proof.
  cbv zeta. unfold LicenseEnricher._lookup_package_licenses.
  destruct (LicenseEnricher._extract_maven_coordinates (Package.purl package))
    as [[[g a] v]|] eqn:E.
  - destruct (nonempty (lookup_default g a v)) eqn:Hn; cbn [fst snd].
    + split; [|split; [|split; [|split]]].
      * intros g' a' v' [[= <- <- <-]|[]]. now apply extract_maven_coordinates_Some.
      * intros [He|He];
          [apply extract_maven_coordinates_unsplit in He
          |apply extract_maven_coordinates_missing in He]; congruence.
      * intros q. split; [intros [[=]|[]]|].
        intros (_ & [[=] | (g' & a' & v' & [= <- <- <-] & Hl)]).
        rewrite Hl in Hn. discriminate.
      * intros q [|c before] after; cbn [app]; [discriminate|].
        intros [= _ H]. now destruct before.
      * right. exists g, a, v. auto.
    + apply nonempty_nil_iff in Hn.
      split; [|split; [|split; [|split]]].
      * intros g' a' v' [[= <- <- <-]|[[=]|[]]].
        now apply extract_maven_coordinates_Some.
      * intros [He|He];
          [apply extract_maven_coordinates_unsplit in He
          |apply extract_maven_coordinates_missing in He]; congruence.
      * intros q. split.
        -- intros [[=]|[[= <-]|[]]]. split; [reflexivity|]. right. exists g, a, v. auto.
        -- intros (-> & _). right. now left.
      * intros q [|c [|c' before]] after; cbn [app]; [discriminate| |].
        -- now intros [= _ _ <-].
        -- intros [= _ _ H]. now destruct before.
      * now left.
  - cbn [fst snd]. split; [|split; [|split; [|split]]].
    + intros g a v [[=]|[]].
    + intros _. split; reflexivity.
    + intros q. split.
      * intros [[= <-]|[]]. split; [reflexivity|now left].
      * intros (-> & _). now left.
    + intros q [|c before] after; cbn [app].
      * now intros [= _ <-].
      * intros [= _ H]. now destruct before.
    + now left.
Qed.

Lemma apply_heuristics_ext (p q : Package.t) :
  Package.name p = Package.name q -> Package.purl p = Package.purl q ->
  PackageHeuristics.apply_heuristics p = PackageHeuristics.apply_heuristics q.
Proof.
  intros Hn Hp. unfold PackageHeuristics.apply_heuristics, PackageHeuristics.HEURISTIC_RULES.
  cbn [PackageHeuristics.apply_rules PackageHeuristics.conditions existsb
       PackageHeuristics.license].
  rewrite Hn, Hp. reflexivity.
Qed.

(** The lookup reads the name and the purl of the package only. *)
Lemma lookup_package_ext (p q : Package.t) :
  Package.name p = Package.name q -> Package.purl p = Package.purl q ->
  snd (lookup_package p) = snd (lookup_package q).
Proof.
  intros Hn Hp. unfold LicenseEnricher._lookup_package_licenses. rewrite Hp.
  rewrite (apply_heuristics_ext p q Hn Hp).
  destruct (LicenseEnricher._extract_maven_coordinates (Package.purl q))
    as [[[g a] v]|]; [|reflexivity].
  destruct (nonempty (lookup_default g a v)); reflexivity.
Qed.

Lemma enriched_name (p : Package.t) : Package.name (enriched_pkg p) = Package.name p.
Proof. unfold enriched. now destruct (nonempty _). Qed.

Lemma enriched_purl (p : Package.t) : Package.purl (enriched_pkg p) = Package.purl p.
Proof. unfold enriched. now destruct (nonempty _). Qed.

Lemma enriched_version (p : Package.t) :
  Package.version (enriched_pkg p) = Package.version p.
Proof. unfold enriched. now destruct (nonempty _). Qed.

Lemma enrich_one_step (h hk : LicenseEnricher.heap)
    (done : list LicenseEnricher.loc) (l0 : LicenseEnricher.loc) :
  enriched_at h done hk -> enriched_at h (done ++ [l0])%list (enrich_one hk l0).
Proof.
  intros Hinv.
  assert (Hcur : hk !! l0 = h !! l0 \/ hk !! l0 = enriched_pkg <$> h !! l0).
  { destruct (in_dec Nat.eq_dec l0 done) as [Hin|Hout].
    - right. now apply Hinv.
    - left. now apply Hinv. }
  assert (Hgoal : enrich_one hk l0 !! l0 = enriched_pkg <$> h !! l0
                  /\ forall l, l <> l0 -> enrich_one hk l0 !! l = hk !! l).
  { unfold LicenseEnricher.enrich_one.
    destruct (h !! l0) as [p0|] eqn:Hh.
    - assert (Hpk : exists pk, hk !! l0 = Some pk
                      /\ Package.name pk = Package.name p0
                      /\ Package.purl pk = Package.purl p0
                      /\ Package.version pk = Package.version p0
                      /\ (pk = p0 \/ pk = enriched_pkg p0)).
      { destruct Hcur as [-> | ->]; simpl; eexists; (split; [reflexivity|]).
        - auto.
        - rewrite enriched_name, enriched_purl, enriched_version. auto. }
      destruct Hpk as (pk & Hk & Hn & Hp & Hv & Hor). rewrite Hk.
      rewrite (lookup_package_ext pk p0 Hn Hp).
      destruct (nonempty (snd (lookup_package p0))) eqn:Hne.
      + split; [|intros l Hl; now apply lookup_insert_ne].
        rewrite lookup_insert_eq. simpl. f_equal.
        unfold enriched. rewrite Hne.
        unfold Package.set_license_source, Package.set_licenses. cbn.
        now rewrite Hn, Hp, Hv.
      + split; [|reflexivity]. rewrite Hk. simpl. f_equal.
        destruct Hor as [-> | ->]; unfold enriched; now rewrite Hne.
    - assert (Hk : hk !! l0 = None) by (destruct Hcur as [-> | ->]; reflexivity).
      rewrite Hk. split; [exact Hk|reflexivity]. }
  destruct Hgoal as [H0 Hother].
  intros l. split.
  - intros [Hin | [<- | []]]%in_app_or.
    + destruct (Nat.eq_dec l l0) as [->|Hne]; [exact H0|].
      rewrite (Hother l Hne). now apply Hinv.
    + exact H0.
  - intros Hout. assert (l <> l0) by (intros ->; apply Hout, in_or_app; right; now left).
    rewrite (Hother l) by assumption. apply Hinv.
    intros Hin. apply Hout, in_or_app. now left.
Qed.

Lemma enrich_fold (h : LicenseEnricher.heap) (todo done : list LicenseEnricher.loc)
    (hk : LicenseEnricher.heap) :
  enriched_at h done hk ->
  enriched_at h (done ++ todo)%list (fold_left enrich_one todo hk).
Proof.
  revert done hk. induction todo as [|l0 todo IH]; intros done hk Hinv; simpl.
  - now rewrite app_nil_r.
  - replace (done ++ l0 :: todo)%list with ((done ++ [l0]) ++ todo)%list
      by (now rewrite <- app_assoc).
    apply IH. now apply enrich_one_step.
Qed.

Lemma enrich_packages_heap (h : LicenseEnricher.heap) (packages : list LicenseEnricher.loc) :
  enriched_at h (List.filter (LicenseEnricher.lacks_licenses h) packages)
    (fst (enrich_packages h packages)).
Proof.
  unfold LicenseEnricher.enrich_packages.
  destruct (List.filter (LicenseEnricher.lacks_licenses h) packages) as [|l0 todo] eqn:E;
    cbn [nonempty negb fst].
  - intros l. split; [intros []|reflexivity].
  - apply (enrich_fold h (l0 :: todo) [] h). intros l. split; [intros []|reflexivity].
Qed.

(** C3. [enrich_packages] returns the list it was given. In the heap after
    the call, an object that entered with licenses is unchanged, as is every
    object that is not in the list; an object of the list that entered
    without licenses has its licenses replaced and its source set to the
    enrichment marker if the lookup returned something, and is unchanged if
    the lookup returned nothing. *)
Theorem enrich_packages_frame (h : LicenseEnricher.heap)
    (packages : list LicenseEnricher.loc) :
  let h' := fst (enrich_packages h packages) in
  snd (enrich_packages h packages) = packages
  /\ (forall l pkg,
        h !! l = Some pkg -> Package.has_licenses pkg = true -> h' !! l = Some pkg)
  /\ (forall l, ~ In l packages -> h' !! l = h !! l)
  /\ (forall l pkg,
        In l packages -> h !! l = Some pkg -> Package.has_licenses pkg = false ->
        let licenses := snd (lookup_package pkg) in
        (nonempty licenses = true ->
         h' !! l = Some (Package.mk (Package.name pkg) (Package.version pkg)
                           (Package.purl pkg) licenses LicenseEnricher.enriched_source))
        /\ (nonempty licenses = false -> h' !! l = Some pkg)).
Proof.
  cbv zeta. pose proof (enrich_packages_heap h packages) as Hinv.
  split; [|split; [|split]].
  - unfold LicenseEnricher.enrich_packages. now destruct (negb _).
  - intros l pkg Hl Hhas. rewrite <- Hl. apply Hinv.
    intros [_ Hlack]%filter_In. unfold LicenseEnricher.lacks_licenses in Hlack.
    rewrite Hl, Hhas in Hlack. discriminate.
  - intros l Hout. apply Hinv. intros [Hin _]%filter_In. contradiction.
  - intros l pkg Hin Hl Hhas.
    assert (Hl' : fst (enrich_packages h packages) !! l = enriched_pkg <$> h !! l).
    { apply Hinv. apply filter_In. split; [assumption|].
      unfold LicenseEnricher.lacks_licenses. now rewrite Hl, Hhas. }
    rewrite Hl', Hl. unfold enriched. simpl.
    split; intros ->; reflexivity.
Qed.

End Enrichment.

(** A purl with the Maven tag and no slash before the [@]. *)
Lemma lookup_package_licenses_calls_witness :
  fst (LicenseEnricher._lookup_package_licenses
         Examples.chain_registry Examples.no_github EnrichExamples.unsplit)
  = [LicenseEnricher.Heuristics EnrichExamples.unsplit].
Proof.
  destruct (lookup_package_licenses_calls
              Examples.chain_registry Examples.no_github EnrichExamples.unsplit)
    as (_ & H & _).
  apply H. right. right. reflexivity.
Defined.

(** A list that names the object at 1 twice. *)
Lemma enrich_packages_frame_witness :
  let h' := fst (LicenseEnricher.enrich_packages
                   Examples.chain_registry Examples.no_github
                   EnrichExamples.heap0 [0; 1; 1; 2]%nat) in
  h' !! 0%nat = Some EnrichExamples.licensed
  /\ h' !! 1%nat
     = Some (Package.mk "a3" "1" "pkg:maven/org.example/a3@1"
               [License.mk "MIT License" (Some "https://opensource.org/licenses/MIT")]
               "Maven/GitHub/Heuristic")
  /\ h' !! 2%nat = Some EnrichExamples.unsplit.
Proof.
  destruct (enrich_packages_frame Examples.chain_registry Examples.no_github
              EnrichExamples.heap0 [0; 1; 1; 2]%nat) as (_ & Hkeep & _ & Hnew).
  split; [|split].
  - apply Hkeep; [vm_compute; reflexivity | reflexivity].
  - apply (Hnew 1%nat EnrichExamples.resolvable);
      [simpl; auto | vm_compute; reflexivity | reflexivity | vm_compute; reflexivity].
  - apply (Hnew 2%nat EnrichExamples.unsplit);
      [simpl; auto | vm_compute; reflexivity | reflexivity | vm_compute; reflexivity].
Defined.


(** ** The deduplicator *)

Section FirstSeen.

Local Open Scope list_scope.

Context {A K : Type} `{EqDecision K} (key : A -> K).

Lemma filter_all (P : A -> bool) (l : list A) :
  (forall x, In x l -> P x = true) -> List.filter P l = l.
Proof.
  induction l as [|x l IH]; intros H; [reflexivity|]. simpl.
  rewrite (H x (or_introl eq_refl)). f_equal. apply IH. intros y Hy. apply H. now right.
Qed.

Lemma filter_none (P : A -> bool) (l : list A) :
  (forall x, In x l -> P x = false) -> List.filter P l = [].
Proof.
  induction l as [|x l IH]; intros H; [reflexivity|]. simpl.
  rewrite (H x (or_introl eq_refl)). apply IH. intros y Hy. apply H. now right.
Qed.

Lemma NoDup_map_filter (P : A -> bool) (l : list A) :
  NoDup (map key l) -> NoDup (map key (List.filter P l)).
Proof.
  induction l as [|x l IH]; simpl; intros Hnd; [constructor|].
  inversion Hnd as [|? ? Hx Hl]; subst.
  destruct (P x); simpl; [|now apply IH].
  constructor; [|now apply IH].
  rewrite list_elem_of_In in *.
  intros (y & Hy & [Hin _]%filter_In)%in_map_iff.
  apply Hx. apply in_map_iff. eauto.
Qed.

Lemma first_seen_In (x : A) (l : list A) : In x (first_seen key l) -> In x l.
Proof.
  revert x. induction l as [|y l IH]; intros x; simpl; [tauto|].
  intros [->|[Hin _]%filter_In]; [now left|right; now apply IH].
Qed.

(** The keys of [first_seen l] are those of [l]. *)
Lemma first_seen_keys (k : K) (l : list A) :
  In k (map key (first_seen key l)) <-> In k (map key l).
Proof.
  induction l as [|y l IH]; simpl; [tauto|].
  split.
  - intros [<-|(x & <- & [Hin _]%filter_In)%in_map_iff]; [now left|].
    right. apply IH. apply in_map_iff. eauto.
  - intros [<-|Hin]; [now left|].
    destruct (decide (key y = k)) as [E|Hne]; [now left|right].
    apply IH in Hin. apply in_map_iff in Hin as (x & <- & Hx).
    apply in_map_iff. exists x. split; [reflexivity|].
    apply filter_In. split; [assumption|].
    apply negb_true_iff, bool_decide_eq_false. congruence.
Qed.

Lemma first_seen_NoDup (l : list A) : NoDup (map key (first_seen key l)).
Proof.
  induction l as [|y l IH]; simpl; constructor.
  - rewrite list_elem_of_In.
    intros (x & E & [_ Hx]%filter_In)%in_map_iff.
    apply negb_true_iff, bool_decide_eq_false in Hx. congruence.
  - now apply NoDup_map_filter.
Qed.

(** One more element at the end: it is kept when its key is new. *)
Lemma first_seen_snoc (l : list A) (x : A) :
  first_seen key (l ++ [x])
  = if bool_decide (key x ∈ map key l) then first_seen key l
    else first_seen key l ++ [x].
Proof.
  induction l as [|y l IH]; [reflexivity|].
  cbn [app map first_seen].
  - rewrite IH. destruct (decide (key y = key x)) as [E|Hne].
    + rewrite (bool_decide_eq_true_2 (key x ∈ key y :: map key l))
        by (rewrite E; apply list_elem_of_here).
      case_bool_decide; [reflexivity|].
      rewrite List.filter_app. cbn [List.filter].
      rewrite (bool_decide_eq_true_2 (key x = key y)) by congruence.
      cbn [negb]. now rewrite app_nil_r.
    + case_bool_decide as Hin.
      * rewrite bool_decide_eq_true_2 by (now apply list_elem_of_further).
        reflexivity.
      * rewrite bool_decide_eq_false_2
          by (rewrite elem_of_cons; intros [?|?]; congruence).
        rewrite List.filter_app. cbn [List.filter].
        rewrite (bool_decide_eq_false_2 (key x = key y)) by congruence.
        reflexivity.
Qed.

(** A list without repeated keys is its own [first_seen]. *)
Lemma first_seen_id (l : list A) : NoDup (map key l) -> first_seen key l = l.
Proof.
  induction l as [|y l IH]; simpl; intros Hnd; [reflexivity|].
  inversion Hnd as [|? ? Hy Hl]; subst. rewrite list_elem_of_In in Hy.
  rewrite (IH Hl). f_equal.
  apply filter_all. intros x Hx. apply negb_true_iff, bool_decide_eq_false.
  intros E. apply Hy. rewrite <- E. now apply in_map.
Qed.

Lemma filter_key_singleton (l : list A) (x : A) :
  NoDup (map key l) -> In x l ->
  List.filter (fun y => bool_decide (key y = key x)) l = [x].
Proof.
  induction l as [|y l IH]; simpl; intros Hnd Hin; [contradiction|].
  inversion Hnd as [|? ? Hy Hl]; subst. rewrite list_elem_of_In in Hy.
  destruct Hin as [->|Hin].
  - rewrite bool_decide_eq_true_2 by reflexivity. f_equal.
    apply filter_none. intros z Hz. apply bool_decide_eq_false.
    intros E. apply Hy. rewrite <- E. now apply in_map.
  - rewrite bool_decide_eq_false_2; [now apply IH|].
    intros E. apply Hy. rewrite E. now apply in_map.
Qed.

End FirstSeen.

Section Dedup.

Local Open Scope list_scope.
Import PackageDeduplicator DedupInvariant.

Lemma key_eqb_decide (a b : key) : key_eqb a b = bool_decide (a = b).
Proof.
  destruct a as [a1 a2], b as [b1 b2]. unfold key_eqb. cbn [fst snd].
  destruct (String.eqb_spec a1 b1), (String.eqb_spec a2 b2); subst; cbn [andb];
    symmetry; [now apply bool_decide_eq_true_2 | apply bool_decide_eq_false_2 ..];
    congruence.
Qed.

Lemma get_app_None (k : key) (d d' : dict) :
  get k d = None -> get k (d ++ d') = get k d'.
Proof.
  induction d as [|[k' p'] d IH]; [reflexivity|]. cbn [get app].
  destruct (key_eqb k k'); [discriminate|exact IH].
Qed.

Lemma set_None (k : key) (v : Package.t) (d : dict) :
  get k d = None -> set k v d = d ++ [(k, v)].
Proof.
  induction d as [|[k' p'] d IH]; [reflexivity|]. cbn [get set app].
  destruct (key_eqb k k'); [discriminate|]. intros H. now rewrite IH.
Qed.

Lemma get_self (k : key) (v : Package.t) : get k [(k, v)] = Some v.
Proof. cbn [get]. rewrite key_eqb_decide, bool_decide_eq_true_2; reflexivity. Qed.

Lemma set_app_last (k : key) (v v0 : Package.t) (d : dict) :
  get k d = None -> set k v (d ++ [(k, v0)]) = d ++ [(k, v)].
Proof.
  induction d as [|[k' p'] d IH]; cbn [get set app].
  - rewrite key_eqb_decide, bool_decide_eq_true_2; reflexivity.
  - destruct (key_eqb k k'); [discriminate|]. intros H. now rewrite IH.
Qed.

Lemma get_entries_None (g : Package.t -> Package.t) (fm : list Package.t) (k : key) :
  ~ In k (map Package.unique_key fm) -> get k (entries g fm) = None.
Proof.
  induction fm as [|f fm IH]; [reflexivity|]. cbn [entries map get In].
  intros H. rewrite key_eqb_decide, bool_decide_eq_false_2 by (intros ->; apply H; now left).
  apply IH. tauto.
Qed.

Lemma entries_present (g : Package.t -> Package.t) (fm : list Package.t) (k : key) :
  In k (map Package.unique_key fm) -> NoDup (map Package.unique_key fm) ->
  exists f0,
    In f0 fm /\ Package.unique_key f0 = k
    /\ get k (entries g fm) = Some (g f0)
    /\ forall upd : Package.t -> Package.t,
         set k (upd (g f0)) (entries g fm)
         = entries (fun f => if bool_decide (Package.unique_key f = k)
                             then upd (g f) else g f) fm.
Proof.
  induction fm as [|f fm IH]; [intros []|]. cbn [map In].
  intros Hin Hnd. inversion Hnd as [|? ? Hf Hfm]; subst.
  rewrite list_elem_of_In in Hf.
  destruct (decide (Package.unique_key f = k)) as [E|Hne].
  - exists f. split; [now left|]. split; [exact E|].
    cbn [entries map get set]. rewrite key_eqb_decide.
    rewrite (bool_decide_eq_true_2 (k = Package.unique_key f)) by congruence.
    split; [reflexivity|]. intros upd.
    rewrite (bool_decide_eq_true_2 (Package.unique_key f = k)) by assumption.
    f_equal. apply map_ext_in. intros f' Hf'.
    rewrite bool_decide_eq_false_2; [reflexivity|].
    intros E'. apply Hf. rewrite E, <- E'. now apply in_map.
  - destruct Hin as [?|Hin]; [congruence|].
    destruct (IH Hin Hfm) as (f0 & H0 & Hk & Hget & Hset).
    exists f0. split; [now right|]. split; [exact Hk|].
    cbn [entries map get set]. rewrite key_eqb_decide.
    rewrite (bool_decide_eq_false_2 (k = Package.unique_key f)) by congruence.
    split; [exact Hget|]. intros upd.
    rewrite (bool_decide_eq_false_2 (Package.unique_key f = k)) by assumption.
    f_equal. apply Hset.
Qed.

(** The inner loop extends the union by name. *)
Lemma merge_licenses_fold (B A : list License.t) :
  fold_left merge_license B
    (first_seen License.name A,
     list_to_set (map License.name (first_seen License.name A)))
  = (first_seen License.name (A ++ B),
     list_to_set (map License.name (first_seen License.name (A ++ B)))).
Proof.
  revert A. induction B as [|b B IH]; intros A; cbn [fold_left].
  - now rewrite app_nil_r.
  - replace (A ++ b :: B) with ((A ++ [b]) ++ B) by (now rewrite <- app_assoc).
    rewrite <- IH. f_equal. unfold merge_license.
    rewrite first_seen_snoc.
    assert (Hiff : License.name b
                   ∈ (list_to_set (map License.name (first_seen License.name A))
                      : gset string)
                   <-> License.name b ∈ map License.name A).
    { rewrite elem_of_list_to_set, !list_elem_of_In. apply first_seen_keys. }
    do 2 case_bool_decide; try reflexivity; try (exfalso; tauto).
    f_equal. rewrite map_app, list_to_set_app_L. cbn [map list_to_set].
    now rewrite union_empty_r_L.
Qed.

Lemma group_of_snoc (done : list Package.t) (p f : Package.t) :
  DedupSpec.group_of (done ++ [p]) f
  = DedupSpec.group_of done f
    ++ (if bool_decide (Package.unique_key p = Package.unique_key f) then [p] else []).
Proof. unfold DedupSpec.group_of. now rewrite List.filter_app. Qed.

Lemma merged_package_other (done : list Package.t) (p f : Package.t) :
  Package.unique_key p <> Package.unique_key f ->
  DedupSpec.merged_package (done ++ [p]) f = DedupSpec.merged_package done f.
Proof.
  intros Hne. unfold DedupSpec.merged_package. rewrite group_of_snoc.
  rewrite bool_decide_eq_false_2 by assumption. now rewrite app_nil_r.
Qed.

Lemma merged_package_same (done : list Package.t) (p f : Package.t) :
  Package.unique_key p = Package.unique_key f ->
  DedupSpec.merged_package (done ++ [p]) f
  = Package.set_licenses (DedupSpec.merged_package done f)
      (first_seen License.name
         (flat_map Package.licenses (DedupSpec.group_of done f) ++ Package.licenses p)).
Proof.
  intros E. unfold DedupSpec.merged_package, Package.set_licenses, DedupSpec.union_by_name.
  cbn [Package.name Package.version Package.purl Package.license_source].
  rewrite group_of_snoc, bool_decide_eq_true_2 by assumption.
  rewrite flat_map_app. cbn [flat_map]. now rewrite app_nil_r.
Qed.

Lemma merge_package_snoc (done : list Package.t) (p : Package.t) :
  merge_package (merged_after done) p = merged_after (done ++ [p]).
Proof.
  unfold merge_package, merged_after, DedupSpec.first_members.
  rewrite first_seen_snoc.
  set (k := Package.unique_key p).
  set (fm := first_seen Package.unique_key done).
  case_bool_decide as Hin.
  - (* the key is already there *)
    rewrite list_elem_of_In in Hin.
    apply (first_seen_keys Package.unique_key) in Hin. fold fm in Hin.
    destruct (entries_present (DedupSpec.merged_package done) fm k Hin
                (first_seen_NoDup Package.unique_key done))
      as (f0 & Hf0 & Hk & Hget & Hset).
    rewrite Hget. cbn beta iota. rewrite Hget.
    cbn [Package.licenses DedupSpec.merged_package].
    unfold DedupSpec.union_by_name. rewrite merge_licenses_fold.
    rewrite (Hset (fun e => Package.set_licenses e
                              (first_seen License.name
                                 (flat_map Package.licenses (DedupSpec.group_of done f0)
                                  ++ Package.licenses p)))).
    apply map_ext_in. intros f Hf. f_equal.
    case_bool_decide as Hfk.
    + rewrite merged_package_same by (fold k; congruence).
      assert (Hg : DedupSpec.group_of done f0 = DedupSpec.group_of done f).
      { unfold DedupSpec.group_of. apply filter_ext. intros q.
        apply bool_decide_ext. split; congruence. }
      now rewrite Hg.
    + rewrite merged_package_other by (fold k; congruence). reflexivity.
  - (* a new key *)
    assert (Hout : ~ In k (map Package.unique_key fm)).
    { intros H. apply Hin. apply list_elem_of_In.
      now apply (first_seen_keys Package.unique_key). }
    pose proof (get_entries_None (DedupSpec.merged_package done) fm k Hout) as Hget.
    rewrite Hget. cbn beta iota.
    rewrite (set_None _ _ _ Hget), (get_app_None _ _ _ Hget), get_self.
    cbn [Package.licenses map list_to_set].
    pose proof (merge_licenses_fold (Package.licenses p) []) as Hfold.
    cbn [first_seen map list_to_set app] in Hfold. rewrite Hfold.
    rewrite (set_app_last _ _ _ _ Hget).
    unfold entries. rewrite map_app. cbn [map]. f_equal.
    + apply map_ext_in. intros f Hf. f_equal.
      rewrite merged_package_other; [reflexivity|].
      intros E. apply Hout. fold k in E. rewrite E. now apply in_map.
    + f_equal. f_equal. unfold DedupSpec.merged_package, Package.set_licenses.
      cbn [Package.name Package.version Package.purl Package.license_source].
      f_equal. unfold DedupSpec.union_by_name. rewrite group_of_snoc.
      rewrite bool_decide_eq_true_2 by reflexivity.
      unfold DedupSpec.group_of. rewrite (filter_none _ done).
      * cbn [app flat_map]. now rewrite app_nil_r.
      * intros q Hq. apply bool_decide_eq_false. intros E. apply Hin.
        fold k in E. rewrite <- E. apply list_elem_of_In. now apply in_map.
Qed.

Lemma merge_packages_fold (todo done : list Package.t) :
  fold_left merge_package todo (merged_after done) = merged_after (done ++ todo).
Proof.
  revert done. induction todo as [|p todo IH]; intros done; cbn [fold_left].
  - now rewrite app_nil_r.
  - rewrite merge_package_snoc, IH, <- app_assoc. reflexivity.
Qed.

(** The code computes the deduplication of the specification. *)
Lemma deduplicate_spec (packages : list Package.t) :
  deduplicate packages = DedupSpec.deduplicate packages.
Proof.
  unfold deduplicate. change (@nil (key * Package.t)) with (merged_after []).
  rewrite merge_packages_fold. cbn [app].
  unfold merged_after, entries, values, DedupSpec.deduplicate.
  rewrite map_map. reflexivity.
Qed.

End Dedup.

Section DedupProperties.

Local Open Scope list_scope.

Lemma spec_keys (packages : list Package.t) :
  map Package.unique_key (DedupSpec.deduplicate packages)
  = map Package.unique_key (DedupSpec.first_members packages).
Proof. unfold DedupSpec.deduplicate. rewrite map_map. reflexivity. Qed.

Lemma spec_keys_NoDup (packages : list Package.t) :
  NoDup (map Package.unique_key (DedupSpec.deduplicate packages)).
Proof. rewrite spec_keys. apply first_seen_NoDup. Qed.

Lemma spec_names_NoDup (packages : list Package.t) (o : Package.t) :
  In o (DedupSpec.deduplicate packages) ->
  NoDup (map License.name (Package.licenses o)).
Proof.
  unfold DedupSpec.deduplicate. intros (f & <- & _)%in_map_iff.
  apply first_seen_NoDup.
Qed.

(** A list with distinct keys and, in each package, distinct license names
    is left as it is. *)
Lemma spec_fixed (out : list Package.t) :
  NoDup (map Package.unique_key out) ->
  (forall o, In o out -> NoDup (map License.name (Package.licenses o))) ->
  DedupSpec.deduplicate out = out.
Proof.
  intros Hk Hn. unfold DedupSpec.deduplicate, DedupSpec.first_members.
  rewrite (first_seen_id _ _ Hk).
  transitivity (map (fun o : Package.t => o) out); [|apply map_id].
  apply map_ext_in. intros f Hf.
  unfold DedupSpec.merged_package, DedupSpec.union_by_name, DedupSpec.group_of.
  rewrite (filter_key_singleton Package.unique_key out f Hk Hf).
  cbn [flat_map]. rewrite app_nil_r, (first_seen_id _ _ (Hn f Hf)).
  now destruct f.
Qed.

(** C2. [deduplicate] returns one package per distinct key, in the order
    in which the keys are first seen; each carries the name, version, purl
    and license source of the first member of its group and the licenses of
    all the members, in first-seen order, one per license name. Two packages
    with one key and the licenses [a] and [b] merge into one package with
    [a; b] when the names differ, and with [a] alone when they are equal. *)
Theorem deduplicate_first_seen_union :
  (forall packages : list Package.t,
      PackageDeduplicator.deduplicate packages
      = map (DedupSpec.merged_package packages) (DedupSpec.first_members packages)
      /\ NoDup (map Package.unique_key (PackageDeduplicator.deduplicate packages))
      /\ (forall k,
            In k (map Package.unique_key (PackageDeduplicator.deduplicate packages))
            <-> In k (map Package.unique_key packages))
      /\ (forall o, In o (PackageDeduplicator.deduplicate packages) ->
                    NoDup (map License.name (Package.licenses o))))
  /\ (forall p q a b,
         Package.unique_key q = Package.unique_key p ->
         Package.licenses p = [a] -> Package.licenses q = [b] ->
         PackageDeduplicator.deduplicate [p; q]
         = [Package.mk (Package.name p) (Package.version p) (Package.purl p)
              (if bool_decide (License.name b = License.name a) then [a] else [a; b])
              (Package.license_source p)]).
Proof.
  split.
  - intros packages. split; [apply deduplicate_spec|]. rewrite deduplicate_spec.
    split; [apply spec_keys_NoDup|].
    split; [intros k; rewrite spec_keys; apply first_seen_keys|].
    apply spec_names_NoDup.
  - intros p q a b Hkey Hp Hq. rewrite deduplicate_spec.
    unfold DedupSpec.deduplicate, DedupSpec.first_members, DedupSpec.merged_package,
      DedupSpec.union_by_name, DedupSpec.group_of.
    cbn [first_seen List.filter map].
    rewrite (bool_decide_eq_true_2 _ Hkey),
      (bool_decide_eq_true_2 (Package.unique_key p = Package.unique_key p) eq_refl).
    cbn [negb map flat_map List.filter]. rewrite Hp, Hq.
    cbn [app first_seen List.filter].
    now case_bool_decide.
Qed.

(** C10. Deduplicating the output of [deduplicate] returns it unchanged. *)
Theorem deduplicate_idempotent (packages : list Package.t) :
  PackageDeduplicator.deduplicate (PackageDeduplicator.deduplicate packages)
  = PackageDeduplicator.deduplicate packages.
Proof.
  rewrite !deduplicate_spec. apply spec_fixed.
  - apply spec_keys_NoDup.
  - apply spec_names_NoDup.
Qed.

End DedupProperties.

(** Two packages with one key and different purls, then a third package. *)
Lemma deduplicate_first_seen_union_witness :
  PackageDeduplicator.deduplicate
    [ Package.mk "lib" "1.0" "pkg:maven/org.a/lib@1.0" [License.mk "A" None] "Original";
      Package.mk "lib" "1.0" "pkg:maven/org.b/lib@1.0" [License.mk "B" None]
        "Maven/GitHub/Heuristic" ]
  = [ Package.mk "lib" "1.0" "pkg:maven/org.a/lib@1.0"
        [License.mk "A" None; License.mk "B" None] "Original" ]
  /\ PackageDeduplicator.deduplicate
       [ Package.mk "lib" "1.0" "pkg:maven/org.a/lib@1.0" [License.mk "A" None] "Original";
         Package.mk "lib" "1.0" "pkg:maven/org.b/lib@1.0"
           [License.mk "A" (Some "https://example.org/a")] "Original" ]
     = [ Package.mk "lib" "1.0" "pkg:maven/org.a/lib@1.0" [License.mk "A" None]
           "Original" ].
Proof.
  split.
  - destruct deduplicate_first_seen_union as [_ H].
    apply (H (Package.mk "lib" "1.0" "pkg:maven/org.a/lib@1.0" [License.mk "A" None]
                "Original")
             (Package.mk "lib" "1.0" "pkg:maven/org.b/lib@1.0" [License.mk "B" None]
                "Maven/GitHub/Heuristic")
             (License.mk "A" None) (License.mk "B" None)); reflexivity.
  - destruct deduplicate_first_seen_union as [_ H].
    apply (H (Package.mk "lib" "1.0" "pkg:maven/org.a/lib@1.0" [License.mk "A" None]
                "Original")
             (Package.mk "lib" "1.0" "pkg:maven/org.b/lib@1.0"
                [License.mk "A" (Some "https://example.org/a")] "Original")
             (License.mk "A" None) (License.mk "A" (Some "https://example.org/a")));
      reflexivity.
Defined.

(** * Further properties *)

(** ** The canonicalizer *)

Lemma table_entries_found :
  forallb table_entry_found LicenseMapper._LICENSE_URLS = true.
Proof. vm_compute. reflexivity. Qed.

(** X1. A name whose normalization is a key of the exact table gets the URL
    of that key, whatever the heuristics would say of it. *)
Theorem get_url_exact_table (license_name context k v : string) :
  In (k, v) LicenseMapper._LICENSE_URLS ->
  LicenseMapper.normalize license_name = k ->
  LicenseMapper.get_url license_name context = Some v.
Proof.
  intros Hin Hk. unfold LicenseMapper.get_url. rewrite Hk.
  pose proof table_entries_found as Hall.
  rewrite forallb_forall in Hall. specialize (Hall _ Hin).
  unfold table_entry_found in Hall. cbn [fst snd] in Hall.
  destruct (Str.dict_get k LicenseMapper._LICENSE_URLS) as [v'|]; [|discriminate].
  apply String.eqb_eq in Hall. now subst.
Qed.

(** A long-form name in capitals and quotes, which no heuristic matches. *)
Lemma get_url_exact_table_witness :
  LicenseMapper.get_url
    (String Str.dquote "GNU General Public License v2" ++ String Str.dquote "  ")
    EmptyString
  = Some "https://www.gnu.org/licenses/old-licenses/gpl-2.0.txt"
  /\ LicenseMapper._apply_heuristics "gnu general public license v2" EmptyString
     = None.
Proof.
  split; [|vm_compute; reflexivity].
  apply (get_url_exact_table _ EmptyString "gnu general public license v2");
    [vm_compute; tauto | vm_compute; reflexivity].
Defined.

Lemma url_of_in_table (k u : string) :
  LicenseMapper.url_of k = Some u -> In u (map snd LicenseMapper._LICENSE_URLS).
Proof.
  unfold LicenseMapper.url_of. intros H%dict_get_In.
  apply in_map_iff. exists (k, u). auto.
Qed.

(** X2. Every URL [get_url] returns is a URL of the table. *)
Theorem get_url_in_table (license_name context u : string) :
  LicenseMapper.get_url license_name context = Some u ->
  In u (map snd LicenseMapper._LICENSE_URLS).
Proof.
  unfold LicenseMapper.get_url.
  destruct (Str.dict_get _ _) as [v|] eqn:E.
  - intros [= <-]. apply dict_get_In in E. apply in_map_iff.
    exists (LicenseMapper.normalize license_name, v). auto.
  - unfold LicenseMapper._apply_heuristics.
    repeat match goal with
           | |- (if ?b then _ else _) = Some _ -> _ => destruct b
           end;
      try discriminate; apply url_of_in_table.
Qed.

Lemma get_url_in_table_witness :
  In "https://www.eclipse.org/legal/epl-v10.html" (map snd LicenseMapper._LICENSE_URLS).
Proof.
  apply (get_url_in_table "Eclipse Distribution" "Maven POM"). vm_compute. reflexivity.
Defined.

Lemma lgpl_entries_ok : forallb lgpl_entry_ok LicenseMapper._LICENSE_URLS = true.
Proof. vm_compute. reflexivity. Qed.

(** X3. A name that mentions [lgpl] or [lesser] is never given a GPL URL,
    though it contains [gpl]: the LGPL rule is tried before the GPL rule,
    and no exact entry says otherwise. *)
Theorem get_url_lgpl_not_gpl (license_name context u : string) :
  Str.contains "lgpl" (LicenseMapper.normalize license_name) = true
  \/ Str.contains "lesser" (LicenseMapper.normalize license_name) = true ->
  LicenseMapper.get_url license_name context = Some u ->
  ~ In u gpl_urls.
Proof.
  intros Hl. unfold LicenseMapper.get_url.
  assert (Hor : Str.contains "lgpl" (LicenseMapper.normalize license_name)
                || Str.contains "lesser" (LicenseMapper.normalize license_name) = true)
    by (destruct Hl as [-> | ->]; [reflexivity|apply orb_true_r]).
  destruct (Str.dict_get _ _) as [v|] eqn:E.
  - intros [= <-]. apply dict_get_In in E.
    pose proof lgpl_entries_ok as Hall.
    rewrite forallb_forall in Hall. specialize (Hall _ E).
    unfold lgpl_entry_ok in Hall. cbn [fst snd] in Hall. rewrite Hor in Hall.
    cbn [implb] in Hall. apply negb_true_iff in Hall.
    intros Hin. apply (In_nth_error) in Hin as [i Hi].
    assert (Hex : existsb (String.eqb v) gpl_urls = true).
    { apply existsb_exists. exists v. split; [now apply nth_error_In in Hi|].
      apply String.eqb_refl. }
    congruence.
  - unfold LicenseMapper._apply_heuristics. rewrite Hor.
    repeat match goal with
           | |- (if ?b then _ else _) = Some _ -> _ => destruct b
           end;
      intros [= <-]; vm_compute; intuition discriminate.
Qed.

Lemma get_url_lgpl_not_gpl_witness :
  LicenseMapper.get_url "GNU Lesser GPL, version 3" EmptyString
  = Some "https://www.gnu.org/licenses/lgpl-3.0.html"
  /\ ~ In "https://www.gnu.org/licenses/lgpl-3.0.html" gpl_urls.
Proof.
  split; [vm_compute; reflexivity|].
  apply (get_url_lgpl_not_gpl "GNU Lesser GPL, version 3" EmptyString);
    [right; vm_compute; reflexivity | vm_compute; reflexivity].
Defined.

(** ** The parent-POM traversal, continued *)

Section TraversalBudget.

Variable fetch_pom : string -> string -> string -> option ET.Element.
Variable get_license_from_repo_url : string -> list License.t.

(** X4. A non-empty result of the traversal is the license data of one
    descriptor of the parent chain: it lies fewer than [max_depth] links
    up, and every descriptor below it was fetched and had no data. *)
Theorem lookup_result_source (stack : nat) (group_id artifact_id version : string)
    (max_depth : Z) (licenses : list License.t) :
  (0 <= max_depth)%Z ->
  MavenCentralClient.lookup_license_recursively fetch_pom get_license_from_repo_url
    stack group_id artifact_id version max_depth = Some licenses ->
  nonempty licenses = true ->
  exists n pom,
    MavenCentralClient.reaches fetch_pom get_license_from_repo_url
      n (group_id, artifact_id, version) pom
    /\ (Z.of_nat n < max_depth)%Z
    /\ licenses
       = MavenCentralClient.extract_licenses_from_pom get_license_from_repo_url pom.
Proof.
  intros Hd Hl Hne.
  destruct (lookup_nonempty_inv fetch_pom get_license_from_repo_url stack
              group_id artifact_id version max_depth licenses Hd Hl Hne)
    as (n & pom & Hr & Hn & E).
  exists n, pom. auto.
Qed.


End TraversalBudget.

Lemma lookup_result_source_witness :
  exists n pom,
    MavenCentralClient.reaches Examples.chain_registry Examples.no_github
      n ("org.example", "a3", "1") pom
    /\ (Z.of_nat n < 3)%Z
    /\ [License.mk "MIT License" (Some "https://opensource.org/licenses/MIT")]
       = MavenCentralClient.extract_licenses_from_pom Examples.no_github pom.
Proof.
  apply (lookup_result_source Examples.chain_registry Examples.no_github
           4 "org.example" "a3" "1" 3);
    [lia | reflexivity | reflexivity].
Defined.


(** ** The coordinates of a purl *)

(** X6. Coordinates round trip: the purl built from the tag, a group, a
    slash, an artifact, an [@] and a version is read back as that triple,
    provided the group has neither [/] nor [@] and the artifact has no [@];
    and every triple that is read reassembles the purl. Whatever follows
    the first [@], qualifiers included, is the version. *)
Theorem extract_maven_coordinates_roundtrip :
  (forall g a v : string,
      has_char "/" g = false -> has_char "@" g = false -> has_char "@" a = false ->
      LicenseEnricher._extract_maven_coordinates
        ("pkg:maven/" ++ (g ++ String "/" a) ++ String "@" v) = Some (g, a, v))
  /\ (forall purl g a v : string,
         LicenseEnricher._extract_maven_coordinates purl = Some (g, a, v) ->
         purl = "pkg:maven/" ++ (g ++ String "/" a) ++ String "@" v
         /\ has_char "/" g = false /\ has_char "@" g = false /\ has_char "@" a = false).
Proof.
  split.
  - intros g a v Hg Hg' Ha. apply extract_maven_coordinates_Some.
    split; [reflexivity|]. split; [assumption|].
    rewrite has_char_app. cbn [has_char]. rewrite Hg', Ha. reflexivity.
  - intros purl g a v H. apply extract_maven_coordinates_Some in H as (E & Hg & Hga).
    rewrite has_char_app in Hga. cbn [has_char] in Hga.
    apply orb_false_elim in Hga as [Hg' Hga]. apply orb_false_elim in Hga as [_ Ha].
    auto.
Qed.

(** A purl with a qualifier: it stays in the version. *)
Lemma extract_maven_coordinates_roundtrip_witness :
  LicenseEnricher._extract_maven_coordinates
    "pkg:maven/org.apache.commons/commons-lang3@3.12.0?type=jar"
  = Some ("org.apache.commons", "commons-lang3", "3.12.0?type=jar").
Proof.
  destruct extract_maven_coordinates_roundtrip as [H _].
  apply (H "org.apache.commons" "commons-lang3" "3.12.0?type=jar"); reflexivity.
Defined.

(** ** The enricher, continued *)

Section EnrichmentCoverage.

Variable fetch_pom : string -> string -> string -> option ET.Element.
Variable get_license_from_repo_url : string -> list License.t.

Lemma nonempty_has_licenses (p : Package.t) :
  Package.has_licenses p = nonempty (Package.licenses p).
Proof. unfold Package.has_licenses. now destruct (Package.licenses p). Qed.

(** X7. [enrich_packages] only adds: every object keeps its name, version
    and purl; an object that had licenses still has them; and an object that
    differs after the call is an object of the list that had no license,
    now has some, and carries the enrichment marker. *)
Theorem enrich_packages_only_adds (h : LicenseEnricher.heap)
    (packages : list LicenseEnricher.loc) (l : LicenseEnricher.loc) (p : Package.t) :
  h !! l = Some p ->
  exists p',
    fst (LicenseEnricher.enrich_packages fetch_pom get_license_from_repo_url
           h packages) !! l = Some p'
    /\ Package.name p' = Package.name p
    /\ Package.version p' = Package.version p
    /\ Package.purl p' = Package.purl p
    /\ (Package.has_licenses p = true -> Package.has_licenses p' = true)
    /\ (p' <> p ->
        In l packages
        /\ Package.has_licenses p = false
        /\ Package.has_licenses p' = true
        /\ Package.license_source p' = LicenseEnricher.enriched_source).
Proof.
  intros Hl.
  pose proof (enrich_packages_heap fetch_pom get_license_from_repo_url h packages l)
    as [Hin Hout].
  destruct (in_dec Nat.eq_dec l
              (List.filter (LicenseEnricher.lacks_licenses h) packages)) as [Hf|Hf].
  - rewrite (Hin Hf), Hl. cbn [fmap option_fmap option_map].
    apply filter_In in Hf as [Hp Hlack].
    unfold LicenseEnricher.lacks_licenses in Hlack. rewrite Hl in Hlack.
    apply negb_true_iff in Hlack.
    eexists. split; [reflexivity|]. unfold enriched.
    destruct (nonempty _) eqn:Hne.
    + cbn [Package.name Package.version Package.purl Package.license_source].
      rewrite (nonempty_has_licenses (Package.mk _ _ _ _ _)).
      cbn [Package.licenses]. rewrite Hne.
      split; [reflexivity|]. split; [reflexivity|]. split; [reflexivity|].
      split; [reflexivity|]. intros _. auto.
    + split; [reflexivity|]. split; [reflexivity|]. split; [reflexivity|].
      split; [auto|]. intros Hneq. exfalso. now apply Hneq.
  - rewrite (Hout Hf), Hl. exists p.
    split; [reflexivity|]. split; [reflexivity|]. split; [reflexivity|].
    split; [reflexivity|]. split; [auto|]. intros Hneq. exfalso. now apply Hneq.
Qed.

End EnrichmentCoverage.

(** The object at 1 of the example heap is rewritten. *)
Lemma enrich_packages_only_adds_witness :
  exists p',
    fst (LicenseEnricher.enrich_packages Examples.chain_registry Examples.no_github
           EnrichExamples.heap0 [0; 1; 1; 2]%nat) !! 1%nat = Some p'
    /\ Package.name p' = "a3"
    /\ Package.version p' = "1"
    /\ Package.purl p' = "pkg:maven/org.example/a3@1"
    /\ (Package.has_licenses EnrichExamples.resolvable = true ->
        Package.has_licenses p' = true)
    /\ (p' <> EnrichExamples.resolvable ->
        In 1%nat [0; 1; 1; 2]%nat
        /\ Package.has_licenses EnrichExamples.resolvable = false
        /\ Package.has_licenses p' = true
        /\ Package.license_source p' = LicenseEnricher.enriched_source).
Proof.
  apply (enrich_packages_only_adds Examples.chain_registry Examples.no_github
           EnrichExamples.heap0 [0; 1; 1; 2]%nat 1%nat EnrichExamples.resolvable).
  vm_compute. reflexivity.
Defined.

(** ** The deduplicator and the summary counts *)

Section DedupNames.

Local Open Scope list_scope.

Lemma merged_package_key (packages : list Package.t) (f : Package.t) :
  Package.unique_key (DedupSpec.merged_package packages f) = Package.unique_key f.
Proof. reflexivity. Qed.

Lemma in_names_flat_map (n : string) (group : list Package.t) :
  In n (map License.name (flat_map Package.licenses group))
  <-> exists p, In p group /\ In n (map License.name (Package.licenses p)).
Proof.
  rewrite in_map_iff. split.
  - intros (lic & <- & (p & Hp & Hl)%in_flat_map).
    exists p. split; [assumption|]. now apply in_map.
  - intros (p & Hp & (lic & <- & Hl)%in_map_iff).
    exists lic. split; [reflexivity|]. apply in_flat_map. eauto.
Qed.

(** The license names of the package that stands for a group are the
    license names of the members of the group. *)
Lemma merged_package_names (packages : list Package.t) (f : Package.t) (n : string) :
  In n (map License.name (Package.licenses (DedupSpec.merged_package packages f)))
  <-> exists p, In p packages
                /\ Package.unique_key p = Package.unique_key f
                /\ In n (map License.name (Package.licenses p)).
Proof.
  cbn [DedupSpec.merged_package Package.licenses]. unfold DedupSpec.union_by_name.
  rewrite first_seen_keys, in_names_flat_map. unfold DedupSpec.group_of.
  split.
  - intros (p & [Hp Hk%bool_decide_eq_true]%filter_In & Hn). eauto.
  - intros (p & Hp & Hk & Hn). exists p. split; [|assumption].
    apply filter_In. split; [assumption|]. now apply bool_decide_eq_true.
Qed.

Lemma spec_package_of_key (packages : list Package.t) (p : Package.t) :
  In p packages ->
  exists f, In f (DedupSpec.first_members packages)
            /\ Package.unique_key f = Package.unique_key p.
Proof.
  intros Hp.
  assert (Hk : In (Package.unique_key p)
                 (map Package.unique_key (DedupSpec.first_members packages))).
  { apply first_seen_keys. now apply in_map. }
  apply in_map_iff in Hk as (f & Hf & Hin). eauto.
Qed.

(** X8. [deduplicate] neither loses nor invents a license name, and keeps
    it under its key: a name is among the licenses of the output package
    with key [k] exactly when it is among the licenses of some input package
    with key [k]. *)
Theorem deduplicate_preserves_license_names (packages : list Package.t)
    (k : string * string) (n : string) :
  (exists o, In o (PackageDeduplicator.deduplicate packages)
             /\ Package.unique_key o = k
             /\ In n (map License.name (Package.licenses o)))
  <-> (exists p, In p packages
                 /\ Package.unique_key p = k
                 /\ In n (map License.name (Package.licenses p))).
Proof.
  rewrite deduplicate_spec. unfold DedupSpec.deduplicate. split.
  - intros (o & (f & <- & Hf)%in_map_iff & Hk & Hn).
    apply merged_package_names in Hn as (p & Hp & Hpk & Hn).
    exists p. rewrite merged_package_key in Hk. split; [assumption|].
    split; [congruence|assumption].
  - intros (p & Hp & Hk & Hn).
    destruct (spec_package_of_key packages p Hp) as (f & Hf & Hfk).
    exists (DedupSpec.merged_package packages f).
    split; [now apply in_map|]. split; [rewrite merged_package_key; congruence|].
    apply merged_package_names. eauto.
Qed.

End DedupNames.
Section SummaryCounts.

Local Open Scope list_scope.
Import HTMLReportGenerator.

Lemma license_names_fold_one (ls : list License.t) (s : gset string) :
  fold_left (fun s license_obj => s ∪ {[ License.name license_obj ]}) ls s
  = s ∪ list_to_set (map License.name ls).
Proof.
  revert s. induction ls as [|lic ls IH]; intros s; cbn [fold_left map list_to_set].
  - now rewrite union_empty_r_L.
  - rewrite IH. now rewrite union_assoc_L.
Qed.

Lemma license_names_fold (packages : list Package.t) (s : gset string) :
  fold_left
    (fun unique_licenses package =>
       fold_left (fun s license_obj => s ∪ {[ License.name license_obj ]})
         (Package.licenses package) unique_licenses)
    packages s
  = s ∪ list_to_set (map License.name (flat_map Package.licenses packages)).
Proof.
  revert s. induction packages as [|p packages IH]; intros s;
    cbn [fold_left flat_map map list_to_set].
  - now rewrite union_empty_r_L.
  - rewrite IH, license_names_fold_one, map_app, list_to_set_app_L.
    now rewrite union_assoc_L.
Qed.

(** The set of names the loops collect. *)
Lemma license_names_set (packages : list Package.t) :
  license_names packages
  = list_to_set (map License.name (flat_map Package.licenses packages)).
Proof.
  unfold license_names. rewrite license_names_fold. now rewrite union_empty_l_L.
Qed.

Lemma elem_of_license_names (packages : list Package.t) (n : string) :
  n ∈ license_names packages
  <-> exists p, In p packages /\ In n (map License.name (Package.licenses p)).
Proof.
  rewrite license_names_set, elem_of_list_to_set, list_elem_of_In.
  apply in_names_flat_map.
Qed.

Lemma has_licenses_name (p : Package.t) :
  Package.has_licenses p = true
  <-> exists n, In n (map License.name (Package.licenses p)).
Proof.
  rewrite nonempty_has_licenses. destruct (Package.licenses p) as [|lic ls]; cbn.
  - split; [discriminate|]. intros [n []].
  - split; [|reflexivity]. intros _. exists (License.name lic). now left.
Qed.

Lemma first_seen_length {A K : Type} `{EqDecision K} (key : A -> K) (l : list A) :
  (length (first_seen key l) <= length l)%nat.
Proof.
  induction l as [|x l IH]; cbn [first_seen length]; [lia|].
  pose proof (List.filter_length_le
                (fun y => negb (bool_decide (key y = key x))) (first_seen key l)).
  lia.
Qed.

(** A sublist cut out by a test, of a list with distinct keys, is not
    longer than any list that has all its keys. *)
Lemma distinct_keys_length (P : Package.t -> bool) (out l : list Package.t) :
  NoDup (map Package.unique_key out) ->
  (forall o, In o out -> P o = true ->
             In (Package.unique_key o) (map Package.unique_key l)) ->
  (length (List.filter P out) <= length l)%nat.
Proof.
  intros Hnd Hsub.
  rewrite <- (length_map Package.unique_key (List.filter P out)),
    <- (length_map Package.unique_key l).
  apply submseteq_length, NoDup_submseteq.
  - now apply NoDup_map_filter.
  - intros k. rewrite !list_elem_of_In.
    intros (o & <- & [Ho HP]%filter_In)%in_map_iff. now apply Hsub.
Qed.

Lemma filter_negb_length {A : Type} (P : A -> bool) (l : list A) :
  length (List.filter (fun x => negb (P x)) l) = (length l - length (List.filter P l))%nat.
Proof.
  induction l as [|x l IH]; [reflexivity|]. cbn [List.filter length].
  pose proof (List.filter_length_le P l).
  destruct (P x); cbn [negb length]; lia.
Qed.

(** X9. The summary counts before and after [deduplicate]: the number of
    unique licenses is the same, and the number of packages, of packages
    with licenses and of packages without licenses can only go down. *)
Theorem deduplicate_summary_counts (packages : list Package.t) :
  unique_licenses (PackageDeduplicator.deduplicate packages) = unique_licenses packages
  /\ (total_packages (PackageDeduplicator.deduplicate packages)
      <= total_packages packages)%nat
  /\ (packages_with_licenses (PackageDeduplicator.deduplicate packages)
      <= packages_with_licenses packages)%nat
  /\ (packages_without_licenses (PackageDeduplicator.deduplicate packages)
      <= packages_without_licenses packages)%nat.
Proof.
  rewrite deduplicate_spec.
  assert (Hmem : forall o, In o (DedupSpec.deduplicate packages) ->
                 exists f, In f packages /\ o = DedupSpec.merged_package packages f).
  { unfold DedupSpec.deduplicate. intros o (f & <- & Hf)%in_map_iff.
    exists f. split; [|reflexivity]. now apply first_seen_In in Hf. }
  split; [|split; [|split]].
  - unfold unique_licenses. f_equal. apply set_eq. intros n.
    rewrite !elem_of_license_names. split.
    + intros (o & Ho & Hn). destruct (Hmem o Ho) as (f & _ & ->).
      apply merged_package_names in Hn as (p & Hp & _ & Hn). eauto.
    + intros (p & Hp & Hn).
      destruct (spec_package_of_key packages p Hp) as (f & Hf & Hk).
      exists (DedupSpec.merged_package packages f). split.
      * unfold DedupSpec.deduplicate. now apply in_map.
      * apply merged_package_names. eauto.
  - unfold total_packages, DedupSpec.deduplicate. rewrite length_map.
    apply first_seen_length.
  - unfold packages_with_licenses.
    apply (distinct_keys_length Package.has_licenses _
             (List.filter Package.has_licenses packages) (spec_keys_NoDup packages)).
    intros o Ho Hlic. destruct (Hmem o Ho) as (f & _ & ->).
    apply has_licenses_name in Hlic as [n Hn].
    apply merged_package_names in Hn as (p & Hp & Hk & Hn).
    rewrite merged_package_key, <- Hk. apply in_map, filter_In.
    split; [assumption|]. apply has_licenses_name. eauto.
  - unfold packages_without_licenses, total_packages, packages_with_licenses.
    rewrite <- !filter_negb_length.
    apply (distinct_keys_length (fun o => negb (Package.has_licenses o)) _
             (List.filter (fun p => negb (Package.has_licenses p)) packages)
             (spec_keys_NoDup packages)).
    intros o Ho Hlic. destruct (Hmem o Ho) as (f & Hf & ->).
    rewrite merged_package_key. apply in_map, filter_In. split; [assumption|].
    apply negb_true_iff. apply negb_true_iff in Hlic.
    destruct (Package.has_licenses f) eqn:Hfl; [|reflexivity].
    apply has_licenses_name in Hfl as [n Hn].
    assert (Hm : Package.has_licenses (DedupSpec.merged_package packages f) = true).
    { apply has_licenses_name. exists n. apply merged_package_names. eauto. }
    congruence.
Qed.

End SummaryCounts.

(** ** The parsers, continued *)

Section Trimmed.

Lemma lstrip_head (s r : string) (c : ascii) :
  Str.lstrip_by Str.isspace s = String c r -> Str.isspace c = false.
Proof.
  induction s as [|d s IH]; cbn [Str.lstrip_by]; [discriminate|].
  destruct (Str.isspace d) eqn:Hd; [exact IH|]. now intros [= <- _].
Qed.

Lemma rstrip_head (s r : string) (c : ascii) :
  Str.rstrip_by Str.isspace s = String c r -> exists s', s = String c s'.
Proof.
  destruct s as [|d s]; cbn [Str.rstrip_by]; [discriminate|].
  destruct (Str.is_empty _ && Str.isspace d); [discriminate|].
  intros [= <- _]. eauto.
Qed.

Lemma rstrip_idem (s : string) :
  Str.rstrip_by Str.isspace (Str.rstrip_by Str.isspace s) = Str.rstrip_by Str.isspace s.
Proof.
  induction s as [|c s IH]; [reflexivity|]. cbn [Str.rstrip_by].
  destruct (Str.is_empty (Str.rstrip_by Str.isspace s) && Str.isspace c) eqn:E;
    [reflexivity|].
  cbn [Str.rstrip_by]. now rewrite IH, E.
Qed.

(** The first character of a trimmed string is not whitespace. *)
Lemma strip_head (s r : string) (c : ascii) :
  Str.strip s = String c r -> Str.isspace c = false.
Proof.
  unfold Str.strip, Str.strip_by. intros H.
  destruct (rstrip_head _ _ _ H) as [s' Hs']. now apply lstrip_head in Hs'.
Qed.

(** Trimming twice is trimming once. *)
Lemma strip_idem (s : string) : Str.strip (Str.strip s) = Str.strip s.
Proof.
  destruct (Str.strip s) as [|c r] eqn:E; [reflexivity|].
  pose proof (strip_head _ _ _ E) as Hc.
  unfold Str.strip, Str.strip_by in *. cbn [Str.lstrip_by]. rewrite Hc.
  rewrite <- E. apply rstrip_idem.
Qed.

Lemma strip_nonspace_head (c : ascii) (s : string) :
  Str.isspace c = false -> exists r, Str.strip (String c s) = String c r.
Proof.
  intros Hc. unfold Str.strip, Str.strip_by. cbn [Str.lstrip_by]. rewrite Hc.
  cbn [Str.rstrip_by]. rewrite Hc, andb_false_r. eauto.
Qed.

Lemma has_char_strip (c : ascii) (s : string) :
  has_char c s = false -> has_char c (Str.strip s) = false.
Proof.
  destruct (strip_split s) as (w1 & w2 & _ & _ & E). intros H.
  rewrite E, !has_char_app in H.
  apply orb_false_elim in H as [_ H]. now apply orb_false_elim in H as [H _].
Qed.

Lemma before_semicolon_no_semicolon (s : string) :
  has_char ";" (SyftOutputParser.before_semicolon s) = false.
Proof.
  unfold SyftOutputParser.before_semicolon.
  destruct (Str.split1 ";" s) as [[a b]|] eqn:E.
  - now apply split1_Some in E as [_ H].
  - now apply split1_None.
Qed.

End Trimmed.

(** X10. Every entry [_parse_license_text] returns has a name that is not
    empty, has no whitespace at either end and contains no semicolon, and
    has the URL the canonicalizer gives that name. *)
Theorem parse_license_text_names (license_text : string) (lic : License.t) :
  In lic (SyftOutputParser._parse_license_text license_text) ->
  License.name lic <> EmptyString
  /\ Str.strip (License.name lic) = License.name lic
  /\ has_char ";" (License.name lic) = false
  /\ License.url lic = get_canonical_license_url (License.name lic) EmptyString.
Proof.
  unfold SyftOutputParser._parse_license_text.
  destruct (negb (Str.truthy license_text) || String.eqb license_text "-");
    [intros []|].
  rewrite parse_license_text_parts.
  intros (n & <- & [Hn Ht]%filter_In)%in_map_iff.
  apply in_map_iff in Hn as (part & <- & _).
  unfold License.make. cbn [License.url_truthy License.name License.url].
  split; [now destruct (clean_fragment part)|].
  split; [apply strip_idem|]. split; [|reflexivity].
  apply has_char_strip, before_semicolon_no_semicolon.
Qed.

Lemma parse_license_text_names_witness :
  License.name (License.mk "BSD-3-Clause"
                  (Some "https://opensource.org/licenses/BSD-3-Clause"))
  <> EmptyString
  /\ Str.strip "BSD-3-Clause" = "BSD-3-Clause"
  /\ has_char ";" "BSD-3-Clause" = false
  /\ Some "https://opensource.org/licenses/BSD-3-Clause"
     = get_canonical_license_url "BSD-3-Clause" EmptyString.
Proof.
  apply (parse_license_text_names
           "MIT https://opensource.org/licenses/MIT ; see file, BSD-3-Clause; http://x.org, ;"
           (License.mk "BSD-3-Clause"
              (Some "https://opensource.org/licenses/BSD-3-Clause"))).
  vm_compute. auto.
Defined.

Lemma lazy_plus_head {A : Type} (k : string -> option A) (s g : string) (a : A) :
  Re.lazy_plus k s = Some (g, a) ->
  exists c s' g', s = String c s' /\ g = String c g'.
Proof.
  destruct s as [|c s]; cbn [Re.lazy_plus]; [discriminate|].
  destruct (Re.dot c); [|discriminate].
  destruct (k s) as [a'|].
  - intros [= <- _]. eauto.
  - destruct (Re.lazy_plus k s) as [[g' a']|]; [|discriminate].
    intros [= <- _]. eauto.
Qed.

(** X11. Every package [parse] returns carries the source [Original], a
    name that is not empty, and a name, a version and a purl without
    whitespace at either end. (The version and the purl may be empty.) *)
Theorem parse_package_fields (syft_output : string) (p : Package.t) :
  In p (SyftOutputParser.parse syft_output) ->
  Package.license_source p = "Original"
  /\ Package.name p <> EmptyString
  /\ Str.strip (Package.name p) = Package.name p
  /\ Str.strip (Package.version p) = Package.version p
  /\ Str.strip (Package.purl p) = Package.purl p.
Proof.
  unfold SyftOutputParser.parse.
  intros (line & _ & Hline)%list_elem_of_In%list_elem_of_omap.
  unfold SyftOutputParser.parse_line in Hline.
  destruct (negb (Str.truthy (Str.strip line))); [discriminate|].
  destruct (Re.package_pattern (Str.strip line)) as [[[[g1 g2] g3] g4]|] eqn:Hm;
    [|discriminate].
  injection Hline as <-.
  cbn [Package.license_source Package.name Package.version Package.purl].
  split; [reflexivity|]. rewrite !strip_idem.
  split; [|auto].
  unfold Re.package_pattern in Hm.
  destruct (Re.lazy_plus _ (Str.strip line)) as [[g [g2' [g3' g4']]]|] eqn:Hl;
    [|discriminate].
  injection Hm as -> _ _ _.
  destruct (lazy_plus_head _ _ _ _ Hl) as (c & s' & g' & Hs & ->).
  apply strip_head in Hs.
  destruct (strip_nonspace_head c g' Hs) as [r ->]. discriminate.
Qed.

Lemma parse_package_fields_witness :
  Package.license_source
    (Package.mk "alfresco-data-model" "1.0" EmptyString [alfresco_license] "Original")
  = "Original"
  /\ "alfresco-data-model" <> EmptyString
  /\ Str.strip "alfresco-data-model" = "alfresco-data-model"
  /\ Str.strip "1.0" = "1.0"
  /\ Str.strip EmptyString = EmptyString.
Proof.
  apply (parse_package_fields Examples.manifest
           (Package.mk "alfresco-data-model" "1.0" EmptyString
              [alfresco_license] "Original")).
  vm_compute. auto.
Defined.

(** ** The line pattern *)

Section Pattern.

Lemma str_app_nil_r (s : string) : s ++ EmptyString = s.
Proof. induction s as [|c s IH]; [reflexivity|]. now rewrite app_cons, IH. Qed.

Lemma dot_LF (c : ascii) : Re.dot c = negb (Ascii.eqb c Re.LF).
Proof. reflexivity. Qed.

Lemma rest_of_line_inv (s t : string) :
  Re.rest_of_line s = Some t ->
  has_char Re.LF t = false /\ (s = t \/ s = t ++ String Re.LF EmptyString).
Proof.
  revert t. induction s as [|c s IH]; intros t; cbn [Re.rest_of_line].
  - intros [= <-]. auto.
  - rewrite dot_LF. destruct (Ascii.eqb_spec c Re.LF) as [->|Hc]; cbn [negb].
    + destruct s; cbn [Str.is_empty]; [|discriminate]. intros [= <-]. auto.
    + destruct (Re.rest_of_line s) as [t'|]; [|discriminate].
      intros [= <-]. destruct (IH t' eq_refl) as [Hn Hs].
      cbn [has_char]. rewrite (proj2 (Ascii.eqb_neq c Re.LF) Hc), Hn.
      split; [reflexivity|]. destruct Hs as [->| ->]; auto.
Qed.

Lemma rest_of_line_plain (t : string) :
  has_char Re.LF t = false -> Re.rest_of_line t = Some t.
Proof.
  induction t as [|c t IH]; [reflexivity|]. cbn [has_char Re.rest_of_line].
  intros [Hc Ht]%orb_false_elim. rewrite dot_LF, Hc, (IH Ht). reflexivity.
Qed.

Lemma dash_text_inv (s t : string) :
  Re.dash_text s = Some t -> has_char Re.LF t = false /\ pattern_tail s t.
Proof.
  destruct s as [|c1 [|c2 r]]; cbn [Re.dash_text]; try discriminate.
  destruct (Ascii.eqb_spec c1 " ") as [->|]; [|discriminate].
  destruct (Ascii.eqb_spec c2 "-") as [->|]; [|discriminate]. cbn [andb].
  assert (Hplain : Re.rest_of_line r = Some t ->
                   has_char Re.LF t = false /\ pattern_tail (String " " (String "-" r)) t).
  { intros [Hn Hs]%rest_of_line_inv. split; [exact Hn|].
    destruct Hs as [->| ->].
    - exists EmptyString, EmptyString. rewrite str_app_nil_r. auto.
    - exists EmptyString, (String Re.LF EmptyString). auto. }
  destruct r as [|c3 r']; [exact Hplain|].
  destruct (Ascii.eqb_spec c3 " ") as [->|]; [|exact Hplain].
  destruct (Re.rest_of_line r') as [t'|] eqn:E; [|exact Hplain].
  intros [= <-]. apply rest_of_line_inv in E as [Hn Hs]. split; [exact Hn|].
  destruct Hs as [->| ->].
  - exists " ", EmptyString. rewrite str_app_nil_r. auto.
  - exists " ", (String Re.LF EmptyString). auto.
Qed.

Lemma purl_text_unfold (s : string) :
  Re.purl_text s =
  match Re.dash_text s with
  | Some t => Some (EmptyString, t)
  | None =>
      match s with
      | String c s' =>
          if Re.dot c then
            match Re.purl_text s' with
            | Some (p, t) => Some (String c p, t)
            | None => None
            end
          else None
      | EmptyString => None
      end
  end.
Proof. destruct s; reflexivity. Qed.

Lemma purl_text_inv (s p t : string) :
  Re.purl_text s = Some (p, t) ->
  has_char Re.LF p = false /\ has_char Re.LF t = false
  /\ exists d, s = p ++ d /\ pattern_tail d t.
Proof.
  revert p. induction s as [|c s IH]; intros p; rewrite purl_text_unfold.
  - cbn. discriminate.
  - destruct (Re.dash_text (String c s)) as [t'|] eqn:E.
    + intros [= <- <-]. apply dash_text_inv in E as [Hn Ht].
      repeat split; auto. exists (String c s). auto.
    + rewrite dot_LF. destruct (Ascii.eqb c Re.LF) eqn:Hc; [discriminate|].
      cbn [negb]. destruct (Re.purl_text s) as [[p' t']|]; [|discriminate].
      intros [= <- <-]. destruct (IH p' eq_refl) as (Hp & Ht & d & -> & Hd).
      cbn [has_char]. rewrite Hc, Hp. repeat split; auto.
      exists d. auto.
Qed.

Lemma lazy_plus_inv {A : Type} (k : string -> option A) (s g : string) (a : A) :
  Re.lazy_plus (Re.colon_then k) s = Some (g, a) ->
  g <> EmptyString /\ has_char Re.LF g = false
  /\ exists r, s = g ++ String ":" r /\ k r = Some a.
Proof.
  revert g. induction s as [|c s IH]; intros g; cbn [Re.lazy_plus];
    [discriminate|].
  rewrite dot_LF. destruct (Ascii.eqb c Re.LF) eqn:Hc; [discriminate|].
  cbn [negb]. destruct (Re.colon_then k s) as [a'|] eqn:E.
  - intros [= <- <-]. cbn [has_char]. rewrite Hc.
    repeat split; [discriminate|].
    destruct s as [|d s]; cbn [Re.colon_then] in E; [discriminate|].
    destruct (Ascii.eqb_spec d ":") as [->|]; [|discriminate]. eauto.
  - destruct (Re.lazy_plus (Re.colon_then k) s) as [[g' a']|]; [|discriminate].
    intros [= <- <-]. destruct (IH g' eq_refl) as (_ & Hg & r & -> & Hr).
    cbn [has_char]. rewrite Hc, Hg. repeat split; [discriminate|]. eauto.
Qed.

End Pattern.

(** X12. The groups of a match of [PACKAGE_PATTERN] reassemble the line:
    the line is the first group, a colon, the second group, a colon, the
    third group, a space and a dash, at most one space, the last group and
    at most one final line feed. The first two groups are not empty and no
    group contains a line feed. *)
Theorem package_pattern_groups (line g1 g2 g3 g4 : string) :
  Re.package_pattern line = Some (g1, g2, g3, g4) ->
  (exists sp nl,
      line = g1 ++ ":" ++ g2 ++ ":" ++ g3 ++ " -" ++ sp ++ g4 ++ nl
      /\ (sp = EmptyString \/ sp = " ")
      /\ (nl = EmptyString \/ nl = String Re.LF EmptyString))
  /\ g1 <> EmptyString /\ g2 <> EmptyString
  /\ has_char Re.LF g1 = false /\ has_char Re.LF g2 = false
  /\ has_char Re.LF g3 = false /\ has_char Re.LF g4 = false.
Proof.
  unfold Re.package_pattern.
  destruct (Re.lazy_plus _ line) as [[g [g2' [g3' g4']]]|] eqn:E; [|discriminate].
  intros [= -> -> -> ->].
  apply lazy_plus_inv in E as (H1 & L1 & r1 & -> & E).
  apply lazy_plus_inv in E as (H2 & L2 & r2 & -> & E).
  apply purl_text_inv in E as (L3 & L4 & d & -> & sp & nl & -> & Hsp & Hnl).
  split; [|auto 10]. exists sp, nl. auto.
Qed.

Lemma package_pattern_groups_witness :
  (exists sp nl,
      "a:1::b - MIT" = "a" ++ ":" ++ "1" ++ ":" ++ ":b" ++ " -" ++ sp ++ "MIT" ++ nl
      /\ (sp = EmptyString \/ sp = " ")
      /\ (nl = EmptyString \/ nl = String Re.LF EmptyString))
  /\ "a" <> EmptyString /\ "1" <> EmptyString
  /\ has_char Re.LF "a" = false /\ has_char Re.LF "1" = false
  /\ has_char Re.LF ":b" = false /\ has_char Re.LF "MIT" = false.
Proof. apply (package_pattern_groups "a:1::b - MIT"). reflexivity. Defined.



Section Template.

Lemma str_app_assoc (a b c : string) : (a ++ b) ++ c = a ++ (b ++ c).
Proof. induction a as [|x a IH]; [reflexivity|]. now rewrite !app_cons, IH. Qed.

Lemma rstrip_app_keep (a b : string) :
  Str.rstrip_by Str.isspace b <> EmptyString ->
  Str.rstrip_by Str.isspace (a ++ b) = a ++ Str.rstrip_by Str.isspace b.
Proof.
  intros Hb. induction a as [|c a IH]; [reflexivity|].
  rewrite !app_cons. cbn [Str.rstrip_by]. rewrite IH.
  destruct a as [|d a]; [|reflexivity]. rewrite app_nil.
  now destruct (Str.rstrip_by Str.isspace b).
Qed.

Lemma strip_rstrip (s : string) :
  Str.strip s = s -> Str.rstrip_by Str.isspace s = s.
Proof.
  intros H. rewrite <- H at 1. unfold Str.strip, Str.strip_by.
  rewrite rstrip_idem. exact H.
Qed.

Lemma no_space_has_char (c : ascii) (s : string) :
  Str.isspace c = true -> no_space s = true -> has_char c s = false.
Proof.
  intros Hc. induction s as [|d s IH]; [reflexivity|]. cbn [no_space has_char].
  intros [Hd Hs]%andb_prop. apply negb_true_iff in Hd.
  now rewrite (space_not_char c d Hc Hd), (IH Hs).
Qed.

Lemma no_space_strip (s : string) : no_space s = true -> Str.strip s = s.
Proof.
  unfold Str.strip, Str.strip_by. intros H.
  assert (Hl : Str.lstrip_by Str.isspace s = s).
  { destruct s as [|c s]; [reflexivity|]. cbn [no_space] in H.
    apply andb_prop in H as [Hc%negb_true_iff _]. cbn [Str.lstrip_by].
    now rewrite Hc. }
  rewrite Hl. clear Hl. induction s as [|c s IH]; [reflexivity|].
  cbn [no_space] in H. apply andb_prop in H as [Hc%negb_true_iff Hs].
  cbn [Str.rstrip_by]. now rewrite (IH Hs), Hc, andb_false_r.
Qed.

Lemma dash_text_head (c : ascii) (s : string) :
  Ascii.eqb c " " = false -> Re.dash_text (String c s) = None.
Proof. intros H. destruct s; cbn [Re.dash_text]; [reflexivity|]. now rewrite H. Qed.

Lemma purl_text_template (p d t : string) :
  has_char " " p = false -> has_char Re.LF p = false ->
  Re.dash_text d = Some t -> Re.purl_text (p ++ d) = Some (p, t).
Proof.
  intros Hs Hl Hd. induction p as [|c p IH].
  - rewrite app_nil, purl_text_unfold, Hd. reflexivity.
  - cbn [has_char] in Hs, Hl.
    apply orb_false_elim in Hs as [Hc Hs]. apply orb_false_elim in Hl as [Hc' Hl].
    rewrite app_cons, purl_text_unfold, (dash_text_head _ _ Hc), dot_LF, Hc'.
    cbn [negb]. now rewrite (IH Hs Hl).
Qed.

Lemma lazy_plus_template {A : Type} (k : string -> option A) (g r : string) (a : A) :
  g <> EmptyString -> has_char ":" g = false -> has_char Re.LF g = false ->
  k r = Some a ->
  Re.lazy_plus (Re.colon_then k) (g ++ String ":" r) = Some (g, a).
Proof.
  intros Hg Hc Hl Hk. induction g as [|c g IH]; [congruence|].
  cbn [has_char] in Hc, Hl.
  apply orb_false_elim in Hc as [Hc Hc']. apply orb_false_elim in Hl as [Hl Hl'].
  rewrite app_cons. cbn [Re.lazy_plus]. rewrite dot_LF, Hl. cbn [negb].
  destruct g as [|d g].
  - rewrite app_nil. cbn [Re.colon_then]. rewrite Ascii.eqb_refl, Hk. reflexivity.
  - rewrite IH by (auto; discriminate). rewrite app_cons. cbn [Re.colon_then].
    cbn [has_char] in Hc'. apply orb_false_elim in Hc' as [-> _]. reflexivity.
Qed.

Lemma package_pattern_template (name version purl d t : string) :
  template_field name -> template_field version -> no_space purl = true ->
  Re.dash_text d = Some t ->
  Re.package_pattern (name ++ ":" ++ version ++ ":" ++ purl ++ d)
  = Some (name, version, purl, t).
Proof.
  intros (Hn & _ & Hnc & Hnl) (Hv & _ & Hvc & Hvl) Hp Hd.
  unfold Re.package_pattern.
  change (":" ++ version ++ ":" ++ purl ++ d)
    with (String ":" (version ++ String ":" (purl ++ d))).
  rewrite (lazy_plus_template _ name _ (version, (purl, t))); auto.
  apply lazy_plus_template; auto.
  apply purl_text_template; auto; now apply no_space_has_char.
Qed.

Lemma template_field_head (s : string) :
  template_field s -> exists c r, s = String c r /\ Str.isspace c = false.
Proof.
  intros (Hs & Ht & _). destruct s as [|c r]; [congruence|].
  exists c, r. split; [reflexivity|]. exact (strip_head _ _ _ Ht).
Qed.

Lemma template_line_strip (name rest text : string) :
  template_field name -> Str.strip text = text ->
  Str.strip (name ++ rest ++ " - " ++ text)
  = name ++ rest ++ (if Str.is_empty text then " -" else " - " ++ text).
Proof.
  intros Hn Ht. destruct (template_field_head _ Hn) as (c & r & -> & Hc).
  unfold Str.strip, Str.strip_by. rewrite app_cons. cbn [Str.lstrip_by].
  rewrite Hc, <- app_cons, <- str_app_assoc.
  destruct text as [|x text]; cbn [Str.is_empty].
  - rewrite rstrip_app_keep by (vm_compute; discriminate).
    now rewrite str_app_assoc.
  - assert (Hr := strip_rstrip _ Ht).
    assert (Hk : Str.rstrip_by Str.isspace (" - " ++ String x text)
                 = " - " ++ String x text).
    { rewrite rstrip_app_keep by (rewrite Hr; discriminate). now rewrite Hr. }
    rewrite rstrip_app_keep by (rewrite Hk; discriminate).
    now rewrite Hk, str_app_assoc.
Qed.

Lemma dash_text_template (text : string) :
  has_char Re.LF text = false ->
  Re.dash_text (if Str.is_empty text then " -" else " - " ++ text) = Some text.
Proof.
  intros Hl. destruct text as [|x text]; [reflexivity|]. cbn [Str.is_empty].
  change (" - " ++ String x text)
    with (String " " (String "-" (String " " (String x text)))).
  cbn [Re.dash_text]. cbn [Ascii.eqb Bool.eqb andb].
  now rewrite (rest_of_line_plain _ Hl).
Qed.

End Template.

(** X13. [parse] reads back a line the output template writes. For a name
    and a version that are not empty, have no whitespace at either end and
    contain neither colon nor line feed, a purl without whitespace and a
    one-line license text without whitespace at either end, the line
    name:version:purl - text gives the package with exactly these three
    fields, source [Original], and the licenses of the text (of the LGPL
    fallback text for an alfresco- name whose text is empty or a dash). *)
Theorem parse_line_template (name version purl text : string) :
  template_field name -> template_field version -> no_space purl = true ->
  Str.strip text = text -> has_char Re.LF text = false ->
  SyftOutputParser.parse_line (name ++ ":" ++ version ++ ":" ++ purl ++ " - " ++ text)
  = Some (Package.mk name version purl
            (SyftOutputParser._parse_license_text (effective_license_text name text))
            "Original").
Proof.
  intros Hn Hv Hp Ht Hl. unfold SyftOutputParser.parse_line.
  assert (Hline : Str.strip (name ++ ":" ++ version ++ ":" ++ purl ++ " - " ++ text)
                  = name ++ ":" ++ version ++ ":" ++ purl
                    ++ (if Str.is_empty text then " -" else " - " ++ text)).
  { transitivity (Str.strip (name ++ (":" ++ version ++ ":" ++ purl) ++ " - " ++ text)).
    - now rewrite !str_app_assoc.
    - rewrite (template_line_strip name _ text Hn Ht). now rewrite !str_app_assoc. }
  rewrite Hline.
  destruct (template_field_head _ Hn) as (c & r & E & _).
  replace (negb (Str.truthy _)) with false by (now rewrite E).
  rewrite (package_pattern_template name version purl _ text Hn Hv Hp
             (dash_text_template text Hl)).
  destruct Hn as (_ & -> & _), Hv as (_ & -> & _).
  now rewrite (no_space_strip purl Hp), Ht.
Qed.

Lemma parse_line_template_witness :
  SyftOutputParser.parse_line
    "commons-io:2.11.0:pkg:maven/commons-io/commons-io@2.11.0 - Apache-2.0"
  = Some (Package.mk "commons-io" "2.11.0" "pkg:maven/commons-io/commons-io@2.11.0"
            [License.mk "Apache-2.0"
               (Some LicenseMapper.apache_2_0_url)]
            "Original").
Proof.
  apply (parse_line_template "commons-io" "2.11.0"
           "pkg:maven/commons-io/commons-io@2.11.0" "Apache-2.0");
    try reflexivity; repeat split; discriminate.
Defined.

Section Lines.
Local Open Scope list_scope.

Lemma splitlines_from_nil (s : string) :
  Re.splitlines_from false s = [] -> s = EmptyString.
Proof.
  destruct s as [|c s]; [reflexivity|]. cbn [Re.splitlines_from andb].
  destruct (Re.is_linebreak c); [discriminate|].
  destruct (Re.splitlines_from false s); discriminate.
Qed.

(** A line feed between two texts ends the last line of the first; the
    lines of the second follow, after at most one empty line. *)
Lemma splitlines_from_app (f : bool) (a b : string) :
  exists e, (e = [] \/ e = [EmptyString])
    /\ Re.splitlines_from f (a ++ String Re.LF b)%string
       = Re.splitlines_from f a ++ e ++ Re.splitlines_from false b.
Proof.
  revert f. induction a as [|c a IH]; intros f.
  - rewrite app_nil. destruct f.
    + exists []. split; [auto|]. reflexivity.
    + exists [EmptyString]. split; [auto|]. reflexivity.
  - rewrite app_cons. cbn [Re.splitlines_from].
    destruct (f && Ascii.eqb c Re.LF); [apply IH|].
    destruct (Re.is_linebreak c).
    + destruct (IH (Ascii.eqb c Re.CR)) as (e & He & ->). exists e. auto.
    + destruct (Re.splitlines_from false a) as [|l ls] eqn:E.
      * apply splitlines_from_nil in E as ->. rewrite app_nil.
        exists []. split; [auto|]. reflexivity.
      * destruct (IH false) as (e & He & ->). rewrite E. exists e. auto.
Qed.

End Lines.

(** X14. [parse] reads the lines of its input independently: the packages
    of two texts joined by a line feed are the packages of the first
    followed by the packages of the second. *)
Theorem parse_app (a b : string) :
  SyftOutputParser.parse (a ++ String Re.LF b)
  = (SyftOutputParser.parse a ++ SyftOutputParser.parse b)%list.
Proof.
  unfold SyftOutputParser.parse, Re.splitlines.
  destruct (splitlines_from_app false a b) as (e & He & ->).
  rewrite !omap_app. destruct He as [->| ->]; reflexivity.
Qed.

(** ** The pipeline of main *)

Section Pipeline.

Variable fetch_pom : string -> string -> string -> option ET.Element.
Variable get_license_from_repo_url : string -> list License.t.

Local Open Scope list_scope.

Lemma store_from_lookup (packages : list Package.t) (next l : nat) :
  Main.store_from next packages !! l
  = if (l <? next)%nat then None else packages !! (l - next)%nat.
Proof.
  revert next. induction packages as [|p ps IH]; intros next; cbn [Main.store_from].
  - rewrite lookup_empty. now destruct (l <? next)%nat.
  - destruct (decide (next = l)) as [->|Hne].
    + rewrite lookup_insert_eq, Nat.ltb_irrefl, Nat.sub_diag. reflexivity.
    + rewrite lookup_insert_ne by assumption. rewrite IH.
      destruct (Nat.ltb_spec l next) as [Hlt|Hge].
      * destruct (Nat.ltb_spec l (S next)); [reflexivity|lia].
      * destruct (Nat.ltb_spec l (S next)); [lia|].
        replace (l - next)%nat with (S (l - S next)) by lia. reflexivity.
Qed.

Lemma deref_seq (f : Package.t -> Package.t) (h : gmap nat Package.t)
    (packages : list Package.t) (next : nat) :
  (forall i p, packages !! i = Some p -> h !! (next + i)%nat = Some (f p)) ->
  Main.deref h (seq next (length packages)) = map f packages.
Proof.
  revert next. induction packages as [|p ps IH]; intros next Hh; [reflexivity|].
  cbn [length seq map]. unfold Main.deref. cbn [omap list_omap].
  pose proof (Hh 0%nat p eq_refl) as H0. rewrite Nat.add_0_r in H0. rewrite H0.
  f_equal. apply IH. intros i q Hq.
  replace (S next + i)%nat with (next + S i)%nat by lia. now apply Hh.
Qed.

(** On freshly parsed packages the update in place is a map over the list. *)
Lemma enrich_packages_fresh (packages : list Package.t) :
  let '(h', refs) :=
    LicenseEnricher.enrich_packages fetch_pom get_license_from_repo_url
      (Main.store_from 0 packages) (seq 0 (length packages)) in
  Main.deref h' refs
  = map (enrich_value fetch_pom get_license_from_repo_url) packages.
Proof.
  pose proof (enrich_packages_heap fetch_pom get_license_from_repo_url
                (Main.store_from 0 packages) (seq 0 (length packages))) as Hinv.
  destruct (LicenseEnricher.enrich_packages _ _ _ _) as [h' refs] eqn:E.
  assert (Hrefs : refs = seq 0 (length packages)).
  { unfold LicenseEnricher.enrich_packages in E.
    destruct (negb _) in E; now injection E as _ <-. }
  subst refs. cbn [fst] in Hinv. apply deref_seq. intros i p Hp.
  cbn [Nat.add]. destruct (Hinv i) as [Hin Hout].
  assert (Hh : Main.store_from 0 packages !! i = Some p).
  { rewrite store_from_lookup. cbn [Nat.ltb Nat.leb]. now rewrite Nat.sub_0_r. }
  assert (Hi : In i (seq 0 (length packages))).
  { apply in_seq. apply lookup_lt_Some in Hp. lia. }
  unfold enrich_value. destruct (Package.has_licenses p) eqn:Hl.
  - rewrite Hout, Hh; [reflexivity|].
    intros [_ Hf]%filter_In. unfold LicenseEnricher.lacks_licenses in Hf.
    rewrite Hh, Hl in Hf. discriminate.
  - rewrite Hin, Hh; [reflexivity|].
    apply filter_In. split; [assumption|].
    unfold LicenseEnricher.lacks_licenses. now rewrite Hh, Hl.
Qed.

Lemma report_packages_Some (syft_output : string) (result : list Package.t) :
  Main.report_packages fetch_pom get_license_from_repo_url syft_output = Some result ->
  SyftOutputParser.parse syft_output <> []
  /\ result = PackageDeduplicator.deduplicate
                (map (enrich_value fetch_pom get_license_from_repo_url)
                   (SyftOutputParser.parse syft_output)).
Proof.
  unfold Main.report_packages.
  destruct (negb (Str.truthy _)); [discriminate|].
  destruct (SyftOutputParser.parse syft_output) as [|p ps] eqn:E;
    [discriminate|]. cbn [nonempty negb].
  pose proof (enrich_packages_fresh (p :: ps)) as H.
  destruct (LicenseEnricher.enrich_packages _ _ _ _) as [h' refs].
  rewrite H. intros [= <-]. split; [discriminate|reflexivity].
Qed.

Lemma enrich_value_key (p : Package.t) :
  Package.unique_key (enrich_value fetch_pom get_license_from_repo_url p)
  = Package.unique_key p.
Proof.
  unfold enrich_value, enriched.
  destruct (Package.has_licenses p); [reflexivity|]. now destruct (nonempty _).
Qed.

Lemma enrich_value_keys (packages : list Package.t) :
  map Package.unique_key (map (enrich_value fetch_pom get_license_from_repo_url) packages)
  = map Package.unique_key packages.
Proof.
  rewrite map_map. apply map_ext. intros p. apply enrich_value_key.
Qed.

(** The names among the licenses of an enriched package: its own, or those
    of the lookup when it had none. *)
Lemma enrich_value_names (p : Package.t) (n : string) :
  In n (map License.name
          (Package.licenses (enrich_value fetch_pom get_license_from_repo_url p)))
  <-> In n (map License.name (Package.licenses p))
      \/ (Package.licenses p = []
          /\ In n (map License.name
                     (snd (LicenseEnricher._lookup_package_licenses
                             fetch_pom get_license_from_repo_url p)))).
Proof.
  unfold enrich_value, enriched. rewrite nonempty_has_licenses.
  destruct (Package.licenses p) as [|l ls] eqn:El; cbn [nonempty].
  - destruct (snd _) as [|l' ls'] eqn:Ek; cbn [nonempty Package.licenses].
    + rewrite El. cbn. tauto.
    + split; [auto|]. now intros [[]|[_ H]].
  - rewrite El. split; [auto|]. intros [H|[H _]]; [assumption|discriminate].
Qed.

End Pipeline.

(** X15. The packages [main] hands to the report generator (parse, enrich,
    deduplicate) are not empty and have pairwise distinct (name, version)
    keys, which are exactly the keys of the parsed packages; and a license
    name is reported for a key exactly when a parsed package with that key
    carries it, or has no license and its lookup returns it. *)
Theorem report_packages_sound_complete
    (fetch_pom : string -> string -> string -> option ET.Element)
    (get_license_from_repo_url : string -> list License.t)
    (syft_output : string) (result : list Package.t) :
  Main.report_packages fetch_pom get_license_from_repo_url syft_output = Some result ->
  result <> []
  /\ NoDup (map Package.unique_key result)
  /\ (forall k, In k (map Package.unique_key result)
                <-> In k (map Package.unique_key (SyftOutputParser.parse syft_output)))
  /\ (forall k n,
        (exists q, In q result /\ Package.unique_key q = k
                   /\ In n (map License.name (Package.licenses q)))
        <-> (exists p, In p (SyftOutputParser.parse syft_output)
                       /\ Package.unique_key p = k
                       /\ (In n (map License.name (Package.licenses p))
                           \/ (Package.licenses p = []
                               /\ In n (map License.name
                                          (snd (LicenseEnricher._lookup_package_licenses
                                                  fetch_pom get_license_from_repo_url
                                                  p))))))).
Proof.
  intros [Hne ->]%report_packages_Some. rewrite deduplicate_spec.
  set (ev := enrich_value fetch_pom get_license_from_repo_url).
  set (parsed := SyftOutputParser.parse syft_output) in *.
  assert (Hkeys : forall k,
             In k (map Package.unique_key (DedupSpec.deduplicate (map ev parsed)))
             <-> In k (map Package.unique_key parsed)).
  { intros k. rewrite spec_keys. unfold DedupSpec.first_members.
    rewrite first_seen_keys. unfold ev. now rewrite enrich_value_keys. }
  split; [|split; [apply spec_keys_NoDup|split; [exact Hkeys|]]].
  - destruct parsed as [|p ps]; [congruence|]. intros Hnil.
    assert (Hin : In (Package.unique_key p) (map Package.unique_key (p :: ps)))
      by now left.
    apply Hkeys in Hin. rewrite Hnil in Hin. exact Hin.
  - intros k n. unfold DedupSpec.deduplicate. split.
    + intros (q & (f & <- & Hf)%in_map_iff & Hk & Hn).
      apply merged_package_names in Hn as (p' & (p & <- & Hp)%in_map_iff & Hpk & Hn).
      rewrite merged_package_key in Hk. exists p. split; [assumption|].
      unfold ev in Hpk, Hn. rewrite enrich_value_key in Hpk.
      split; [congruence|]. now apply enrich_value_names.
    + intros (p & Hp & Hk & Hn).
      destruct (spec_package_of_key (map ev parsed) (ev p) (in_map ev _ _ Hp))
        as (f & Hf & Hfk).
      exists (DedupSpec.merged_package (map ev parsed) f).
      split; [now apply in_map|]. unfold ev in Hfk. rewrite enrich_value_key in Hfk.
      split; [rewrite merged_package_key; congruence|].
      apply merged_package_names. exists (ev p).
      split; [now apply in_map|]. unfold ev at 1. rewrite enrich_value_key.
      split; [congruence|]. now apply enrich_value_names.
Qed.

Lemma report_packages_sound_complete_witness :
  MainExamples.report <> []
  /\ NoDup (map Package.unique_key MainExamples.report)
  /\ (forall k, In k (map Package.unique_key MainExamples.report)
                <-> In k (map Package.unique_key
                            (SyftOutputParser.parse MainExamples.manifest)))
  /\ (forall k n,
        (exists q, In q MainExamples.report /\ Package.unique_key q = k
                   /\ In n (map License.name (Package.licenses q)))
        <-> (exists p, In p (SyftOutputParser.parse MainExamples.manifest)
                       /\ Package.unique_key p = k
                       /\ (In n (map License.name (Package.licenses p))
                           \/ (Package.licenses p = []
                               /\ In n (map License.name
                                          (snd (LicenseEnricher._lookup_package_licenses
                                                  Examples.chain_registry
                                                  Examples.no_github p))))))).
Proof.
  apply (report_packages_sound_complete Examples.chain_registry Examples.no_github
           MainExamples.manifest MainExamples.report).
  vm_compute. reflexivity.
Defined.

(** ** The GitHub client *)

Section Cutting.

Variable m : Re.matcher.

Local Open Scope list_scope.

Lemma split_from_nomatch (s : string) :
  (forall a b, s = (a ++ b)%string -> m b = None) -> Re.split_from m 0 s = [s].
Proof.
  induction s as [|c s IH]; intros H; [reflexivity|].
  cbn [Re.split_from]. rewrite (H EmptyString (String c s) eq_refl).
  rewrite IH; [reflexivity|]. intros a b ->. now apply (H (String c a)).
Qed.

Lemma split_from_skip (u s : string) :
  Re.split_from m (String.length u) (u ++ s)%string = Re.split_from m 0 s.
Proof. induction u as [|c u IH]; [reflexivity|]. rewrite app_cons. exact IH. Qed.

Lemma split_from_first (pre rest : string) (k : nat) :
  (forall a b, pre = (a ++ b)%string -> b <> EmptyString ->
               m (b ++ rest)%string = None) ->
  rest <> EmptyString -> m rest = Some (S k) ->
  Re.split_from m 0 (pre ++ rest)%string
  = pre :: Re.split_from m k (Re.drop 1 rest).
Proof.
  intros H Hr Hm. induction pre as [|c pre IH].
  - rewrite app_nil. destruct rest as [|c r]; [congruence|].
    cbn [Re.split_from Re.drop]. now rewrite Hm.
  - pose proof (H EmptyString (String c pre) eq_refl ltac:(discriminate)) as Hc.
    rewrite app_cons in *. cbn [Re.split_from]. rewrite Hc.
    rewrite IH; [reflexivity|]. intros a b -> Hb. now apply (H (String c a)).
Qed.

Lemma remove_from_nomatch (s : string) :
  (forall a b, s = (a ++ b)%string -> m b = None) -> Re.remove_from m 0 s = s.
Proof.
  induction s as [|c s IH]; intros H; [reflexivity|].
  cbn [Re.remove_from]. rewrite (H EmptyString (String c s) eq_refl).
  rewrite IH; [reflexivity|]. intros a b ->. now apply (H (String c a)).
Qed.

Lemma remove_from_skip (u s : string) :
  Re.remove_from m (String.length u) (u ++ s)%string = Re.remove_from m 0 s.
Proof. induction u as [|c u IH]; [reflexivity|]. rewrite app_cons. exact IH. Qed.

Lemma remove_from_first (pre rest : string) (k : nat) :
  (forall a b, pre = (a ++ b)%string -> b <> EmptyString ->
               m (b ++ rest)%string = None) ->
  rest <> EmptyString -> m rest = Some (S k) ->
  Re.remove_from m 0 (pre ++ rest)%string
  = (pre ++ Re.remove_from m k (Re.drop 1 rest))%string.
Proof.
  intros H Hr Hm. induction pre as [|c pre IH].
  - rewrite !app_nil. destruct rest as [|c r]; [congruence|].
    cbn [Re.remove_from Re.drop]. now rewrite Hm.
  - pose proof (H EmptyString (String c pre) eq_refl ltac:(discriminate)) as Hc.
    rewrite !app_cons in *. cbn [Re.remove_from]. rewrite Hc.
    rewrite IH; [reflexivity|]. intros a b -> Hb. now apply (H (String c a)).
Qed.

End Cutting.

Section Substrings.

Lemma str_length_app (a b : string) :
  String.length (a ++ b) = (String.length a + String.length b)%nat.
Proof. induction a as [|c a IH]; [reflexivity|]. rewrite app_cons. simpl. now rewrite IH. Qed.

Lemma prefix_cons_true (a b : ascii) (p s : string) :
  String.prefix (String a p) (String b s) = true ->
  a = b /\ String.prefix p s = true.
Proof. cbn [String.prefix]. destruct (ascii_dec a b); [auto|discriminate]. Qed.

Lemma prefix_app_l (p s x : string) :
  String.prefix p s = true -> String.prefix p (s ++ x) = true.
Proof.
  revert s. induction p as [|a p IH]; intros s; [now destruct (s ++ x)|].
  destruct s as [|b s]; [discriminate|]. rewrite app_cons.
  intros [-> H]%prefix_cons_true. cbn [String.prefix].
  destruct (ascii_dec b b); [auto|congruence].
Qed.

Lemma prefix_snoc (p s : string) (c : ascii) :
  String.prefix p (s ++ String c EmptyString) = true -> has_char c p = false ->
  String.prefix p s = true.
Proof.
  revert s. induction p as [|a p IH]; intros s; [now destruct s|].
  cbn [has_char]. destruct s as [|b s].
  - rewrite app_nil. intros [-> _]%prefix_cons_true. now rewrite Ascii.eqb_refl.
  - rewrite app_cons. intros [-> H]%prefix_cons_true [_ Hc]%orb_false_elim.
    cbn [String.prefix]. destruct (ascii_dec b b); [auto|congruence].
Qed.

Lemma contains_unfold (needle hay : string) :
  Str.contains needle hay
  = String.prefix needle hay
    || match hay with
       | EmptyString => false
       | String _ hay' => Str.contains needle hay'
       end.
Proof. destruct hay; reflexivity. Qed.

Lemma contains_suffix (needle a b : string) :
  Str.contains needle (a ++ b) = false -> Str.contains needle b = false.
Proof.
  induction a as [|c a IH]; [now rewrite app_nil|]. rewrite app_cons.
  cbn [Str.contains]. intros [_ H]%orb_false_elim. auto.
Qed.

Lemma contains_app_r (needle a b : string) :
  Str.contains needle b = true -> Str.contains needle (a ++ b) = true.
Proof.
  intros H. destruct (Str.contains needle (a ++ b)) eqn:E; [reflexivity|].
  apply contains_suffix in E. congruence.
Qed.

Lemma contains_app_l (needle a x : string) :
  Str.contains needle a = true -> Str.contains needle (a ++ x) = true.
Proof.
  induction a as [|c a IH].
  - rewrite contains_unfold, orb_false_r. destruct needle; [|discriminate].
    intros _. rewrite contains_unfold. now destruct (EmptyString ++ x).
  - rewrite app_cons. cbn [Str.contains]. intros [H|H]%orb_prop.
    + rewrite <- app_cons, (prefix_app_l _ _ x H). reflexivity.
    + rewrite (IH H). apply orb_true_r.
Qed.

Lemma contains_snoc (needle a : string) (c : ascii) :
  needle <> EmptyString -> has_char c needle = false ->
  Str.contains needle (a ++ String c EmptyString) = true ->
  Str.contains needle a = true.
Proof.
  intros Hn Hc. induction a as [|d a IH].
  - rewrite app_nil. cbn [Str.contains]. rewrite orb_false_r.
    destruct needle as [|x p]; [congruence|]. cbn [has_char] in Hc.
    apply orb_false_elim in Hc as [Hx _].
    intros [[-> _]%prefix_cons_true|H]%orb_prop; [|discriminate].
    now rewrite Ascii.eqb_refl in Hx.
  - rewrite app_cons. cbn [Str.contains]. intros [H|H]%orb_prop.
    + rewrite <- app_cons in H. now rewrite (prefix_snoc _ _ _ H Hc).
    + rewrite (IH H). apply orb_true_r.
Qed.

Lemma contains_self (needle a b : string) :
  Str.contains needle (a ++ needle ++ b) = true.
Proof.
  apply contains_app_r, contains_app_l.
  rewrite contains_unfold. replace (String.prefix needle needle) with true; [reflexivity|].
  symmetry. induction needle as [|c n IH]; [reflexivity|]. cbn [String.prefix].
  destruct (ascii_dec c c); [exact IH|congruence].
Qed.

(** A literal separator matches nowhere in a text that does not contain it. *)
Lemma literal_nomatch (sep s : string) :
  Str.contains sep s = false ->
  forall a b, s = a ++ b -> GitHubClient.literal sep b = None.
Proof.
  intros H a b ->. apply contains_suffix in H. rewrite contains_unfold in H.
  apply orb_false_elim in H as [H _].
  unfold GitHubClient.literal, Str.startswith. now rewrite H.
Qed.

Lemma suffix_after_char (x path a g : string) (c : ascii) :
  x ++ String c path = a ++ g -> has_char c g = false ->
  exists a', path = a' ++ g.
Proof.
  revert a. induction x as [|e x IH]; intros a H Hg.
  - rewrite app_nil in H. destruct a as [|d a].
    + rewrite app_nil in H. subst g. now rewrite has_char_here in Hg.
    + rewrite app_cons in H. injection H as _ ->. eauto.
  - rewrite app_cons in H. destruct a as [|d a].
    + rewrite app_nil in H. subst g. rewrite <- app_cons, has_char_app in Hg.
      rewrite has_char_here, orb_true_r in Hg. discriminate.
    + rewrite app_cons in H. injection H as _ H. eauto.
Qed.

End Substrings.

Section RepoPath.

Abbreviation slash_sep := "github.com/".
Abbreviation LFs := (String Re.LF EmptyString).

Lemma git_suffix_inv (s : string) (k : nat) :
  GitHubClient.git_suffix s = Some k ->
  k = 4%nat /\ (s = ".git" \/ s = ".git" ++ LFs).
Proof.
  unfold GitHubClient.git_suffix.
  destruct (Str.startswith s ".git") eqn:Hs; [|discriminate]. cbn [andb].
  destruct (GitHubClient.at_end (Re.drop 4 s)) eqn:He; [|discriminate].
  intros [= <-]. split; [reflexivity|].
  apply startswith_drop in Hs. change (String.length ".git") with 4%nat in Hs.
  unfold GitHubClient.at_end in He. destruct (Re.drop 4 s) as [|c r] eqn:Hd.
  - left. exact Hs.
  - cbn [Str.is_empty orb] in He. apply String.eqb_eq in He. rewrite He in Hs.
    right. exact Hs.
Qed.

(** The pattern matches at the end only. *)
Lemma git_suffix_inside (b t : string) :
  b <> EmptyString -> t = EmptyString \/ t = LFs ->
  GitHubClient.git_suffix (b ++ ".git" ++ t) = None.
Proof.
  intros Hb Ht. destruct (GitHubClient.git_suffix _) as [k|] eqn:E; [exfalso|reflexivity].
  apply git_suffix_inv in E as [_ E].
  assert (L : (String.length b + (4 + String.length t))%nat
              = String.length (b ++ ".git" ++ t))
    by (now rewrite !str_length_app).
  destruct b as [|c [|d b]]; [congruence| |].
  - destruct Ht as [->| ->], E as [E|E]; rewrite E in L;
      rewrite ?str_length_app in L; cbn in L; try lia.
    vm_compute in E. congruence.
  - destruct Ht as [->| ->], E as [E|E]; rewrite E in L;
      rewrite ?str_length_app in L; cbn in L; lia.
Qed.

Lemma remove_git_suffix_app (w t : string) :
  t = EmptyString \/ t = LFs ->
  Re.remove GitHubClient.git_suffix (w ++ ".git" ++ t) = w ++ t.
Proof.
  intros Ht. unfold Re.remove.
  rewrite (remove_from_first _ w (".git" ++ t) 3).
  - destruct Ht as [->| ->]; reflexivity.
  - intros a b _ Hb. now apply git_suffix_inside.
  - destruct Ht as [->| ->]; discriminate.
  - destruct Ht as [->| ->]; reflexivity.
Qed.

Lemma remove_git_suffix_cases (s : string) :
  Re.remove GitHubClient.git_suffix s = s
  \/ exists a t, s = a ++ ".git" ++ t /\ (t = EmptyString \/ t = LFs)
                 /\ Re.remove GitHubClient.git_suffix s = a ++ t.
Proof.
  unfold Re.remove. induction s as [|c s IH]; [now left|].
  destruct (GitHubClient.git_suffix (String c s)) as [k|] eqn:E.
  - right. apply git_suffix_inv in E as [_ [E|E]]; rewrite E.
    + exists EmptyString, EmptyString. auto.
    + exists EmptyString, LFs. auto.
  - cbn [Re.remove_from]. rewrite E. destruct IH as [->|(a & t & -> & Ht & ->)].
    + now left.
    + right. exists (String c a), t. auto.
Qed.

Lemma remove_git_suffix_contains (s : string) :
  Str.contains slash_sep s = false ->
  Str.contains slash_sep (Re.remove GitHubClient.git_suffix s) = false.
Proof.
  intros H. destruct (remove_git_suffix_cases s) as [->|(a & t & -> & Ht & ->)];
    [exact H|].
  destruct (Str.contains slash_sep (a ++ t)) eqn:E; [|reflexivity].
  rewrite <- H. symmetry. apply contains_app_l. destruct Ht as [->| ->].
  - now rewrite str_app_nil_r in E.
  - apply contains_snoc in E; [exact E|discriminate|reflexivity].
Qed.

(** The separator has no border: an occurrence that begins in [b] ends in [b]. *)
Lemma literal_github_border (b rest : string) :
  b <> EmptyString -> Str.contains slash_sep b = false ->
  GitHubClient.literal slash_sep (b ++ slash_sep ++ rest) = None.
Proof.
  intros Hb Hc. unfold GitHubClient.literal, Str.startswith.
  destruct (String.prefix slash_sep (b ++ slash_sep ++ rest)) eqn:H; [exfalso|reflexivity].
  rewrite contains_unfold in Hc. apply orb_false_elim in Hc as [Hp _].
  destruct b as [|c b]; [congruence|]. clear Hb.
  do 10 (destruct b as [|? b];
         [ rewrite ?app_cons, ?app_nil in H;
           repeat (let E := fresh "E" in
                   apply prefix_cons_true in H as [E H]; try discriminate E; subst)
         | ]).
  rewrite ?app_cons, ?app_nil in H.
  do 11 (let E := fresh "E" in apply prefix_cons_true in H as [E H]; subst).
  enough (true = false) by discriminate. rewrite <- Hp. symmetry.
  exact (prefix_app_l slash_sep slash_sep b eq_refl).
Qed.

Lemma split_github (pre path : string) :
  Str.contains slash_sep pre = false -> Str.contains slash_sep path = false ->
  Re.split (GitHubClient.literal slash_sep) (pre ++ slash_sep ++ path)
  = [pre; path].
Proof.
  intros Hpre Hpath. unfold Re.split.
  rewrite (split_from_first _ pre (slash_sep ++ path) 10).
  - change (Re.drop 1 (slash_sep ++ path)) with ("ithub.com/" ++ path).
    rewrite (split_from_skip _ "ithub.com/" path).
    now rewrite (split_from_nomatch _ path (literal_nomatch _ _ Hpath)).
  - intros a b -> Hb. apply literal_github_border; [assumption|].
    now apply contains_suffix in Hpre.
  - discriminate.
  - unfold GitHubClient.literal, Str.startswith.
    replace (String.prefix slash_sep (slash_sep ++ path)) with true; [reflexivity|].
    symmetry. apply (prefix_app_l slash_sep slash_sep path). reflexivity.
Qed.

Lemma no_git_suffix_app (w path : string) :
  Re.remove GitHubClient.git_suffix path = path ->
  Re.remove GitHubClient.git_suffix (w ++ String "/" path) = w ++ String "/" path.
Proof.
  intros Hpath.
  destruct (remove_git_suffix_cases (w ++ String "/" path))
    as [H|(a & t & E & Ht & _)]; [exact H|exfalso].
  apply suffix_after_char in E as [a' E].
  - rewrite E, (remove_git_suffix_app a' t Ht) in Hpath.
    apply (f_equal String.length) in Hpath. rewrite !str_length_app in Hpath.
    cbn in Hpath. lia.
  - destruct Ht as [->| ->]; reflexivity.
Qed.

End RepoPath.

(** X16. [get_license_from_repo_url] returns the empty list, whatever the
    API would answer, for every URL that does not contain github.com
    followed by a slash: either the first test fails or indexing the split
    raises, as for an SSH address. *)
Theorem get_license_from_repo_url_needs_slash
    (license_at : string -> list License.t) (repo_url : string) :
  Str.contains "github.com/" repo_url = false ->
  GitHubClient.get_license_from_repo_url license_at repo_url = [].
Proof.
  intros H. unfold GitHubClient.get_license_from_repo_url.
  destruct (negb _); [reflexivity|].
  unfold GitHubClient.repo_path, Re.split.
  rewrite (split_from_nomatch _ _
             (literal_nomatch _ _ (remove_git_suffix_contains _ H))).
  reflexivity.
Qed.

Lemma get_license_from_repo_url_needs_slash_witness :
  GitHubClient.get_license_from_repo_url
    (fun _ => [License.mk "MIT" None]) "git@github.com:owner/repo.git" = [].
Proof. apply get_license_from_repo_url_needs_slash. reflexivity. Defined.

(** X17. The repository asked about: for a URL made of a prefix, github.com
    and a slash, and a path, where neither prefix nor path contains
    github.com followed by a slash, the function returns what the API gives
    for the address of that path, with one final .git removed: for the URL
    with .git appended, and for the URL as it is when the path does not end
    in .git. *)
Theorem get_license_from_repo_url_path
    (license_at : string -> list License.t) (pre path : string) :
  Str.contains "github.com/" pre = false ->
  Str.contains "github.com/" path = false ->
  GitHubClient.get_license_from_repo_url license_at
    (pre ++ "github.com/" ++ path ++ ".git")
  = license_at ("https://api.github.com/repos/" ++ path ++ "/license")
  /\ (Re.remove GitHubClient.git_suffix path = path ->
      GitHubClient.get_license_from_repo_url license_at
        (pre ++ "github.com/" ++ path)
      = license_at ("https://api.github.com/repos/" ++ path ++ "/license")).
Proof.
  intros Hpre Hpath.
  assert (Hin : forall x, Str.contains "github.com" (pre ++ "github.com/" ++ x) = true).
  { intros x. change ("github.com/" ++ x) with ("github.com" ++ String "/" x).
    apply contains_self. }
  unfold GitHubClient.get_license_from_repo_url, GitHubClient.repo_path.
  rewrite !Hin. cbn [negb]. split.
  - replace (pre ++ "github.com/" ++ path ++ ".git")
      with ((pre ++ "github.com/" ++ path) ++ ".git" ++ EmptyString)
      by (now rewrite !str_app_assoc, str_app_nil_r).
    rewrite remove_git_suffix_app by auto. rewrite str_app_nil_r.
    now rewrite split_github.
  - intros Hgit.
    change (pre ++ "github.com/" ++ path)
      with (pre ++ "github.com" ++ String "/" path).
    rewrite <- str_app_assoc, (no_git_suffix_app _ _ Hgit), str_app_assoc.
    change (pre ++ "github.com" ++ String "/" path)
      with (pre ++ "github.com/" ++ path).
    now rewrite split_github.
Qed.

Lemma get_license_from_repo_url_path_witness :
  GitHubClient.get_license_from_repo_url (fun api_url => [License.mk api_url None])
    ("scm:git:https://" ++ "github.com/" ++ "owner/repo" ++ ".git")
  = [License.mk ("https://api.github.com/repos/" ++ "owner/repo" ++ "/license") None]
  /\ (Re.remove GitHubClient.git_suffix "owner/repo" = "owner/repo" ->
      GitHubClient.get_license_from_repo_url (fun api_url => [License.mk api_url None])
        ("scm:git:https://" ++ "github.com/" ++ "owner/repo")
      = [License.mk ("https://api.github.com/repos/" ++ "owner/repo" ++ "/license")
           None]).
Proof.
  apply (get_license_from_repo_url_path (fun api_url => [License.mk api_url None])
           "scm:git:https://" "owner/repo"); reflexivity.
Defined.

(** ** Declared licenses and license names *)

Section Declared.

Variable gh : string -> list License.t.

Local Open Scope list_scope.

Lemma license_make_canonical (name context : string) :
  License.make name (get_canonical_license_url name context)
  = License.mk name (get_canonical_license_url name EmptyString).
Proof.
  change (get_canonical_license_url name context)
    with (get_canonical_license_url name EmptyString).
  unfold License.make. now destruct (License.url_truthy _).
Qed.

Lemma license_of_element_declared (e : ET.Element) :
  MavenCentralClient.license_of_element e
  = if Str.truthy (declared_name e) then [declared_license e] else [].
Proof.
  unfold MavenCentralClient.license_of_element.
  fold (declared_name e). fold (declared_url e).
  destruct (Str.truthy (declared_name e)); [|reflexivity]. f_equal.
  unfold declared_license. destruct (Str.truthy (declared_url e)) eqn:Hu.
  - unfold License.make. cbn [License.url_truthy]. now rewrite Hu.
  - apply license_make_canonical.
Qed.

Lemma declared_licenses_In (elems : list ET.Element) (lic : License.t) :
  In lic (flat_map MavenCentralClient.license_of_element elems)
  <-> exists e, In e elems /\ declared_name e <> EmptyString
                /\ lic = declared_license e.
Proof.
  rewrite in_flat_map. split.
  - intros (e & He & Hl). rewrite license_of_element_declared in Hl.
    destruct (declared_name e) eqn:En; cbn in Hl; [destruct Hl|].
    destruct Hl as [<-|[]]. exists e. rewrite En. auto.
  - intros (e & He & Hn & ->). exists e. split; [assumption|].
    rewrite license_of_element_declared.
    destruct (declared_name e); [congruence|]. now left.
Qed.

Lemma extract_licenses_unfold (pom : ET.Element) :
  MavenCentralClient.extract_licenses_from_pom gh pom
  = let licenses :=
      flat_map MavenCentralClient.license_of_element (license_elements pom) in
    if nonempty licenses then licenses
    else
      let scm_url :=
        str_or (ET.findtext_desc_child (MavenCentralClient.m "scm")
                  (MavenCentralClient.m "url") pom)
               (ET.findtext_desc_child "scm" "url" pom) in
      if Str.truthy scm_url then gh scm_url else [].
Proof. reflexivity. Qed.

Lemma declared_license_named (e : ET.Element) :
  declared_name e <> EmptyString -> named (declared_license e).
Proof.
  intros Hn. split; [exact Hn|]. cbn [declared_license License.name].
  apply strip_idem.
Qed.

End Declared.

(** X18. Declared licenses come first. When some license element of the
    descriptor has a name that is not blank, [extract_licenses_from_pom]
    does not consult the repository host, and its entries are exactly those
    of the license elements with such a name: the trimmed name, with the
    element's own trimmed URL when that is not blank and the canonical URL
    of the name otherwise. Elements without a name are dropped. *)
Theorem extract_licenses_declared_first
    (gh : string -> list License.t) (pom : ET.Element) (e0 : ET.Element) :
  In e0 (license_elements pom) -> declared_name e0 <> EmptyString ->
  (forall gh', MavenCentralClient.extract_licenses_from_pom gh' pom
               = MavenCentralClient.extract_licenses_from_pom gh pom)
  /\ (forall lic,
        In lic (MavenCentralClient.extract_licenses_from_pom gh pom)
        <-> exists e, In e (license_elements pom)
                      /\ declared_name e <> EmptyString
                      /\ lic = declared_license e)
  /\ (forall lic,
        In lic (MavenCentralClient.extract_licenses_from_pom gh pom) -> named lic).
Proof.
  intros He0 Hn0.
  assert (Hex : forall g, MavenCentralClient.extract_licenses_from_pom g pom
                          = flat_map MavenCentralClient.license_of_element
                              (license_elements pom)).
  { intros g. rewrite extract_licenses_unfold. cbv zeta.
    destruct (flat_map _ _) as [|l ls] eqn:E; [|reflexivity].
    assert (Hin : In (declared_license e0)
                    (flat_map MavenCentralClient.license_of_element
                       (license_elements pom)))
      by (apply declared_licenses_In; eauto).
    rewrite E in Hin. destruct Hin. }
  split; [intros gh'; now rewrite !Hex|]. rewrite Hex.
  split; [intros lic; apply declared_licenses_In|].
  intros lic (e & _ & Hn & ->)%declared_licenses_In.
  now apply declared_license_named.
Qed.

Lemma extract_licenses_declared_first_witness :
  (forall gh', MavenCentralClient.extract_licenses_from_pom gh' Examples.pom_with_license
               = MavenCentralClient.extract_licenses_from_pom Examples.no_github
                   Examples.pom_with_license)
  /\ (forall lic,
        In lic (MavenCentralClient.extract_licenses_from_pom Examples.no_github
                  Examples.pom_with_license)
        <-> exists e, In e (license_elements Examples.pom_with_license)
                      /\ declared_name e <> EmptyString
                      /\ lic = declared_license e)
  /\ (forall lic,
        In lic (MavenCentralClient.extract_licenses_from_pom Examples.no_github
                  Examples.pom_with_license) -> named lic).
Proof.
  apply (extract_licenses_declared_first Examples.no_github Examples.pom_with_license
           (ET.Elem (MavenCentralClient.m "license") EmptyString
              [ Examples.leaf "name" "MIT License";
                Examples.leaf "url" "https://opensource.org/licenses/MIT" ])).
  - vm_compute. auto.
  - vm_compute. discriminate.
Defined.

Section Named.

Variable fetch_pom : string -> string -> string -> option ET.Element.
Variable gh : string -> list License.t.

Hypothesis gh_named : forall repo_url lic, In lic (gh repo_url) -> named lic.

Local Open Scope list_scope.

Lemma parsed_license_named (license_text : string) (lic : License.t) :
  In lic (SyftOutputParser._parse_license_text license_text) -> named lic.
Proof.
  unfold SyftOutputParser._parse_license_text.
  destruct (negb (Str.truthy license_text) || String.eqb license_text "-");
    [intros []|].
  rewrite parse_license_text_parts.
  intros (n & <- & [Hn Ht]%filter_In)%in_map_iff.
  apply in_map_iff in Hn as (part & <- & _).
  unfold License.make. cbn [License.url_truthy]. split; cbn [License.name].
  - now destruct (clean_fragment part).
  - apply strip_idem.
Qed.

Lemma parsed_package_named (syft_output : string) (p : Package.t) (lic : License.t) :
  In p (SyftOutputParser.parse syft_output) -> In lic (Package.licenses p) ->
  named lic.
Proof.
  unfold SyftOutputParser.parse.
  intros (line & _ & Hline)%list_elem_of_In%list_elem_of_omap.
  unfold SyftOutputParser.parse_line in Hline.
  destruct (negb (Str.truthy (Str.strip line))); [discriminate|].
  destruct (Re.package_pattern (Str.strip line)) as [[[[g1 g2] g3] g4]|];
    [|discriminate].
  injection Hline as <-. cbn [Package.licenses]. apply parsed_license_named.
Qed.

Lemma extract_licenses_named (pom : ET.Element) (lic : License.t) :
  In lic (MavenCentralClient.extract_licenses_from_pom gh pom) -> named lic.
Proof.
  rewrite extract_licenses_unfold. cbv zeta.
  destruct (flat_map _ _) as [|l ls] eqn:E; cbn [nonempty].
  - destruct (Str.truthy _); [apply gh_named|intros []].
  - rewrite <- E. intros (e & _ & Hn & ->)%declared_licenses_In.
    now apply declared_license_named.
Qed.

Lemma lookup_named (stack : nat) (g a v : string) (d : Z)
    (licenses : list License.t) (lic : License.t) :
  MavenCentralClient.lookup_license_recursively fetch_pom gh stack g a v d
  = Some licenses ->
  In lic licenses -> named lic.
Proof.
  revert g a v d. induction stack as [|stack IH]; intros g a v d;
    cbn [MavenCentralClient.lookup_license_recursively]; [discriminate|].
  destruct (d =? 0)%Z; [intros [= <-] []|].
  destruct (fetch_pom g a v) as [pom|]; [|intros [= <-] []].
  destruct (nonempty (MavenCentralClient.extract_licenses_from_pom gh pom)).
  - intros [= <-]. apply extract_licenses_named.
  - destruct (MavenCentralClient.parent_coordinates g pom) as [[[pg pa] pv]|];
      [apply IH|intros [= <-] []].
Qed.

Lemma apply_rules_In (rules : list PackageHeuristics.rule) (p : Package.t)
    (lic : License.t) :
  In lic (PackageHeuristics.apply_rules rules p) ->
  In lic (map PackageHeuristics.license rules).
Proof.
  induction rules as [|r rules IH]; cbn [PackageHeuristics.apply_rules map];
    [intros []|].
  destruct (existsb _ _); [intros [<-|[]]; now left|]. intros H. right. auto.
Qed.

Lemma heuristics_named (p : Package.t) (lic : License.t) :
  In lic (PackageHeuristics.apply_heuristics p) -> named lic.
Proof.
  intros H%apply_rules_In. cbn in H.
  repeat (destruct H as [<-|H]; [split; [discriminate|reflexivity]|]).
  destruct H.
Qed.

Lemma lookup_package_named (p : Package.t) (lic : License.t) :
  In lic (snd (LicenseEnricher._lookup_package_licenses fetch_pom gh p)) ->
  named lic.
Proof.
  unfold LicenseEnricher._lookup_package_licenses.
  destruct (LicenseEnricher._extract_maven_coordinates _) as [[[g a] v]|];
    [|apply heuristics_named].
  destruct (nonempty _) eqn:E; cbn [snd]; [|apply heuristics_named].
  unfold LicenseEnricher.lookup_license_default in *.
  destruct (MavenCentralClient.lookup_license_recursively _ _ _ _ _ _ _) eqn:El;
    [|intros []].
  now apply (lookup_named _ _ _ _ _ _ _ El).
Qed.

Lemma merged_package_In (packages : list Package.t) (f : Package.t)
    (lic : License.t) :
  In lic (Package.licenses (DedupSpec.merged_package packages f)) ->
  exists p, In p packages /\ In lic (Package.licenses p).
Proof.
  cbn [DedupSpec.merged_package Package.licenses]. unfold DedupSpec.union_by_name.
  intros (p & [Hp _]%filter_In & Hl)%first_seen_In%in_flat_map. eauto.
Qed.

End Named.

(** X19. No blank license name reaches the report. If every entry the
    repository host returns has a name that is not empty and has no
    whitespace at either end, so has every license of every package [main]
    hands to the report generator, whether it was parsed, declared by a
    descriptor of the registry, or given by a heuristic. *)
Theorem report_licenses_named
    (fetch_pom : string -> string -> string -> option ET.Element)
    (gh : string -> list License.t)
    (syft_output : string) (result : list Package.t) :
  (forall repo_url lic, In lic (gh repo_url) -> named lic) ->
  Main.report_packages fetch_pom gh syft_output = Some result ->
  forall q lic, In q result -> In lic (Package.licenses q) -> named lic.
Proof.
  intros Hgh [_ ->]%report_packages_Some q lic.
  rewrite deduplicate_spec. unfold DedupSpec.deduplicate.
  intros (f & <- & _)%in_map_iff (p' & (p & <- & Hp)%in_map_iff & Hl)%merged_package_In.
  unfold enrich_value, enriched in Hl.
  destruct (Package.has_licenses p); [now apply (parsed_package_named syft_output p)|].
  destruct (nonempty _); [|now apply (parsed_package_named syft_output p)].
  cbn [Package.licenses] in Hl. now apply (lookup_package_named fetch_pom gh Hgh p).
Qed.

Lemma report_licenses_named_witness :
  named (License.mk "MIT License" (Some "https://opensource.org/licenses/MIT")).
Proof.
  apply (report_licenses_named Examples.chain_registry Examples.no_github
           MainExamples.manifest MainExamples.report)
    with (q := Package.mk "a3" "1" "pkg:maven/org.example/a3@1"
                 [ License.mk "MIT License" (Some "https://opensource.org/licenses/MIT");
                   License.mk "BSD-3-Clause"
                     (Some "https://opensource.org/licenses/BSD-3-Clause") ]
                 LicenseEnricher.enriched_source).
  - intros repo_url lic [].
  - vm_compute. reflexivity.
  - vm_compute. auto.
  - vm_compute. auto.
Defined.

(** ** Normalization of license names *)

Section Normalization.

Lemma isspace_lower_char (c : ascii) :
  Str.isspace (Str.lower_char c) = Str.isspace c.
Proof. destruct c as [[] [] [] [] [] [] [] []]; reflexivity. Qed.

Lemma lower_app (a b : string) : Str.lower (a ++ b) = Str.lower a ++ Str.lower b.
Proof.
  induction a as [|c a IH]; [reflexivity|].
  rewrite app_cons. cbn [Str.lower]. now rewrite IH, app_cons.
Qed.

Lemma all_space_lower (w : string) : all_space (Str.lower w) = all_space w.
Proof.
  induction w as [|c w IH]; [reflexivity|]. cbn [Str.lower all_space].
  now rewrite isspace_lower_char, IH.
Qed.

Lemma lstrip_lower (s : string) :
  Str.lstrip_by Str.isspace (Str.lower s) = Str.lower (Str.lstrip_by Str.isspace s).
Proof.
  induction s as [|c s IH]; [reflexivity|]. cbn [Str.lower Str.lstrip_by].
  rewrite isspace_lower_char. now destruct (Str.isspace c).
Qed.

Lemma rstrip_lower (s : string) :
  Str.rstrip_by Str.isspace (Str.lower s) = Str.lower (Str.rstrip_by Str.isspace s).
Proof.
  induction s as [|c s IH]; [reflexivity|]. cbn [Str.lower Str.rstrip_by].
  rewrite isspace_lower_char, IH.
  replace (Str.is_empty (Str.lower (Str.rstrip_by Str.isspace s)))
    with (Str.is_empty (Str.rstrip_by Str.isspace s))
    by (now destruct (Str.rstrip_by Str.isspace s)).
  now destruct (Str.is_empty _ && Str.isspace c).
Qed.

Lemma strip_lower (s : string) : Str.strip (Str.lower s) = Str.lower (Str.strip s).
Proof. unfold Str.strip, Str.strip_by. now rewrite lstrip_lower, rstrip_lower. Qed.

Lemma rstrip_by_snoc (p : ascii -> bool) (s : string) (c : ascii) :
  p c = true ->
  Str.rstrip_by p (s ++ String c EmptyString) = Str.rstrip_by p s.
Proof.
  intros Hc. induction s as [|d s IH].
  - rewrite app_nil. cbn [Str.rstrip_by Str.is_empty andb]. now rewrite Hc.
  - rewrite app_cons. cbn [Str.rstrip_by]. now rewrite IH.
Qed.

Lemma strip_by_wrap (p : ascii -> bool) (x : string) (c : ascii) :
  p c = true ->
  Str.strip_by p (String c (x ++ String c EmptyString)) = Str.strip_by p x.
Proof.
  intros Hc. unfold Str.strip_by. cbn [Str.lstrip_by]. rewrite Hc.
  induction x as [|d x IH].
  - rewrite app_nil. cbn [Str.lstrip_by]. now rewrite Hc.
  - rewrite app_cons. cbn [Str.lstrip_by]. destruct (p d); [exact IH|].
    rewrite <- app_cons. now apply rstrip_by_snoc.
Qed.

Lemma normalize_space (w1 a w2 : string) :
  all_space w1 = true -> all_space w2 = true ->
  LicenseMapper.normalize (w1 ++ a ++ w2) = LicenseMapper.normalize a.
Proof.
  intros H1 H2. unfold LicenseMapper.normalize. rewrite !lower_app.
  rewrite strip_app_space_l by now rewrite all_space_lower.
  now rewrite strip_app_space_r by now rewrite all_space_lower.
Qed.

Lemma normalize_quoted (a : string) :
  Str.strip a = a ->
  LicenseMapper.normalize (String Str.dquote (a ++ String Str.dquote EmptyString))
  = LicenseMapper.normalize a.
Proof.
  intros Ha. unfold LicenseMapper.normalize.
  rewrite (strip_lower a), Ha. cbn [Str.lower]. rewrite lower_app.
  change (Str.lower (String Str.dquote EmptyString)) with (String Str.dquote EmptyString).
  change (Str.lower_char Str.dquote) with Str.dquote.
  assert (Hs : Str.strip (String Str.dquote (Str.lower a ++ String Str.dquote EmptyString))
               = String Str.dquote (Str.lower a ++ String Str.dquote EmptyString)).
  { unfold Str.strip, Str.strip_by. cbn [Str.lstrip_by].
    change (Str.isspace Str.dquote) with false. cbv iota.
    rewrite <- app_cons. rewrite rstrip_app_keep by (vm_compute; discriminate).
    reflexivity. }
  rewrite Hs. unfold Str.strip_quotes. apply strip_by_wrap. reflexivity.
Qed.

End Normalization.

(** X20. [get_url] looks at a name up to case, surrounding whitespace and
    surrounding double quotes: two names that are equal after lower-casing
    get the same URL, also with whitespace around one of them and under
    different contexts; and a name without whitespace at either end gets the
    same URL with double quotes around it. *)
Theorem get_url_insensitive (a b w1 w2 context context' : string) :
  Str.lower a = Str.lower b -> all_space w1 = true -> all_space w2 = true ->
  LicenseMapper.get_url (w1 ++ a ++ w2) context = LicenseMapper.get_url b context'
  /\ (Str.strip a = a ->
      LicenseMapper.get_url (String Str.dquote (a ++ String Str.dquote EmptyString))
        context
      = LicenseMapper.get_url b context').
Proof.
  intros Hl H1 H2.
  assert (Hn : LicenseMapper.normalize a = LicenseMapper.normalize b)
    by (unfold LicenseMapper.normalize; now rewrite Hl).
  split.
  - unfold LicenseMapper.get_url. now rewrite normalize_space, Hn.
  - intros Ha. unfold LicenseMapper.get_url. now rewrite normalize_quoted, Hn.
Qed.

Lemma get_url_insensitive_witness :
  LicenseMapper.get_url ("  " ++ "Apache License, Version 2.0" ++ " ") "Maven POM"
  = LicenseMapper.get_url "APACHE LICENSE, VERSION 2.0" EmptyString
  /\ (Str.strip "Apache License, Version 2.0" = "Apache License, Version 2.0" ->
      LicenseMapper.get_url
        (String Str.dquote
           ("Apache License, Version 2.0" ++ String Str.dquote EmptyString))
        "Maven POM"
      = LicenseMapper.get_url "APACHE LICENSE, VERSION 2.0" EmptyString).
Proof.
  apply (get_url_insensitive "Apache License, Version 2.0"
           "APACHE LICENSE, VERSION 2.0" "  " " " "Maven POM" EmptyString);
    reflexivity.
Defined.

(** ** The fields of a reported package *)

Section Labels.

Variable fetch_pom : string -> string -> string -> option ET.Element.
Variable gh : string -> list License.t.

Local Open Scope list_scope.

Lemma filter_map_comm {A B : Type} (f : A -> B) (P : B -> bool) (l : list A) :
  List.filter P (map f l) = map f (List.filter (fun x => P (f x)) l).
Proof.
  induction l as [|x l IH]; [reflexivity|]. cbn [map List.filter].
  destruct (P (f x)); cbn [map]; now rewrite IH.
Qed.

Lemma first_seen_map {A K : Type} `{EqDecision K} (key : A -> K) (f : A -> A)
    (l : list A) :
  (forall x, key (f x) = key x) ->
  first_seen key (map f l) = map f (first_seen key l).
Proof.
  intros Hf. induction l as [|x l IH]; [reflexivity|].
  cbn [map first_seen]. f_equal. rewrite IH, filter_map_comm.
  f_equal. apply filter_ext. intros y. now rewrite !Hf.
Qed.

Lemma parsed_package_source (syft_output : string) (p : Package.t) :
  In p (SyftOutputParser.parse syft_output) -> Package.license_source p = "Original".
Proof.
  unfold SyftOutputParser.parse.
  intros (line & _ & Hline)%list_elem_of_In%list_elem_of_omap.
  unfold SyftOutputParser.parse_line in Hline.
  destruct (negb (Str.truthy (Str.strip line))); [discriminate|].
  destruct (Re.package_pattern (Str.strip line)) as [[[[g1 g2] g3] g4]|];
    [|discriminate].
  now injection Hline as <-.
Qed.

Lemma enrich_value_label (p : Package.t) :
  Package.license_source p = "Original" ->
  Package.license_source (enrich_value fetch_pom gh p)
  = label_after_enrichment fetch_pom gh p.
Proof.
  intros Hp. unfold enrich_value, enriched, label_after_enrichment.
  destruct (Package.has_licenses p); [exact Hp|]. cbn [negb andb].
  now destruct (nonempty _).
Qed.

End Labels.

(** X21. The name, version, purl and source label of the packages [main]
    hands to the report generator are those of the first parsed line of
    each (name, version) key, in the order of the lines: the purl is that
    line's purl, and the label is the enrichment marker exactly when that
    line had no license and its lookup found some, whatever the later
    lines with the same key contribute to the licenses. *)
Theorem report_packages_fields
    (fetch_pom : string -> string -> string -> option ET.Element)
    (gh : string -> list License.t)
    (syft_output : string) (result : list Package.t) :
  Main.report_packages fetch_pom gh syft_output = Some result ->
  map (fun q => (Package.name q, Package.version q, Package.purl q,
                 Package.license_source q)) result
  = map (fun p => (Package.name p, Package.version p, Package.purl p,
                   label_after_enrichment fetch_pom gh p))
      (DedupSpec.first_members (SyftOutputParser.parse syft_output)).
Proof.
  intros [_ ->]%report_packages_Some. rewrite deduplicate_spec.
  unfold DedupSpec.deduplicate, DedupSpec.first_members.
  rewrite (first_seen_map Package.unique_key _ _ (enrich_value_key fetch_pom gh)).
  rewrite !map_map. apply map_ext_in. intros p Hp%first_seen_In.
  cbn [DedupSpec.merged_package Package.name Package.version Package.purl
       Package.license_source].
  rewrite (enrich_value_label fetch_pom gh p (parsed_package_source _ _ Hp)).
  pose proof (enrich_value_key fetch_pom gh p) as Hk.
  unfold Package.unique_key in Hk. injection Hk as -> ->.
  f_equal. f_equal. unfold enrich_value, enriched.
  destruct (Package.has_licenses p); [reflexivity|]. now destruct (nonempty _).
Qed.

Lemma report_packages_fields_witness :
  map (fun q => (Package.name q, Package.version q, Package.purl q,
                 Package.license_source q)) MainExamples.report
  = map (fun p => (Package.name p, Package.version p, Package.purl p,
                   label_after_enrichment Examples.chain_registry Examples.no_github p))
      (DedupSpec.first_members (SyftOutputParser.parse MainExamples.manifest)).
Proof.
  apply (report_packages_fields Examples.chain_registry Examples.no_github
           MainExamples.manifest MainExamples.report).
  vm_compute. reflexivity.
Defined.
